(** * ipvx: IPv4 address representation, parsing, masks, CIDR algebra and
      classification -- a shallow embedding of the TypeScript sources and the
      properties established about them.

    Conventions of the embedding.

    - A JavaScript [number] is modelled by an integer of [Z]; the 32-bit
      conversions that the bitwise operators perform ([ToInt32], [ToUint32],
      shift counts taken modulo 32) are written out.  Values that are not
      integers ([NaN], fractions, infinities) are outside the model; where the
      source can produce [NaN] ([parseInt]) the result is an [option].
    - A JavaScript [string] is modelled by [string]; a character is one code
      unit in the range 0..255.
    - A function that may [throw] returns a [result]. *)

From Stdlib Require Import ZArith List String Ascii Bool Lia ZifyBool.
Import ListNotations.

Local Open Scope Z_scope.

(** ** Errors and results *)

Inductive Err : Type :=
| PlainError (msg : string)
| IPv4ValidationError (msg : string)
| IPv4SubnetError (msg : string)
| IPv4ArithmeticError (msg : string).

Inductive result (A : Type) : Type :=
| OK (a : A)
| Throw (e : Err).

Arguments OK {A} a.
Arguments Throw {A} e.

Definition bind {A B : Type} (r : result A) (f : A -> result B) : result B :=
  match r with
  | OK a => f a
  | Throw e => Throw e
  end.

Notation "x <- r ;; k" := (bind r (fun x => k))
  (at level 61, r at next level, right associativity).

Definition throws {A : Type} (r : result A) : Prop :=
  exists e, r = Throw e.

(** ** The JavaScript number operators used by the sources *)

Module JS.

Definition toUint32 (x : Z) : Z := x mod 2^32.

Definition toInt32 (x : Z) : Z :=
  let u := x mod 2^32 in
  if 2^31 <=? u then u - 2^32 else u.

(** Shift counts are [ToUint32 (count) & 31]. *)
Definition shiftCount (k : Z) : Z := (toUint32 k) mod 32.

(** [a << k] *)
Definition shl (a k : Z) : Z := toInt32 (Z.shiftl (toInt32 a) (shiftCount k)).

(** [a >>> k] *)
Definition ushr (a k : Z) : Z := Z.shiftr (toUint32 a) (shiftCount k).

(** [a & b], [a | b], [a ^ b], [~a]: the operands are converted with
    [ToInt32] and the result is a signed 32-bit integer. *)
Definition band (a b : Z) : Z := Z.land (toInt32 a) (toInt32 b).
Definition bor (a b : Z) : Z := Z.lor (toInt32 a) (toInt32 b).
Definition bxor (a b : Z) : Z := Z.lxor (toInt32 a) (toInt32 b).
Definition bnot (a : Z) : Z := Z.lnot (toInt32 a).

(** [a >> k], the sign-propagating shift. *)
Definition sar (a k : Z) : Z := Z.shiftr (toInt32 a) (shiftCount k).

(** [Math.pow(2, e)] for an integer exponent [e >= 0]. *)
Definition pow2 (e : Z) : Z := 2 ^ e.

(** *** Strings *)

Definition charCode (c : ascii) : Z := Z.of_nat (nat_of_ascii c).

Definition isDigit (c : ascii) : bool :=
  (48 <=? charCode c) && (charCode c <=? 57).

Definition digitValue (c : ascii) : Z := charCode c - 48.

Definition digitChar (d : Z) : ascii := ascii_of_nat (Z.to_nat (48 + d)).

(** [Number.prototype.toString] on a non-negative integer: its decimal
    digits, most significant first, without leading zeros. *)
Fixpoint digitsOf (fuel : nat) (n : Z) (acc : string) : string :=
  match fuel with
  | O => acc
  | S f =>
      let acc' := String (digitChar (n mod 10)) acc in
      if n <? 10 then acc' else digitsOf f (n / 10) acc'
  end.

Definition numToString (n : Z) : string :=
  if n <? 0
  then String "-"%char (digitsOf (S (Z.to_nat (Z.log2 (- n)))) (- n) EmptyString)
  else digitsOf (S (Z.to_nat (Z.log2 n))) n EmptyString.

(** [s.split(sep)] for a one-character separator: the empty string splits
    into one empty component. *)
Fixpoint split (sep : ascii) (s : string) : list string :=
  match s with
  | EmptyString => [EmptyString]
  | String c r =>
      if Ascii.eqb c sep then EmptyString :: split sep r
      else match split sep r with
           | h :: t => String c h :: t
           | [] => [String c EmptyString]
           end
  end.

(** [parts.join(sep)] *)
Fixpoint join (sep : string) (parts : list string) : string :=
  match parts with
  | [] => EmptyString
  | [p] => p
  | p :: rest => (p ++ sep ++ join sep rest)%string
  end.

(** White space and line terminators skipped by [parseInt] and [Number],
    among the code units 0..255. *)
Definition isWhiteSpace (c : ascii) : bool :=
  let k := charCode c in
  ((9 <=? k) && (k <=? 13)) || (k =? 32) || (k =? 160).

Fixpoint skipWhiteSpace (s : string) : string :=
  match s with
  | String c r => if isWhiteSpace c then skipWhiteSpace r else s
  | EmptyString => EmptyString
  end.

(** The value of the longest prefix of decimal digits of [s], continuing
    from [acc]; [seen] records whether a digit was read. *)
Fixpoint digitPrefix (s : string) (acc : Z) (seen : bool) : option Z :=
  match s with
  | String c r =>
      if isDigit c then digitPrefix r (acc * 10 + digitValue c) true
      else if seen then Some acc else None
  | EmptyString => if seen then Some acc else None
  end.

(** [parseInt(s, 10)]; [None] is [NaN]. *)
Definition parseInt (s : string) : option Z :=
  match skipWhiteSpace s with
  | String "-"%char r =>
      match digitPrefix r 0 false with Some v => Some (- v) | None => None end
  | String "+"%char r => digitPrefix r 0 false
  | t => digitPrefix t 0 false
  end.

(** A number under a bitwise operator: [NaN] converts to 0. *)
Definition orZero (o : option Z) : Z :=
  match o with Some v => v | None => 0 end.

(** [string.length] *)
Definition strlen (s : string) : Z := Z.of_nat (String.length s).

(** [Number.prototype.toString(2)] on a non-negative integer: its binary
    digits, most significant first, without leading zeros. *)
Fixpoint bitsOf (fuel : nat) (n : Z) (acc : string) : string :=
  match fuel with
  | O => acc
  | S f =>
      let acc' := String (digitChar (n mod 2)) acc in
      if n <? 2 then acc' else bitsOf f (n / 2) acc'
  end.

Definition toBinaryString (n : Z) : string :=
  bitsOf (S (Z.to_nat (Z.log2 n))) n EmptyString.

Fixpoint repeatChar (k : nat) (c : ascii) : string :=
  match k with
  | O => EmptyString
  | S k' => String c (repeatChar k' c)
  end.

(** [s.padStart(len, c)] for a one-character filler [c]. *)
Definition padStart (s : string) (len : Z) (c : ascii) : string :=
  if len <=? strlen s then s
  else (repeatChar (Z.to_nat (len - strlen s)) c ++ s)%string.

End JS.

(** ** src/ipv4/lib/bitwise/bitmask.ts *)

Module Bitmask.
Import JS.

Definition MAX_32BIT_VALUE : Z := 0xFFFFFFFF.

Definition generateBitmask (numBits : Z) : result Z :=
  if (numBits <? 0) || (numBits >? 32)
  then Throw (PlainError "Invalid number of bits. Must be between 0 and 32 inclusive.")
  else OK (if numBits =? 0 then 0
           else ushr (shl MAX_32BIT_VALUE (32 - numBits)) 0).

Definition applyMask (value mask : Z) : Z := ushr (band value mask) 0.

Definition invertMask (mask : Z) : Z := ushr (bnot mask) 0.

Definition extractBits (n start end_ : Z) : result Z :=
  if (start <? 0) || (end_ >? 31) || (start >? end_)
  then Throw (PlainError "Invalid bit range. Start and end positions must be between 0 and 31 inclusive, and start <= end.")
  else
    let mask := shl (shl 1 (end_ - start + 1) - 1) start in
    OK (ushr (band n mask) start).

(** The loop of [countLeadingOnes]; it runs at most 32 times because of its
    [count < 32] guard, so 32 units of fuel never run out. *)
Fixpoint countLeadingOnes_loop (fuel : nat) (n count : Z) : Z :=
  match fuel with
  | O => count
  | S f =>
      if (band n 0x80000000 =? 0) && (count <? 32)
      then countLeadingOnes_loop f (shl n 1) (count + 1)
      else count
  end.

Definition countLeadingOnes (n : Z) : Z :=
  countLeadingOnes_loop 32 (bnot n) 0.

(** [(subset & set) === subset]: the left side is a signed 32-bit integer,
    the right side the number that was passed. *)
Definition isSubsetMask (subset set : Z) : bool := band subset set =? subset.

Definition mergeBitmasks (mask1 mask2 : Z) : Z := ushr (bor mask1 mask2) 0.

Definition intersectBitmasks (mask1 mask2 : Z) : Z := ushr (band mask1 mask2) 0.

Definition isolateRightmostSetBit (n : Z) : Z := band n (- n).

Definition removeRightmostSetBit (n : Z) : Z := ushr (band n (n - 1)) 0.

Definition getLowestNBits (n : Z) : result Z :=
  if (n <? 0) || (n >? 32)
  then Throw (PlainError "Invalid number of bits. Must be between 0 and 32 inclusive.")
  else OK (shl 1 n - 1).

End Bitmask.

(** ** src/ipv4/lib/bitwise/basic.ts: the basic logical operations *)

Module Basic.
Import JS.

Definition and (a b : Z) : Z := band a b.
Definition or (a b : Z) : Z := bor a b.
Definition xor (a b : Z) : Z := bxor a b.
Definition not (n : Z) : Z := ushr (bnot n) 0.

(** [Number.isInteger(positions)] holds of every number of the model. *)
Definition leftShift (n positions : Z) : result Z :=
  if (positions <? 0) || (positions >? 31)
  then Throw (PlainError "Invalid number of positions for left shift. Must be an integer between 0 and 31 inclusive.")
  else
    let n := bor n 0 in
    OK (ushr (shl n positions) 0).

Definition rightShift (n positions : Z) (isArithmetic : bool) : result Z :=
  if (positions <? 0) || (positions >? 31)
  then Throw (PlainError "Invalid number of positions for right shift. Must be an integer between 0 and 31 inclusive.")
  else
    let n := bor n 0 in
    OK (if isArithmetic then sar n positions else ushr n positions).

Definition DeBruijnSequence : Z := 0x077CB531.

Definition DeBruijnTable : list Z :=
  [ 0; 1; 28; 2; 29; 14; 24; 3; 30; 22; 20; 15; 25; 17; 4; 8;
    31; 27; 13; 23; 21; 19; 16; 7; 26; 12; 18; 6; 11; 5; 10; 9 ].

(** The product [(n & -n) * DeBruijnSequence] is a power of two (or its
    opposite) times a 27-bit integer, so it is exact as a JavaScript number;
    the index [... >>> 27] is below 32, inside the table. *)
Definition trailingZeros (n : Z) : Z :=
  let n := ushr n 0 in
  if n =? 0 then 32
  else nth (Z.to_nat (ushr (band n (- n) * DeBruijnSequence) 27)) DeBruijnTable 0.

Definition findFirstSetBit (n : Z) : Z :=
  let n := ushr n 0 in
  if n =? 0 then -1 else trailingZeros n.

Definition getBit (n position : Z) : result Z :=
  if (position <? 0) || (position >? 31)
  then Throw (PlainError "Invalid bit position. Must be between 0 and 31 inclusive.")
  else OK (band (ushr n position) 1).

Definition setBit (n position : Z) (value : bool) : result Z :=
  if (position <? 0) || (position >? 31)
  then Throw (PlainError "Invalid bit position. Must be between 0 and 31 inclusive.")
  else OK (ushr (if value then bor n (shl 1 position)
                 else band n (bnot (shl 1 position))) 0).

Definition clearBit (n position : Z) : result Z :=
  if (position <? 0) || (position >? 31)
  then Throw (PlainError "Invalid bit position. Must be between 0 and 31 inclusive.")
  else OK (band n (bnot (shl 1 position))).

Definition toggleBit (n position : Z) : result Z :=
  if (position <? 0) || (position >? 31)
  then Throw (PlainError "Invalid bit position. Must be between 0 and 31 inclusive.")
  else OK (bxor n (shl 1 position)).

Definition invertBits (n : Z) : Z := ushr (bnot n) 0.

Definition isPowerOfTwo (n : Z) : bool := (n >? 0) && (band n (n - 1) =? 0).

Definition min (a b : Z) : Z := bxor b (band (bxor a b) (- (if a <? b then 1 else 0))).

Definition max (a b : Z) : Z := bxor a (band (bxor a b) (- (if a <? b then 1 else 0))).

End Basic.

(** ** src/ipv4/util/octet.ts *)

Module Octet.
Import JS.

Definition extractOctet (ip octetPosition : Z) : result Z :=
  if (octetPosition <? 0) || (octetPosition >? 3)
  then Throw (PlainError "Invalid octet position. Must be between 0 and 3 inclusive.")
  else Bitmask.extractBits ip ((3 - octetPosition) * 8) ((3 - octetPosition) * 8 + 7).

Definition setOctet (ip octetPosition value : Z) : result Z :=
  if (octetPosition <? 0) || (octetPosition >? 3)
  then Throw (PlainError "Invalid octet position. Must be between 0 and 3 inclusive.")
  else if (value <? 0) || (value >? 255)
  then Throw (PlainError "Invalid octet value. Must be between 0 and 255 inclusive.")
  else
    let shiftAmount := (3 - octetPosition) * 8 in
    let mask := bnot (shl 0xFF shiftAmount) in
    OK (ushr (bor (band ip mask) (shl value shiftAmount)) 0).

Definition bitflagToOctets (ip : Z) : list Z :=
  [ band (ushr ip 24) 0xFF;
    band (ushr ip 16) 0xFF;
    band (ushr ip 8) 0xFF;
    band ip 0xFF ].

(** [octets[i]]: an index past the end of the array reads [undefined], which
    the bitwise operators convert to 0. *)
Definition at_ (octets : list Z) (i : nat) : Z := nth i octets 0.

Definition octetsToBitflag (octets : list Z) : Z :=
  ushr (bor (bor (bor (shl (at_ octets 0) 24) (shl (at_ octets 1) 16))
                 (shl (at_ octets 2) 8))
            (at_ octets 3)) 0.

End Octet.


(** ** src/ipv4/util/parse.ts *)

Module Parse.
Import JS.

Definition IPV4_OCTET_COUNT : Z := 4.
Definition IPV4_MAX_OCTET_VALUE : Z := 255.

(** Bitmask for valid IPv4 characters (0-9 and .), from validate.ts. *)
Definition VALID_IPV4_CHARS : Z := 0x03FF4000.

Record ValidationResult : Type := mkValidation {
  isValid : bool;
  reason : option string
}.

Definition valid : ValidationResult := mkValidation true None.
Definition invalid (why : string) : ValidationResult := mkValidation false (Some why).

Definition isValidChar (charCode validCharMask : Z) : bool :=
  negb (band validCharMask (shl 1 charCode) =? 0).

(** The first loop of [validateIPv4]: the first character that fails
    [isValidChar], if any. *)
Fixpoint firstInvalidChar (ip : string) : option ascii :=
  match ip with
  | EmptyString => None
  | String c r =>
      if negb (isValidChar (charCode c) VALID_IPV4_CHARS) then Some c
      else firstInvalidChar r
  end.

Definition startsWithZero (s : string) : bool :=
  match s with
  | String c _ => Ascii.eqb c "0"%char
  | EmptyString => false
  end.

(** The body of the second loop of [validateIPv4] on one component;
    [None] when the component passes. *)
Definition checkOctet (o : string) : option string :=
  match parseInt o with
  | None => Some ("Invalid octet: " ++ o)%string
  | Some octet =>
      if (octet <? 0) || (octet >? IPV4_MAX_OCTET_VALUE)
      then Some ("Octet out of range: " ++ numToString octet)%string
      else if (strlen o >? 1) && startsWithZero o
      then Some ("Leading zeros are not allowed: " ++ o)%string
      else None
  end.

(** The second loop, over the components in order. *)
Fixpoint checkOctets (octets : list string) : ValidationResult :=
  match octets with
  | [] => valid
  | o :: rest =>
      match checkOctet o with
      | Some why => invalid why
      | None => checkOctets rest
      end
  end.

Definition validateIPv4 (ip : string) : ValidationResult :=
  match firstInvalidChar ip with
  | Some c => invalid ("Invalid character in IP address: " ++ String c EmptyString)%string
  | None =>
      let octets := split "."%char ip in
      if negb (Z.of_nat (List.length octets) =? IPV4_OCTET_COUNT)
      then invalid "IPv4 address must have exactly 4 octets"
      else checkOctets octets
  end.

Definition parseIPv4 (ip : string) : result Z :=
  let validationResult := validateIPv4 ip in
  if negb (isValid validationResult)
  then Throw (IPv4ValidationError
                (match reason validationResult with
                 | Some why => why
                 | None => "Invalid IPv4 address"%string
                 end))
  else
    let octets := map (fun octet => orZero (parseInt octet)) (split "."%char ip) in
    OK (Octet.octetsToBitflag octets).

Definition formatIPv4 (bitflag : Z) : string :=
  let octets := Octet.bitflagToOctets bitflag in
  join "." (map numToString octets).

Definition ipToNumber (ip : string) : result Z := parseIPv4 ip.

Definition numberToIP (num : Z) : result string :=
  if (num <? 0) || (num >? 0xFFFFFFFF)
  then Throw (PlainError "Invalid IPv4 numeric representation")
  else OK (formatIPv4 num).

(** The loop of [binaryToIP] over the characters that are left. *)
Fixpoint binaryLoop (binary : string) (bitflag : Z) : result Z :=
  match binary with
  | EmptyString => OK bitflag
  | String c r =>
      if negb (Ascii.eqb c "0"%char) && negb (Ascii.eqb c "1"%char)
      then Throw (PlainError "Invalid character in binary string")
      else
        shifted <- Basic.leftShift bitflag 1 ;;
        binaryLoop r (Basic.or shifted (if Ascii.eqb c "1"%char then 1 else 0))
  end.

Definition binaryToIP (binary : string) : result string :=
  if negb (strlen binary =? 32)
  then Throw (PlainError "Invalid binary string length for IPv4 address")
  else
    bitflag <- binaryLoop binary 0 ;;
    OK (formatIPv4 bitflag).

Definition ipToBinary (ip : string) : result string :=
  bitflag <- parseIPv4 ip ;;
  OK (padStart (toBinaryString bitflag) 32 "0"%char).

End Parse.

(** ** src/ipv4/util/mask.ts *)

Module Mask.
Import JS.

Definition IPV4_MIN_PREFIX_LENGTH : Z := 0.
Definition IPV4_MAX_PREFIX_LENGTH : Z := 32.

(** [Number.isInteger] holds of every number of the model. *)
Definition createMask (prefixLength : Z) : result Z :=
  if (prefixLength <? IPV4_MIN_PREFIX_LENGTH) || (prefixLength >? IPV4_MAX_PREFIX_LENGTH)
  then Throw (IPv4ValidationError
                ("Invalid prefix length: " ++ numToString prefixLength
                 ++ ". Must be an integer between 0 and 32."))
  else m <- Bitmask.generateBitmask prefixLength ;; OK (ushr m 0).

Definition getMaskPrefix (mask : Z) : result Z :=
  let prefix := Bitmask.countLeadingOnes mask in
  m <- createMask prefix ;;
  if negb (ushr mask 0 =? ushr m 0)
  then Throw (IPv4ValidationError "Invalid subnet mask")
  else OK prefix.

Definition invertMaskBits (mask : Z) : Z := ushr (Bitmask.invertMask mask) 0.

Definition applyMask (ip mask : Z) : Z := ushr (Basic.and ip mask) 0.

Definition combineMasks (mask1 mask2 : Z) : Z := ushr (Basic.and mask1 mask2) 0.

Definition expandMask (baseMask expansionMask : Z) : Z :=
  ushr (Basic.or baseMask expansionMask) 0.

Definition getMaskDifference (mask1 mask2 : Z) : Z :=
  ushr (Basic.xor mask1 mask2) 0.

End Mask.

(** ** src/ipv4/core/cidr.ts *)

Module Cidr.
Import JS.

Definition IPV4_MAX_PREFIX_LENGTH : Z := 32.

(** Modelled from the spec: [createSubnetMask], which cidr.ts calls, is only
    declared (with an empty body) in the sources.  The spec's
    [maskFromPrefix(n)] is the mask of [n] leading one bits and fails for [n]
    outside [0,32]; this is what [createMask] of util/mask.ts computes. *)
Definition createSubnetMask (prefixLength : Z) : result Z :=
  Mask.createMask prefixLength.

Definition calculateNetworkAddress (ip : string) (prefixLength : Z) : result string :=
  ipBitflag <- Parse.parseIPv4 ip ;;
  mask <- createSubnetMask prefixLength ;;
  let networkBitflag := ushr (Bitmask.applyMask ipBitflag mask) 0 in
  OK (Parse.formatIPv4 networkBitflag).

Definition calculateBroadcastAddress (ip : string) (prefixLength : Z) : result string :=
  ipBitflag <- Parse.parseIPv4 ip ;;
  mask <- createSubnetMask prefixLength ;;
  let invertedMask := ushr (Basic.not mask) 0 in
  let broadcastBitflag := ushr (Basic.or ipBitflag invertedMask) 0 in
  OK (Parse.formatIPv4 broadcastBitflag).



Definition isSubnetOf (subnetA : string) (prefixLengthA : Z)
                      (subnetB : string) (prefixLengthB : Z) : result bool :=
  if prefixLengthA <=? prefixLengthB then OK false
  else
    networkA <- Parse.parseIPv4 subnetA ;;
    networkB <- Parse.parseIPv4 subnetB ;;
    maskB <- createSubnetMask prefixLengthB ;;
    OK (Bitmask.applyMask networkA maskB =? Bitmask.applyMask networkB maskB).

Definition IPV4_MIN_PREFIX_LENGTH : Z := 0.

Definition isInSubnet (ip subnetIp : string) (prefixLength : Z) : result bool :=
  ipBitflag <- Parse.parseIPv4 ip ;;
  subnetBitflag <- Parse.parseIPv4 subnetIp ;;
  mask <- createSubnetMask prefixLength ;;
  OK (ushr (Bitmask.applyMask ipBitflag mask) 0
      =? ushr (Bitmask.applyMask subnetBitflag mask) 0).

Definition calculateAvailableIPs (prefixLength : Z) : result Z :=
  if (prefixLength <? IPV4_MIN_PREFIX_LENGTH) || (prefixLength >? IPV4_MAX_PREFIX_LENGTH)
  then Throw (IPv4SubnetError "Invalid prefix length")
  else if prefixLength =? IPV4_MAX_PREFIX_LENGTH then OK 1
  else if prefixLength =? IPV4_MAX_PREFIX_LENGTH - 1 then OK 2
  else OK (pow2 (IPV4_MAX_PREFIX_LENGTH - prefixLength) - 2).

Definition calculateFirstUsableIP (networkAddress : string) (prefixLength : Z)
  : result string :=
  networkBitflag <- Parse.parseIPv4 networkAddress ;;
  if prefixLength >=? IPV4_MAX_PREFIX_LENGTH - 1
  then OK (Parse.formatIPv4 networkBitflag)
  else
    let firstUsableBitflag := ushr (networkBitflag + 1) 0 in
    OK (Parse.formatIPv4 firstUsableBitflag).

Definition calculateLastUsableIP (networkAddress : string) (prefixLength : Z)
  : result string :=
  broadcastAddress <- calculateBroadcastAddress networkAddress prefixLength ;;
  broadcastBitflag <- Parse.parseIPv4 broadcastAddress ;;
  if prefixLength >=? IPV4_MAX_PREFIX_LENGTH - 1
  then OK (Parse.formatIPv4 broadcastBitflag)
  else
    let lastUsableBitflag := ushr (broadcastBitflag - 1) 0 in
    OK (Parse.formatIPv4 lastUsableBitflag).

(** [Math.pow(2, 32 - prefixLength)] is an integer for [prefixLength <= 32];
    larger prefix lengths give a fraction and are outside the model. *)
Definition getNextSubnet (currentSubnet : string) (prefixLength : Z) : result string :=
  currentBitflag <- Parse.parseIPv4 currentSubnet ;;
  let subnetSize := pow2 (IPV4_MAX_PREFIX_LENGTH - prefixLength) in
  let nextSubnetBitflag := currentBitflag + subnetSize in
  if nextSubnetBitflag >? 0xFFFFFFFF
  then Throw (IPv4SubnetError "No next subnet available (address space overflow)")
  else OK (Parse.formatIPv4 nextSubnetBitflag).

Definition getPreviousSubnet (currentSubnet : string) (prefixLength : Z) : result string :=
  currentBitflag <- Parse.parseIPv4 currentSubnet ;;
  let subnetSize := pow2 (IPV4_MAX_PREFIX_LENGTH - prefixLength) in
  let previousSubnetBitflag := currentBitflag - subnetSize in
  if previousSubnetBitflag <? 0
  then Throw (IPv4SubnetError "No previous subnet available (address space underflow)")
  else OK (Parse.formatIPv4 previousSubnetBitflag).

Definition getIPRange (networkAddress : string) (prefixLength : Z)
  : result (string * string) :=
  firstIP <- calculateNetworkAddress networkAddress prefixLength ;;
  lastIP <- calculateBroadcastAddress networkAddress prefixLength ;;
  OK (firstIP, lastIP).

End Cidr.

(** ** src/ipv4/core/operation.ts *)

Module Operation.
Import JS.

Fixpoint skipTrailingWhiteSpace (s : string) : string :=
  match s with
  | EmptyString => EmptyString
  | String c r =>
      match skipTrailingWhiteSpace r with
      | EmptyString => if isWhiteSpace c then EmptyString else String c EmptyString
      | r' => String c r'
      end
  end.

Fixpoint allDigits (s : string) : bool :=
  match s with
  | EmptyString => true
  | String c r => isDigit c && allDigits r
  end.

(** [Number(s)] on a string: surrounding white space is dropped, the empty
    string converts to 0, and an optionally signed run of decimal digits to
    its value.  [None] is [NaN]; the literals with a fraction, an exponent or a
    radix prefix, and [Infinity], are not part of the embedding and are
    treated like [NaN]: no component of a validated address has these forms. *)
Definition toNumber (s : string) : option Z :=
  match skipTrailingWhiteSpace (skipWhiteSpace s) with
  | EmptyString => Some 0
  | String "-"%char r =>
      if allDigits r then option_map Z.opp (digitPrefix r 0 false) else None
  | String "+"%char r =>
      if allDigits r then digitPrefix r 0 false else None
  | t => if allDigits t then digitPrefix t 0 false else None
  end.

Definition ipToBitflag (ip : string) : Z :=
  let octets := map (fun o => orZero (toNumber o)) (split "."%char ip) in
  Octet.octetsToBitflag octets.

Definition bitflagToIP (bitflag : Z) : string :=
  let octets := Octet.bitflagToOctets bitflag in
  join "." (map numToString octets).

Definition incrementIP (ip : string) (amount : Z) : result string :=
  let bitflag := ipToBitflag ip in
  let result := ushr (bitflag + amount) 0 in
  if result >? 0xFFFFFFFF
  then Throw (IPv4ArithmeticError "Increment operation results in an invalid IPv4 address")
  else OK (bitflagToIP result).

Definition decrementIP (ip : string) (amount : Z) : result string :=
  let bitflag := ipToBitflag ip in
  let result := ushr (bitflag - amount) 0 in
  if bitflag <? amount
  then Throw (IPv4ArithmeticError "Decrement operation results in an invalid IPv4 address")
  else OK (bitflagToIP result).

Definition isIPInRange (ip startIP endIP : string) : bool :=
  let ipBitflag := ipToBitflag ip in
  let startBitflag := ipToBitflag startIP in
  let endBitflag := ipToBitflag endIP in
  (ipBitflag >=? startBitflag) && (ipBitflag <=? endBitflag).

Definition ipDifference (ip1 ip2 : string) : Z :=
  let bitflag1 := ipToBitflag ip1 in
  let bitflag2 := ipToBitflag ip2 in
  Z.abs (bitflag1 - bitflag2).

Definition compareIPs (ip1 ip2 : string) : Z :=
  let bitflag1 := ipToBitflag ip1 in
  let bitflag2 := ipToBitflag ip2 in
  if bitflag1 <? bitflag2 then -1
  else if bitflag1 >? bitflag2 then 1
  else 0.

End Operation.

(** ** src/ipv4/util/octet.ts: the functions on address strings *)

Module OctetIP.
Import JS.

Definition setOctetInIP (ip : string) (octetPosition value : Z) : result string :=
  if (octetPosition <? 0) || (octetPosition >? 3)
  then Throw (PlainError "Invalid octet position. Must be between 0 and 3 inclusive.")
  else if (value <? 0) || (value >? 255)
  then Throw (PlainError "Invalid octet value. Must be between 0 and 255 inclusive.")
  else
    let ipBitflag := Operation.ipToBitflag ip in
    newIpBitflag <- Octet.setOctet ipBitflag octetPosition value ;;
    OK (Operation.bitflagToIP newIpBitflag).

Definition getOctetFromIP (ip : string) (octetPosition : Z) : result Z :=
  if (octetPosition <? 0) || (octetPosition >? 3)
  then Throw (PlainError "Invalid octet position. Must be between 0 and 3 inclusive.")
  else
    let ipBitflag := Operation.ipToBitflag ip in
    Octet.extractOctet ipBitflag octetPosition.

Definition swapOctets (ip : string) (position1 position2 : Z) : result string :=
  if (position1 <? 0) || (position1 >? 3) || (position2 <? 0) || (position2 >? 3)
  then Throw (PlainError "Invalid octet position. Must be between 0 and 3 inclusive.")
  else
    let ipBitflag := Operation.ipToBitflag ip in
    octet1 <- Octet.extractOctet ipBitflag position1 ;;
    octet2 <- Octet.extractOctet ipBitflag position2 ;;
    ipBitflag <- Octet.setOctet ipBitflag position1 octet2 ;;
    ipBitflag <- Octet.setOctet ipBitflag position2 octet1 ;;
    OK (Operation.bitflagToIP ipBitflag).

End OctetIP.

(** ** src/ipv4/core/operation.ts: classful networks *)

Module Classful.
Import JS.

Definition isClassfulNetwork (ip : string) : result string :=
  firstOctet <- OctetIP.getOctetFromIP ip 0 ;;
  if (firstOctet >=? 0) && (firstOctet <=? 127) then OK "A"%string
  else if (firstOctet >=? 128) && (firstOctet <=? 191) then OK "B"%string
  else if (firstOctet >=? 192) && (firstOctet <=? 223) then OK "C"%string
  else if (firstOctet >=? 224) && (firstOctet <=? 239) then OK "D"%string
  else if (firstOctet >=? 240) && (firstOctet <=? 255) then OK "E"%string
  else OK "Unknown"%string.

Definition getDefaultSubnetMask (ip : string) : result string :=
  networkClass <- isClassfulNetwork ip ;;
  if String.eqb networkClass "A" then OK "255.0.0.0"%string
  else if String.eqb networkClass "B" then OK "255.255.0.0"%string
  else if String.eqb networkClass "C" then OK "255.255.255.0"%string
  else Throw (IPv4ArithmeticError "No default subnet mask for this IP class").

End Classful.

(** ** src/ipv4/core/special.ts *)

Module Special.
Import JS.
Local Open Scope string_scope.

(** The ranges are built with [assertIPv4Address] when the module is loaded;
    each literal passes that validation. *)
Definition PRIVATE_RANGES : list (string * string) :=
  [ ("10.0.0.0", "10.255.255.255");
    ("172.16.0.0", "172.31.255.255");
    ("192.168.0.0", "192.168.255.255") ].

Definition LOOPBACK_RANGE : string * string := ("127.0.0.0", "127.255.255.255").
Definition LINK_LOCAL_RANGE : string * string := ("169.254.0.0", "169.254.255.255").
Definition MULTICAST_RANGE : string * string := ("224.0.0.0", "239.255.255.255").
Definition BROADCAST_IP : string := "255.255.255.255".

Definition DOCUMENTATION_RANGES : list (string * string) :=
  [ ("192.0.2.0", "192.0.2.255");
    ("198.51.100.0", "198.51.100.255");
    ("203.0.113.0", "203.0.113.255") ].

Definition BENCHMARKING_RANGE : string * string := ("198.18.0.0", "198.19.255.255").
Definition SHARED_ADDRESS_SPACE_RANGE : string * string := ("100.64.0.0", "100.127.255.255").

Definition RESERVED_RANGES : list (string * string) :=
  [ ("0.0.0.0", "0.255.255.255");
    ("240.0.0.0", "255.255.255.254") ].

(** The callback [([start, end]) => isIPInRange(ip, start, end)]. *)
Definition inRange (ip : string) (r : string * string) : bool :=
  Operation.isIPInRange ip (fst r) (snd r).

Definition isPrivateIP (ip : string) : bool := existsb (inRange ip) PRIVATE_RANGES.
Definition isLoopbackIP (ip : string) : bool := inRange ip LOOPBACK_RANGE.
Definition isLinkLocalIP (ip : string) : bool := inRange ip LINK_LOCAL_RANGE.
Definition isMulticastIP (ip : string) : bool := inRange ip MULTICAST_RANGE.
Definition isBroadcastIP (ip : string) : bool := String.eqb ip BROADCAST_IP.
Definition isDocumentationIP (ip : string) : bool := existsb (inRange ip) DOCUMENTATION_RANGES.
Definition isBenchmarkingIP (ip : string) : bool := inRange ip BENCHMARKING_RANGE.
Definition isSharedAddressSpaceIP (ip : string) : bool := inRange ip SHARED_ADDRESS_SPACE_RANGE.
Definition isReservedIP (ip : string) : bool := existsb (inRange ip) RESERVED_RANGES.

Definition getSpecialIPType (ip : string) : string :=
  if isPrivateIP ip then "Private"
  else if isLoopbackIP ip then "Loopback"
  else if isLinkLocalIP ip then "Link-local"
  else if isMulticastIP ip then "Multicast"
  else if isBroadcastIP ip then "Broadcast"
  else if isBenchmarkingIP ip then "Benchmarking"
  else if isSharedAddressSpaceIP ip then "Shared Address Space"
  else if isDocumentationIP ip then "Documentation"
  else if isReservedIP ip then "Reserved"
  else "Public".

Definition isGlobalUnicastIP (ip : string) : bool :=
  String.eqb (getSpecialIPType ip) "Public".

End Special.

(** ** src/ipv4/util/classify.ts *)

Module Classify.
Import JS.
Local Open Scope string_scope.
Local Open Scope Z_scope.

Definition isMulticastIP (ip : Z) : result bool :=
  m <- Bitmask.generateBitmask 4 ;;
  OK (Bitmask.applyMask ip m =? 0xE0000000).

(** [applyMask(ip, generateBitmask(bits)) === prefix] *)
Definition maskedIs (ip bits prefix : Z) : result bool :=
  m <- Bitmask.generateBitmask bits ;;
  OK (Bitmask.applyMask ip m =? prefix).

Definition isReservedIP (ip : Z) : result bool :=
  c1 <- maskedIs ip 8 0x00000000 ;;
  if c1 then OK true else
  c2 <- maskedIs ip 10 0x64400000 ;;
  if c2 then OK true else
  c3 <- maskedIs ip 24 0xC0000000 ;;
  if c3 then OK true else
  c4 <- maskedIs ip 24 0xC0000200 ;;
  if c4 then OK true else
  c5 <- maskedIs ip 24 0xC6336400 ;;
  if c5 then OK true else
  c6 <- maskedIs ip 24 0xCB007100 ;;
  if c6 then OK true else
  c7 <- maskedIs ip 4 0xF0000000 ;;
  if c7 then OK true else
  OK false.

Definition getMulticastType (ip : Z) : result string :=
  multicast <- isMulticastIP ip ;;
  if negb multicast then OK "Not Multicast" else
  firstOctet <- Octet.extractOctet ip 0 ;;
  reserved <- isReservedIP ip ;;
  if reserved then OK "Reserved" else
  if firstOctet =? 224 then OK "Well-Known Multicast"
  else if firstOctet =? 225 then OK "Transient Multicast"
  else if firstOctet =? 238 then
    up <- maskedIs ip 24 0xEE000000 ;;
    if up then OK "Unicast-Prefix-based Multicast" else OK "Reserved"
  else if firstOctet =? 239 then OK "Administratively Scoped"
  else if (firstOctet >=? 232) && (firstOctet <=? 235) then OK "Source-Specific Multicast"
  else if (firstOctet >=? 236) && (firstOctet <=? 237) then OK "GLOP Addressing"
  else OK "Reserved".

Definition getIPClass (ip : Z) : result string :=
  firstOctet <- Bitmask.extractBits ip 24 31 ;;
  if firstOctet <? 128 then OK "A"
  else if firstOctet <? 192 then OK "B"
  else if firstOctet <? 224 then OK "C"
  else if firstOctet <? 240 then OK "D"
  else OK "E".

Definition isPrivateIP (ip : Z) : result bool :=
  m255 <- Parse.parseIPv4 "255.0.0.0" ;;
  a10 <- Parse.parseIPv4 "10.0.0.0" ;;
  if Bitmask.applyMask ip m255 =? a10 then OK true else
  lo <- Parse.parseIPv4 "172.16.0.0" ;;
  hi <- Parse.parseIPv4 "172.31.255.255" ;;
  if (ip >=? lo) && (ip <=? hi) then OK true else
  m16 <- Parse.parseIPv4 "255.255.0.0" ;;
  a192 <- Parse.parseIPv4 "192.168.0.0" ;;
  if Bitmask.applyMask ip m16 =? a192 then OK true else
  OK false.

Definition isLoopbackIP (ip : Z) : result bool :=
  m <- Bitmask.generateBitmask 8 ;;
  OK (Bitmask.applyMask ip m =? shl 127 24).

Definition isLinkLocalIP (ip : Z) : result bool :=
  let linkLocalPrefix := 0xA9FE0000 in
  mask <- Bitmask.generateBitmask 16 ;;
  OK (Bitmask.applyMask ip mask =? linkLocalPrefix).

Definition IPV4_MAX_ADDRESS : Z := 0xFFFFFFFF.

Definition isBroadcastIP (ip : Z) : bool := ip =? IPV4_MAX_ADDRESS.

Definition isGloballyRoutableIP (ip : Z) : result bool :=
  private <- isPrivateIP ip ;;
  if private then OK false else
  loopback <- isLoopbackIP ip ;;
  if loopback then OK false else
  linkLocal <- isLinkLocalIP ip ;;
  if linkLocal then OK false else
  multicast <- isMulticastIP ip ;;
  if multicast then OK false else
  OK (negb (isBroadcastIP ip
            || ((ip >=? 0x00000000) && (ip <=? 0x00FFFFFF))
            || ((ip >=? 0x64400000) && (ip <=? 0x647FFFFF))
            || ((ip >=? 0xF0000000) && (ip <=? 0xFFFFFFFF)))).

End Classify.

(** ** The earlier classify.ts, whose range constants are written with
       [<<] and [|] *)

Module ClassifyShifted.
Import JS.

(** [applyMask(ip, generateBitmask(bits)) === prefix] *)
Definition maskedIs (ip bits prefix : Z) : result bool :=
  m <- Bitmask.generateBitmask bits ;;
  OK (Bitmask.applyMask ip m =? prefix).

Definition isPrivateIP (ip : Z) : result bool :=
  classA <- maskedIs ip 8 (shl 10 24) ;;
  classB <- maskedIs ip 12 (bor (shl 172 24) (shl 16 16)) ;;
  classC <- maskedIs ip 16 (bor (shl 192 24) (shl 168 16)) ;;
  OK (classA || classB || classC).

Definition isLoopbackIP (ip : Z) : result bool := maskedIs ip 8 (shl 127 24).

Definition isLinkLocalIP (ip : Z) : result bool :=
  maskedIs ip 16 (bor (shl 169 24) (shl 254 16)).

Definition isMulticastIP (ip : Z) : result bool :=
  firstOctet <- Bitmask.extractBits ip 24 31 ;;
  OK ((firstOctet >=? 224) && (firstOctet <=? 239)).

End ClassifyShifted.

(** ** src/ipv4/util/validate.ts: the conversions *)

Module Validate.
Import JS.

(** The [reduce] of [ipv4ToBitflag] over the components that are left,
    with the callback [(acc, octet) => leftShift(acc, 8) | parseInt(octet, 10)];
    [parseInt] gives [NaN] on a component without digits, which [|] reads
    as 0. *)
Fixpoint reduceOctets (octets : list string) (acc : Z) : result Z :=
  match octets with
  | [] => OK acc
  | octet :: rest =>
      shifted <- Basic.leftShift acc 8 ;;
      reduceOctets rest (bor shifted (orZero (parseInt octet)))
  end.

Definition ipv4ToBitflag (ip : string) : result Z :=
  reduceOctets (split "."%char ip) 0.

Definition bitflagToIPv4 (bitflag : Z) : result string :=
  a <- Bitmask.extractBits bitflag 24 31 ;;
  b <- Bitmask.extractBits bitflag 16 23 ;;
  c <- Bitmask.extractBits bitflag 8 15 ;;
  d <- Bitmask.extractBits bitflag 0 7 ;;
  OK (join "." (map numToString [a; b; c; d])).

End Validate.

(** * Vocabulary of the specification *)

Module Spec.
Import JS.

(** A bitflag: an integer in [0, 2^32 - 1]. *)
Definition isBitflag (v : Z) : Prop := 0 <= v <= 2^32 - 1.

(** The result of a fallible operation, when there is one, is a bitflag. *)
Definition yieldsBitflag (r : result Z) : Prop :=
  match r with
  | OK v => isBitflag v
  | Throw _ => True
  end.

(** The bitflag of the address [a.b.c.d]. *)
Definition ipv4 (a b c d : Z) : Z := a * 2^24 + b * 2^16 + c * 2^8 + d.

(** A canonical octet: a non-empty run of decimal digits, without a leading
    zero unless it is the single digit 0, whose value is at most 255. *)
Fixpoint decimalValue (s : string) (acc : Z) : Z :=
  match s with
  | EmptyString => acc
  | String c r => decimalValue r (acc * 10 + digitValue c)
  end.

Fixpoint onlyDigits (s : string) : bool :=
  match s with
  | EmptyString => true
  | String c r => isDigit c && onlyDigits r
  end.

Definition canonicalOctet (s : string) : bool :=
  match s with
  | EmptyString => false
  | String c r =>
      onlyDigits s
      && (negb (Ascii.eqb c "0"%char) || (String.length r =? 0)%nat)
      && (decimalValue s 0 <=? 255)
  end.

(** The dotted-decimal string with the four given components. *)
Definition dotted (a b c d : string) : string :=
  (a ++ "." ++ b ++ "." ++ c ++ "." ++ d)%string.

(** The mask of [n] leading one bits followed by [32 - n] zero bits. *)
Definition contiguousMask (n : Z) : Z := 2^32 - 2^(32 - n).

(** [x] with all but its leading [p] bits cleared: the network part of [x]
    at prefix length [p]. *)
Definition maskedTo (x p : Z) : Z := x / 2^(32 - p) * 2^(32 - p).

(** The last address of the block of [x] at prefix length [p]. *)
Definition blockEnd (x p : Z) : Z := maskedTo x p + 2^(32 - p) - 1.

(** Membership of the CIDR block [base/p]. *)
Definition inBlock (x base p : Z) : bool := maskedTo x p =? base.

(** The multicast sub-type decided by the first octet [n / 2^24] of a
    bitflag (and, for 238, by membership of 238.0.0.0/24), as classify.ts
    assigns it. *)
Definition multicastTypeOf (n : Z) : string :=
  let o := n / 2^24 in
  if (o <? 224) || (239 <? o) then "Not Multicast"
  else if o =? 224 then "Well-Known Multicast"
  else if o =? 225 then "Transient Multicast"
  else if (232 <=? o) && (o <=? 235) then "Source-Specific Multicast"
  else if (236 <=? o) && (o <=? 237) then "GLOP Addressing"
  else if o =? 238 then
    if inBlock n (ipv4 238 0 0 0) 24 then "Unicast-Prefix-based Multicast"
    else "Reserved"
  else if o =? 239 then "Administratively Scoped"
  else "Reserved".

(** The single category of a bitflag: the first matching tag in the order
    Private, Loopback, Link-local, Multicast, Broadcast, Documentation,
    Benchmarking, Shared Address Space, Reserved, and Public when none
    matches; Reserved is 0.0.0.0/8 and 240.0.0.0/4. *)
Definition specialTypeOf (n : Z) : string :=
  if inBlock n (ipv4 10 0 0 0) 8 || inBlock n (ipv4 172 16 0 0) 12
     || inBlock n (ipv4 192 168 0 0) 16 then "Private"
  else if inBlock n (ipv4 127 0 0 0) 8 then "Loopback"
  else if inBlock n (ipv4 169 254 0 0) 16 then "Link-local"
  else if inBlock n (ipv4 224 0 0 0) 4 then "Multicast"
  else if n =? ipv4 255 255 255 255 then "Broadcast"
  else if inBlock n (ipv4 192 0 2 0) 24 || inBlock n (ipv4 198 51 100 0) 24
          || inBlock n (ipv4 203 0 113 0) 24 then "Documentation"
  else if inBlock n (ipv4 198 18 0 0) 15 then "Benchmarking"
  else if inBlock n (ipv4 100 64 0 0) 10 then "Shared Address Space"
  else if inBlock n (ipv4 0 0 0 0) 8 || inBlock n (ipv4 240 0 0 0) 4 then "Reserved"
  else "Public".

(** The number written by a string of binary digits, most significant
    first, continuing from [acc]. *)
Fixpoint binaryValue (s : string) (acc : Z) : Z :=
  match s with
  | EmptyString => acc
  | String c r => binaryValue r (2 * acc + (if Ascii.eqb c "1"%char then 1 else 0))
  end.

Fixpoint onlyBinary (s : string) : bool :=
  match s with
  | EmptyString => true
  | String c r => (Ascii.eqb c "0"%char || Ascii.eqb c "1"%char) && onlyBinary r
  end.

End Spec.

(** * Decision procedures used by the proofs

    Boolean checks that are evaluated over a finite range. *)

Module Checks.
Import JS Spec.

Definition generateBitmask_ok (k : Z) : bool :=
  match Bitmask.generateBitmask k with
  | OK m => m =? contiguousMask k
  | Throw _ => false
  end.

Definition getMaskPrefix_ok (k : Z) : bool :=
  match Mask.getMaskPrefix (contiguousMask k) with
  | OK p => p =? k
  | Throw _ => false
  end.

Fixpoint noDot (s : string) : bool :=
  match s with
  | EmptyString => true
  | String c r => negb (Ascii.eqb c "."%char) && noDot r
  end.

Definition optZ_eqb (a b : option Z) : bool :=
  match a, b with
  | Some x, Some y => x =? y
  | None, None => true
  | _, _ => false
  end.

Definition isNone {A : Type} (o : option A) : bool :=
  match o with None => true | Some _ => false end.

(** What validation and parsing need of a component [s] denoting [o]. *)
Definition goodOctet (s : string) (o : Z) : bool :=
  noDot s
  && isNone (Parse.firstInvalidChar s)
  && isNone (Parse.checkOctet s)
  && optZ_eqb (parseInt s) (Some o)
  && optZ_eqb (Operation.toNumber s) (Some o).

Definition octetString_ok (o : Z) : bool := goodOctet (numToString o) o.

Definition digitChars : list ascii :=
  map digitChar [0; 1; 2; 3; 4; 5; 6; 7; 8; 9].

(** A canonical octet [s] is a good component, denotes a value in [0,255]
    and is the decimal rendering of that value. *)
Definition canonicalString_ok (s : string) : bool :=
  let v := decimalValue s 0 in
  implb (canonicalOctet s)
        (goodOctet s v && (0 <=? v) && (v <=? 255) && String.eqb (numToString v) s).

Definition shortStrings_ok : bool :=
  forallb (fun c1 =>
    canonicalString_ok (String c1 EmptyString)
    && forallb (fun c2 =>
         canonicalString_ok (String c1 (String c2 EmptyString))
         && forallb (fun c3 =>
              canonicalString_ok (String c1 (String c2 (String c3 EmptyString))))
            digitChars)
       digitChars)
    digitChars.

(** [isValidChar] against [VALID_IPV4_CHARS] once the shift count [j] of
    [1 << charCode] is known, and the character codes it lets through. *)
Definition validCharAt (j : Z) : bool :=
  negb (band Parse.VALID_IPV4_CHARS (toInt32 (Z.shiftl (toInt32 1) j)) =? 0).

Definition passesCharCheck (j : Z) : bool :=
  (j =? 14) || ((16 <=? j) && (j <=? 25)).

Definition validCharAt_ok (j : Z) : bool :=
  Bool.eqb (validCharAt j) (passesCharCheck j).

End Checks.

(** * Properties *)

(** ** Facts about the 32-bit conversions *)

Section JSFacts.
Import JS.

Lemma bind_OK {A B : Type} (a : A) (f : A -> result B) : bind (OK a) f = f a.
Proof. reflexivity. Qed.

Lemma toUint32_range (x : Z) : 0 <= toUint32 x < 2^32.
Proof. unfold toUint32. apply Z.mod_pos_bound. lia. Qed.

Lemma toUint32_small (x : Z) : 0 <= x < 2^32 -> toUint32 x = x.
Proof. intros H. unfold toUint32. apply Z.mod_small. exact H. Qed.

Lemma toInt32_range (x : Z) : - 2^31 <= toInt32 x < 2^31.
Proof.
  unfold toInt32. pose proof (Z.mod_pos_bound x (2^32) ltac:(lia)) as H.
  destruct (2^31 <=? x mod 2^32) eqn:E;
    [apply Z.leb_le in E | apply Z.leb_gt in E]; lia.
Qed.

Lemma toInt32_small (x : Z) : 0 <= x < 2^31 -> toInt32 x = x.
Proof.
  intros H. unfold toInt32. rewrite Z.mod_small by lia.
  destruct (2^31 <=? x) eqn:E; [apply Z.leb_le in E; lia | reflexivity].
Qed.

Lemma toInt32_high (x : Z) : 2^31 <= x < 2^32 -> toInt32 x = x - 2^32.
Proof.
  intros H. unfold toInt32. rewrite Z.mod_small by lia.
  destruct (2^31 <=? x) eqn:E; [reflexivity | apply Z.leb_gt in E; lia].
Qed.

Lemma toUint32_toInt32 (x : Z) : toUint32 (toInt32 x) = toUint32 x.
Proof.
  unfold toInt32, toUint32.
  destruct (2^31 <=? x mod 2^32).
  - replace (x mod 2^32 - 2^32) with (x mod 2^32 + (-1) * 2^32) by lia.
    rewrite Z.mod_add by lia. apply Z.mod_mod. lia.
  - apply Z.mod_mod. lia.
Qed.

Lemma ushr_zero (a : Z) : ushr a 0 = toUint32 a.
Proof. unfold ushr, shiftCount. reflexivity. Qed.

Lemma ushr_zero_range (a : Z) : 0 <= ushr a 0 <= 2^32 - 1.
Proof. rewrite ushr_zero. pose proof (toUint32_range a). lia. Qed.

(** The low 32 bits are those of the argument. *)
Lemma toUint32_testbit (x i : Z) :
  0 <= i -> Z.testbit (toUint32 x) i = (i <? 32) && Z.testbit x i.
Proof.
  intros Hi. unfold toUint32. rewrite Z.testbit_mod_pow2 by lia. reflexivity.
Qed.

Lemma toInt32_testbit (x i : Z) :
  0 <= i < 32 -> Z.testbit (toInt32 x) i = Z.testbit x i.
Proof.
  intros Hi.
  assert (H : Z.testbit (toUint32 (toInt32 x)) i = Z.testbit (toUint32 x) i)
    by (rewrite toUint32_toInt32; reflexivity).
  rewrite !toUint32_testbit in H by lia.
  destruct (i <? 32) eqn:E; [exact H | apply Z.ltb_ge in E; lia].
Qed.

(** Two integers with the same low 32 bits have the same [ToUint32]. *)
Lemma toUint32_ext (x y : Z) :
  (forall i, 0 <= i < 32 -> Z.testbit x i = Z.testbit y i) ->
  toUint32 x = toUint32 y.
Proof.
  intros H. apply Z.bits_inj'. intros i Hi.
  rewrite !toUint32_testbit by lia.
  destruct (i <? 32) eqn:E; [apply Z.ltb_lt in E; apply H; lia | reflexivity].
Qed.

End JSFacts.

(** ** The unsigned 32-bit closure of the bitflag operations *)

Section Closure.
Import JS Spec.

Lemma ushr_zero_isBitflag (a : Z) : isBitflag (ushr a 0).
Proof. unfold isBitflag. apply ushr_zero_range. Qed.

Lemma setOctet_yieldsBitflag (ip pos v : Z) : yieldsBitflag (Octet.setOctet ip pos v).
Proof.
  unfold Octet.setOctet.
  destruct ((pos <? 0) || (pos >? 3)); [exact I|].
  destruct ((v <? 0) || (v >? 255)); [exact I|].
  simpl. apply ushr_zero_isBitflag.
Qed.

Lemma createMask_yieldsBitflag (n : Z) : yieldsBitflag (Mask.createMask n).
Proof.
  unfold Mask.createMask.
  destruct ((n <? Mask.IPV4_MIN_PREFIX_LENGTH) || (n >? Mask.IPV4_MAX_PREFIX_LENGTH));
    [exact I|].
  destruct (Bitmask.generateBitmask n); simpl; [apply ushr_zero_isBitflag | exact I].
Qed.

(** C10. Every operation that produces a bitflag -- [setOctet],
    [octetsToBitflag], [createMask], [invertMaskBits], [applyMask],
    [combineMasks] (and [expandMask], [getMaskDifference]) -- returns, on every
    input on which it does not raise, an integer in [0, 2^32 - 1]: the result
    is never a negative (sign-extended) number, whatever the signed
    intermediate values of the bitwise operators. *)
Theorem bitflag_operations_closed :
  forall (ip pos v n m1 m2 : Z) (octets : list Z),
    yieldsBitflag (Octet.setOctet ip pos v)
    /\ isBitflag (Octet.octetsToBitflag octets)
    /\ yieldsBitflag (Mask.createMask n)
    /\ isBitflag (Mask.invertMaskBits m1)
    /\ isBitflag (Mask.applyMask m1 m2)
    /\ isBitflag (Mask.combineMasks m1 m2)
    /\ isBitflag (Mask.expandMask m1 m2)
    /\ isBitflag (Mask.getMaskDifference m1 m2).
Proof.
  intros. repeat split;
    first [ apply setOctet_yieldsBitflag
          | apply createMask_yieldsBitflag
          | apply ushr_zero_isBitflag
          | apply ushr_zero_range ].
Qed.

(** The intermediate values are signed: [255 << 24] is negative, and the
    bitflag of 255.0.0.0 is not. *)
Example octetsToBitflag_top_octet :
  shl 255 24 = -16777216 /\ Octet.octetsToBitflag [255; 0; 0; 0] = ipv4 255 0 0 0.
Proof. vm_compute. split; reflexivity. Qed.

End Closure.

(** ** Masks *)

Section MaskFacts.
Import JS Spec.

(** A boolean property checked on [0 .. N-1] holds of every integer there. *)
Lemma check_below (P : Z -> bool) (N : nat) :
  forallb P (map Z.of_nat (seq 0 N)) = true ->
  forall n, 0 <= n < Z.of_nat N -> P n = true.
Proof.
  intros H n Hn. rewrite forallb_forall in H. apply H.
  apply in_map_iff. exists (Z.to_nat n). split; [lia|].
  apply in_seq. lia.
Qed.

Lemma contiguousMask_range (n : Z) : 0 <= n <= 32 -> isBitflag (contiguousMask n).
Proof.
  intros Hn. unfold isBitflag, contiguousMask.
  assert (0 < 2^(32 - n)) by (apply Z.pow_pos_nonneg; lia).
  assert (2^(32 - n) <= 2^32) by (apply Z.pow_le_mono_r; lia).
  lia.
Qed.

Lemma contiguousMask_testbit (n i : Z) :
  0 <= n <= 32 -> 0 <= i ->
  Z.testbit (contiguousMask n) i = (32 - n <=? i) && (i <? 32).
Proof.
  intros Hn Hi. unfold contiguousMask.
  replace (2^32 - 2^(32 - n)) with (Z.shiftl (Z.ones n) (32 - n)).
  - rewrite Z.shiftl_spec by lia.
    destruct (32 - n <=? i) eqn:E.
    + apply Z.leb_le in E. rewrite Z.testbit_ones by lia.
      destruct (i <? 32) eqn:E2; [apply Z.ltb_lt in E2 | apply Z.ltb_ge in E2].
      * replace (0 <=? i - (32 - n)) with true by (symmetry; apply Z.leb_le; lia).
        replace (i - (32 - n) <? n) with true by (symmetry; apply Z.ltb_lt; lia).
        reflexivity.
      * replace (i - (32 - n) <? n) with false by (symmetry; apply Z.ltb_ge; lia).
        apply andb_false_r.
    + apply Z.leb_gt in E. apply Z.testbit_neg_r. lia.
  - rewrite Z.shiftl_mul_pow2 by lia. rewrite Z.ones_equiv.
    replace (2^32) with (2^(n + (32 - n))) by (f_equal; lia).
    rewrite Z.pow_add_r by lia. lia.
Qed.

Lemma maskedTo_shift (x p : Z) :
  0 <= p <= 32 -> maskedTo x p = Z.shiftl (Z.shiftr x (32 - p)) (32 - p).
Proof.
  intros Hp. unfold maskedTo.
  rewrite Z.shiftl_mul_pow2, Z.shiftr_div_pow2 by lia. reflexivity.
Qed.

Lemma maskedTo_bounds (x p : Z) :
  0 <= p <= 32 -> 0 <= x ->
  0 <= maskedTo x p <= x /\ x <= blockEnd x p.
Proof.
  intros Hp Hx. unfold blockEnd, maskedTo.
  assert (Hk : 0 < 2^(32 - p)) by (apply Z.pow_pos_nonneg; lia).
  pose proof (Z.div_mod x (2^(32 - p)) ltac:(lia)) as D.
  pose proof (Z.mod_pos_bound x (2^(32 - p)) Hk) as M.
  assert (0 <= x / 2^(32 - p)) by (apply Z.div_pos; lia).
  nia.
Qed.

(** Masking with a contiguous mask clears the host bits. *)
Lemma applyMask_contiguous (x p : Z) :
  isBitflag x -> 0 <= p <= 32 ->
  Bitmask.applyMask x (contiguousMask p) = maskedTo x p.
Proof.
  intros Hx Hp. unfold Bitmask.applyMask. rewrite ushr_zero.
  pose proof (maskedTo_bounds x p Hp ltac:(unfold isBitflag in Hx; lia)) as [B _].
  rewrite <- (toUint32_small (maskedTo x p)) by (unfold isBitflag in Hx; lia).
  apply toUint32_ext. intros i Hi.
  unfold band. rewrite Z.land_spec, !toInt32_testbit by lia.
  rewrite contiguousMask_testbit by lia.
  rewrite maskedTo_shift by lia.
  destruct (32 - p <=? i) eqn:E.
  - apply Z.leb_le in E. rewrite Z.shiftl_spec, Z.shiftr_spec by lia.
    replace (i - (32 - p) + (32 - p)) with i by lia.
    replace (i <? 32) with true by (symmetry; apply Z.ltb_lt; lia).
    apply andb_true_r.
  - apply Z.leb_gt in E. rewrite Z.shiftl_spec by lia.
    rewrite (Z.testbit_neg_r _ (i - (32 - p))) by lia.
    apply andb_false_r.
Qed.

Lemma generateBitmask_value (n : Z) :
  0 <= n <= 32 -> Bitmask.generateBitmask n = OK (contiguousMask n).
Proof.
  intros Hn.
  assert (H : Checks.generateBitmask_ok n = true).
  { apply (check_below Checks.generateBitmask_ok 33); [vm_compute; reflexivity | lia]. }
  unfold Checks.generateBitmask_ok in H.
  destruct (Bitmask.generateBitmask n); [|discriminate].
  apply Z.eqb_eq in H. congruence.
Qed.

Lemma createMask_value (n : Z) :
  0 <= n <= 32 -> Mask.createMask n = OK (contiguousMask n).
Proof.
  intros Hn. unfold Mask.createMask, Mask.IPV4_MIN_PREFIX_LENGTH, Mask.IPV4_MAX_PREFIX_LENGTH.
  replace (n <? 0) with false by (symmetry; apply Z.ltb_ge; lia).
  replace (n >? 32) with false by (symmetry; rewrite Z.gtb_ltb; apply Z.ltb_ge; lia).
  simpl. rewrite generateBitmask_value by lia. simpl.
  rewrite ushr_zero, toUint32_small; [reflexivity|].
  pose proof (contiguousMask_range n Hn) as R. unfold isBitflag in R. lia.
Qed.

Lemma createMask_throws (n : Z) :
  n < 0 \/ 32 < n -> throws (Mask.createMask n).
Proof.
  intros Hn. unfold Mask.createMask, Mask.IPV4_MIN_PREFIX_LENGTH, Mask.IPV4_MAX_PREFIX_LENGTH.
  destruct ((n <? 0) || (n >? 32)) eqn:E.
  - eexists; reflexivity.
  - apply orb_false_iff in E. destruct E as [E1 E2].
    apply Z.ltb_ge in E1. rewrite Z.gtb_ltb in E2. apply Z.ltb_ge in E2. lia.
Qed.

End MaskFacts.

(** ** Prefix length of a mask *)

Section PrefixOfMask.
Import JS Spec.

Lemma countLeadingOnes_loop_range (fuel : nat) :
  forall n c, 0 <= c <= 32 ->
    c <= Bitmask.countLeadingOnes_loop fuel n c <= 32.
Proof.
  induction fuel as [|fuel IH]; intros n c Hc; simpl; [lia|].
  destruct ((band n 2147483648 =? 0) && (c <? 32)) eqn:E; [|lia].
  apply andb_true_iff in E. destruct E as [_ E]. apply Z.ltb_lt in E.
  specialize (IH (shl n 1) (c + 1) ltac:(lia)). lia.
Qed.

(** The loop stops by its own guard: once the fuel covers the distance of
    the counter to 32, more fuel does not change the result. *)
Lemma countLeadingOnes_loop_fuel (fuel : nat) :
  forall extra n c, 0 <= c -> 32 - c <= Z.of_nat fuel ->
    Bitmask.countLeadingOnes_loop (fuel + extra) n c
    = Bitmask.countLeadingOnes_loop fuel n c.
Proof.
  induction fuel as [|fuel IH]; intros extra n c Hc Hf.
  - simpl. destruct extra as [|extra]; [reflexivity|]. simpl.
    replace (c <? 32) with false by (symmetry; apply Z.ltb_ge; lia).
    rewrite andb_false_r. reflexivity.
  - simpl. destruct ((band n 2147483648 =? 0) && (c <? 32)); [|reflexivity].
    apply IH; lia.
Qed.

Lemma countLeadingOnes_range (m : Z) : 0 <= Bitmask.countLeadingOnes m <= 32.
Proof.
  unfold Bitmask.countLeadingOnes.
  pose proof (countLeadingOnes_loop_range 32 (bnot m) 0 ltac:(lia)). lia.
Qed.

Lemma getMaskPrefix_contiguous (n : Z) :
  0 <= n <= 32 -> Mask.getMaskPrefix (contiguousMask n) = OK n.
Proof.
  intros Hn.
  assert (H : Checks.getMaskPrefix_ok n = true).
  { apply (check_below Checks.getMaskPrefix_ok 33); [vm_compute; reflexivity | lia]. }
  unfold Checks.getMaskPrefix_ok in H.
  destruct (Mask.getMaskPrefix (contiguousMask n)); [|discriminate].
  apply Z.eqb_eq in H. congruence.
Qed.

(** What [getMaskPrefix] does on a bitflag: it counts the leading ones,
    derives the mask of that prefix length again and compares. *)
Lemma getMaskPrefix_unfold (m : Z) :
  isBitflag m ->
  Mask.getMaskPrefix m =
    if m =? contiguousMask (Bitmask.countLeadingOnes m)
    then OK (Bitmask.countLeadingOnes m)
    else Throw (IPv4ValidationError "Invalid subnet mask").
Proof.
  intros Hm. unfold Mask.getMaskPrefix.
  pose proof (countLeadingOnes_range m) as Hp.
  rewrite createMask_value by exact Hp. simpl.
  pose proof (contiguousMask_range _ Hp) as Hc.
  rewrite !ushr_zero, !toUint32_small by (unfold isBitflag in *; lia).
  destruct (m =? contiguousMask (Bitmask.countLeadingOnes m)); reflexivity.
Qed.

(** C6. [createMask] and [getMaskPrefix] are mutual inverses over the
    contiguous masks: for every [n] in [0,32], [createMask n] is the mask of
    [n] leading ones and [getMaskPrefix] of it is [n]; a bitflag on which
    [getMaskPrefix] returns [n] is [createMask n]; and on every bitflag that
    is not [n] leading ones followed by [32-n] zeros for any [n] (such as
    0xFFFF00FF) [getMaskPrefix] raises the "Invalid subnet mask" validation
    error, found by deriving the mask of the counted prefix again and comparing
    it with the input. *)
Theorem createMask_getMaskPrefix_inverse :
  (forall n, 0 <= n <= 32 ->
     Mask.createMask n = OK (contiguousMask n)
     /\ Mask.getMaskPrefix (contiguousMask n) = OK n)
  /\ (forall m n, isBitflag m -> Mask.getMaskPrefix m = OK n ->
        0 <= n <= 32 /\ Mask.createMask n = OK m)
  /\ (forall m, isBitflag m ->
        (forall n, 0 <= n <= 32 -> m <> contiguousMask n) ->
        Mask.getMaskPrefix m = Throw (IPv4ValidationError "Invalid subnet mask"))
  /\ Mask.getMaskPrefix 0xFFFF00FF = Throw (IPv4ValidationError "Invalid subnet mask").
Proof.
  split; [|split; [|split]].
  - intros n Hn. split; [apply createMask_value | apply getMaskPrefix_contiguous]; exact Hn.
  - intros m n Hm H. rewrite getMaskPrefix_unfold in H by exact Hm.
    pose proof (countLeadingOnes_range m) as Hp.
    destruct (m =? contiguousMask (Bitmask.countLeadingOnes m)) eqn:E; [|discriminate].
    apply Z.eqb_eq in E. injection H as H. subst n.
    split; [exact Hp|]. rewrite createMask_value by exact Hp. congruence.
  - intros m Hm Hnot. rewrite getMaskPrefix_unfold by exact Hm.
    destruct (m =? contiguousMask (Bitmask.countLeadingOnes m)) eqn:E; [|reflexivity].
    apply Z.eqb_eq in E. exfalso.
    apply (Hnot (Bitmask.countLeadingOnes m)); [apply countLeadingOnes_range | exact E].
  - vm_compute. reflexivity.
Qed.

Lemma createMask_getMaskPrefix_inverse_witness :
  (Mask.createMask 24 = OK (contiguousMask 24)
   /\ Mask.getMaskPrefix (contiguousMask 24) = OK 24)
  /\ (0 <= 16 <= 32 /\ Mask.createMask 16 = OK 0xFFFF0000).
Proof.
  destruct createMask_getMaskPrefix_inverse as [H1 [H2 _]].
  split.
  - apply (H1 24). lia.
  - apply (H2 0xFFFF0000 16).
    + unfold isBitflag. lia.
    + vm_compute. reflexivity.
Defined.

End PrefixOfMask.

(** ** Multicast sub-classification *)

Section Multicast.
Import JS Spec.

Lemma maskedIs_value (n bits prefix : Z) :
  isBitflag n -> 0 <= bits <= 32 ->
  Classify.maskedIs n bits prefix = OK (maskedTo n bits =? prefix).
Proof.
  intros Hn Hb. unfold Classify.maskedIs.
  rewrite generateBitmask_value by exact Hb. simpl.
  rewrite applyMask_contiguous by assumption. reflexivity.
Qed.

Lemma isMulticastIP_value (n : Z) :
  isBitflag n -> Classify.isMulticastIP n = OK (maskedTo n 4 =? 0xE0000000).
Proof.
  intros Hn. unfold Classify.isMulticastIP.
  rewrite generateBitmask_value by lia. simpl.
  rewrite applyMask_contiguous by (assumption || lia). reflexivity.
Qed.

Lemma extractOctet_first (n : Z) :
  isBitflag n -> Octet.extractOctet n 0 = OK (n / 2^24).
Proof.
  intros Hn. unfold Octet.extractOctet, Bitmask.extractBits.
  change ((0 <? 0) || (0 >? 3)) with false.
  change (((3 - 0) * 8 <? 0) || ((3 - 0) * 8 + 7 >? 31)
          || ((3 - 0) * 8 >? (3 - 0) * 8 + 7)) with false.
  cbv beta iota zeta.
  change (shl (shl 1 ((3 - 0) * 8 + 7 - (3 - 0) * 8 + 1) - 1) ((3 - 0) * 8))
    with (-16777216).
  change ((3 - 0) * 8) with 24.
  f_equal.
  assert (E : band n (-16777216) = band n (contiguousMask 8)) by reflexivity.
  rewrite E. unfold ushr.
  change (shiftCount 24) with 24.
  pose proof (applyMask_contiguous n 8 Hn ltac:(lia)) as A.
  unfold Bitmask.applyMask in A. rewrite ushr_zero in A. rewrite A.
  rewrite Z.shiftr_div_pow2 by lia. unfold maskedTo.
  change (2^(32 - 8)) with (2^24).
  apply Z.div_mul. lia.
Qed.

Lemma maskedTo_4 (n : Z) : maskedTo n 4 = n / 268435456 * 268435456.
Proof. reflexivity. Qed.
Lemma maskedTo_8 (n : Z) : maskedTo n 8 = n / 16777216 * 16777216.
Proof. reflexivity. Qed.
Lemma maskedTo_10 (n : Z) : maskedTo n 10 = n / 4194304 * 4194304.
Proof. reflexivity. Qed.
Lemma maskedTo_24 (n : Z) : maskedTo n 24 = n / 256 * 256.
Proof. reflexivity. Qed.

Ltac decide_comparisons :=
  repeat match goal with
  | |- context [?a =? ?b] => destruct (Z.eqb_spec a b)
  | |- context [?a <? ?b] => destruct (Z.ltb_spec a b)
  | |- context [?a <=? ?b] => destruct (Z.leb_spec a b)
  end.

Lemma isReservedIP_multicast (n : Z) :
  isBitflag n -> maskedTo n 4 = 0xE0000000 -> Classify.isReservedIP n = OK false.
Proof.
  intros Hn Hm. unfold Classify.isReservedIP.
  rewrite !maskedIs_value by (assumption || lia).
  rewrite maskedTo_4 in Hm.
  rewrite maskedTo_4, maskedTo_8, maskedTo_10, maskedTo_24.
  unfold isBitflag in Hn.
  simpl bind.
  decide_comparisons; simpl; try reflexivity; exfalso;
    Z.div_mod_to_equations; lia.
Qed.

(** C4 (as amended). For every bitflag, [getMulticastType] returns the
    sub-type decided by the first octet: outside 224..239 'Not Multicast';
    224 Well-Known; 225 Transient; 226 through 231 Reserved; 232 through 235
    Source-Specific; 236 through 237 GLOP; 238 Unicast-Prefix-based exactly
    when the address lies in 238.0.0.0/24 and Reserved otherwise; 239
    Administratively Scoped. *)
Theorem getMulticastType_by_first_octet :
  forall n, isBitflag n ->
    Classify.getMulticastType n = OK (multicastTypeOf n).
Proof.
  intros n Hn. unfold Classify.getMulticastType.
  rewrite isMulticastIP_value by exact Hn. rewrite bind_OK.
  destruct (Z.eqb_spec (maskedTo n 4) 3758096384) as [Hm|Hm].
  - cbv [negb].
    rewrite extractOctet_first by exact Hn. rewrite bind_OK.
    rewrite isReservedIP_multicast by assumption. rewrite bind_OK.
    rewrite maskedIs_value by (assumption || lia). rewrite bind_OK.
    unfold multicastTypeOf, inBlock, ipv4. cbv zeta.
    rewrite maskedTo_4 in Hm.
    change (2^24) with 16777216.
    rewrite !Z.geb_leb.
    assert (Ho : 224 <= n / 16777216 <= 239)
      by (unfold isBitflag in Hn; Z.div_mod_to_equations; lia).
    generalize dependent (n / 16777216). intros o Ho.
    change (238 * 16777216 + 0 * 2^16 + 0 * 2^8 + 0) with 3992977408.
    generalize (maskedTo n 24 =? 3992977408). intros up.
    decide_comparisons; cbv [orb andb]; try reflexivity; try (exfalso; lia);
      destruct up; reflexivity.
  - cbv [negb].
    unfold multicastTypeOf. cbv zeta.
    rewrite maskedTo_4 in Hm.
    change (2^24) with 16777216.
    unfold isBitflag in Hn.
    destruct (Z.ltb_spec (n / 16777216) 224); cbv [orb]; [reflexivity|].
    destruct (Z.ltb_spec 239 (n / 16777216)); [reflexivity|].
    exfalso. Z.div_mod_to_equations. lia.
Qed.

Lemma getMulticastType_by_first_octet_witness :
  Classify.getMulticastType 0xE1000000 = OK (multicastTypeOf 0xE1000000).
Proof.
  apply getMulticastType_by_first_octet. unfold isBitflag. lia.
Defined.

(** C4, the claim as first stated: it puts the first octets 225 through 231
    under Transient, but 226.0.0.0 and 231.255.255.255 are Reserved. *)
Lemma getMulticastType_226_is_reserved :
  Classify.getMulticastType 0xE2000000 = OK "Reserved"%string
  /\ Classify.getMulticastType 0xE7FFFFFF = OK "Reserved"%string
  /\ 0xE2000000 / 2^24 = 226
  /\ 0xE7FFFFFF / 2^24 = 231
  /\ Classify.getMulticastType 0xE2000000 <> OK "Transient Multicast"%string.
Proof. vm_compute. repeat split; try reflexivity. discriminate. Qed.

End Multicast.

(** ** Strings: splitting, joining and the components of an address *)

Section Components.
Import JS Spec Checks.

Lemma split_noDot (s : string) : noDot s = true -> split "."%char s = [s].
Proof.
  induction s as [|c r IH]; intros H; [reflexivity|].
  cbn [noDot] in H. apply andb_true_iff in H. destruct H as [Hc Hr].
  apply negb_true_iff in Hc. cbn [split]. rewrite Hc, (IH Hr). reflexivity.
Qed.

Lemma split_app_dot (s rest : string) :
  noDot s = true ->
  split "."%char (s ++ String "."%char rest) = s :: split "."%char rest.
Proof.
  induction s as [|c r IH]; intros H.
  - reflexivity.
  - cbn [noDot] in H. apply andb_true_iff in H. destruct H as [Hc Hr].
    apply negb_true_iff in Hc. cbn [append split]. rewrite Hc, (IH Hr). reflexivity.
Qed.

Lemma firstInvalidChar_app (a b : string) :
  Parse.firstInvalidChar (a ++ b) =
    match Parse.firstInvalidChar a with
    | Some c => Some c
    | None => Parse.firstInvalidChar b
    end.
Proof.
  induction a as [|c r IH]; [reflexivity|].
  cbn [append Parse.firstInvalidChar].
  destruct (negb (Parse.isValidChar (charCode c) Parse.VALID_IPV4_CHARS));
    [reflexivity | exact IH].
Qed.

Lemma firstInvalidChar_dot (s : string) :
  Parse.firstInvalidChar (String "."%char s) = Parse.firstInvalidChar s.
Proof. reflexivity. Qed.

Lemma dotted_unfold (a b c d : string) :
  dotted a b c d
  = (a ++ String "."%char (b ++ String "."%char (c ++ String "."%char d)))%string.
Proof. reflexivity. Qed.

Lemma join_four (a b c d : string) : join "." [a; b; c; d] = dotted a b c d.
Proof. reflexivity. Qed.

Lemma goodOctet_elim (s : string) (o : Z) :
  goodOctet s o = true ->
  noDot s = true /\ Parse.firstInvalidChar s = None /\ Parse.checkOctet s = None
  /\ parseInt s = Some o /\ Operation.toNumber s = Some o.
Proof.
  unfold goodOctet. intros H.
  repeat (apply andb_true_iff in H; destruct H as [H ?]).
  repeat split; try assumption.
  - destruct (Parse.firstInvalidChar s); [discriminate | reflexivity].
  - destruct (Parse.checkOctet s); [discriminate | reflexivity].
  - destruct (parseInt s) as [v|]; [|discriminate].
    cbn [optZ_eqb] in *. f_equal. apply Z.eqb_eq. assumption.
  - destruct (Operation.toNumber s) as [v|]; [|discriminate].
    cbn [optZ_eqb] in *. f_equal. apply Z.eqb_eq. assumption.
Qed.

Section Dotted.
Variables (a b c d : string) (oa ob oc od : Z).
Hypothesis Ha : goodOctet a oa = true.
Hypothesis Hb : goodOctet b ob = true.
Hypothesis Hc : goodOctet c oc = true.
Hypothesis Hd : goodOctet d od = true.

Lemma split_dotted : split "."%char (dotted a b c d) = [a; b; c; d].
Proof.
  apply goodOctet_elim in Ha, Hb, Hc, Hd.
  rewrite dotted_unfold.
  rewrite !split_app_dot by tauto. rewrite split_noDot by tauto. reflexivity.
Qed.

Lemma validateIPv4_dotted : Parse.validateIPv4 (dotted a b c d) = Parse.valid.
Proof.
  unfold Parse.validateIPv4. rewrite split_dotted.
  apply goodOctet_elim in Ha, Hb, Hc, Hd.
  rewrite dotted_unfold.
  repeat (rewrite firstInvalidChar_app || rewrite firstInvalidChar_dot).
  destruct Ha as (_ & -> & Ca & _). destruct Hb as (_ & -> & Cb & _).
  destruct Hc as (_ & -> & Cc & _). destruct Hd as (_ & -> & Cd & _).
  cbn [List.length Parse.checkOctets]. rewrite Ca, Cb, Cc, Cd. reflexivity.
Qed.

Lemma parseIPv4_dotted :
  Parse.parseIPv4 (dotted a b c d) = OK (Octet.octetsToBitflag [oa; ob; oc; od]).
Proof.
  unfold Parse.parseIPv4. rewrite validateIPv4_dotted, split_dotted.
  apply goodOctet_elim in Ha, Hb, Hc, Hd.
  destruct Ha as (_ & _ & _ & Pa & _). destruct Hb as (_ & _ & _ & Pb & _).
  destruct Hc as (_ & _ & _ & Pc & _). destruct Hd as (_ & _ & _ & Pd & _).
  cbn [Parse.isValid Parse.valid negb map]. rewrite Pa, Pb, Pc, Pd. reflexivity.
Qed.

Lemma ipToBitflag_dotted :
  Operation.ipToBitflag (dotted a b c d) = Octet.octetsToBitflag [oa; ob; oc; od].
Proof.
  unfold Operation.ipToBitflag. rewrite split_dotted.
  apply goodOctet_elim in Ha, Hb, Hc, Hd.
  destruct Ha as (_ & _ & _ & _ & Pa). destruct Hb as (_ & _ & _ & _ & Pb).
  destruct Hc as (_ & _ & _ & _ & Pc). destruct Hd as (_ & _ & _ & _ & Pd).
  cbn [map]. rewrite Pa, Pb, Pc, Pd. reflexivity.
Qed.

End Dotted.

(** The fuel of [numToString] is enough: the digits of [n] do not change
    when more is given. *)
Lemma digitsOf_fuel (f : nat) :
  forall extra n acc, 0 <= n < 10 ^ Z.of_nat (S f) ->
    digitsOf (S f + extra) n acc = digitsOf (S f) n acc.
Proof.
  induction f as [|f IH]; intros extra n acc Hn.
  - change (10 ^ Z.of_nat 1) with 10 in Hn. cbn [Nat.add digitsOf].
    replace (n <? 10) with true by (symmetry; apply Z.ltb_lt; lia). reflexivity.
  - change (S (S f) + extra)%nat with (S (S f + extra)).
    cbn [digitsOf]. destruct (Z.ltb_spec n 10) as [L|L]; [reflexivity|].
    apply IH. split; [apply Z.div_pos; lia|].
    apply Z.div_lt_upper_bound; [lia|].
    replace (Z.of_nat (S (S f))) with (Z.of_nat (S f) + 1) in Hn by lia.
    rewrite Z.pow_add_r in Hn by lia. lia.
Qed.

Lemma numToString_fuel (n : Z) (extra : nat) :
  0 <= n ->
  digitsOf (S (Z.to_nat (Z.log2 n)) + extra) n EmptyString = numToString n.
Proof.
  intros Hn. unfold numToString.
  replace (n <? 0) with false by (symmetry; apply Z.ltb_ge; lia).
  apply digitsOf_fuel. split; [exact Hn|].
  pose proof (Z.log2_nonneg n) as L0.
  replace (Z.of_nat (S (Z.to_nat (Z.log2 n)))) with (Z.log2 n + 1) by lia.
  assert (n < 2 ^ (Z.log2 n + 1)).
  { destruct (Z.eq_dec n 0) as [->|N0]; [reflexivity|].
    pose proof (Z.log2_spec n ltac:(lia)) as S. 
    replace (Z.log2 n + 1) with (Z.succ (Z.log2 n)) by lia. lia. }
  assert (2 ^ (Z.log2 n + 1) <= 10 ^ (Z.log2 n + 1))
    by (apply Z.pow_le_mono_l; lia).
  lia.
Qed.

Lemma numToString_goodOctet (o : Z) :
  0 <= o <= 255 -> goodOctet (numToString o) o = true.
Proof.
  intros Ho. apply (check_below octetString_ok 256); [vm_compute; reflexivity | lia].
Qed.

End Components.

(** ** Octets of a bitflag *)

Section Octets.
Import JS Spec Checks.

Lemma band_255 (x : Z) : band x 255 = x mod 256.
Proof.
  unfold band. change (toInt32 255) with (Z.ones 8).
  rewrite Z.land_ones by lia. change (2^8) with 256.
  unfold toInt32. change (2^32) with 4294967296. change (2^31) with 2147483648.
  destruct (2147483648 <=? x mod 4294967296); Z.div_mod_to_equations; lia.
Qed.

Lemma bitflagToOctets_value (n : Z) :
  isBitflag n ->
  Octet.bitflagToOctets n
  = [n / 2^24 mod 256; n / 2^16 mod 256; n / 2^8 mod 256; n mod 256].
Proof.
  intros Hn. unfold Octet.bitflagToOctets. rewrite !band_255.
  unfold ushr.
  change (shiftCount 24) with 24. change (shiftCount 16) with 16.
  change (shiftCount 8) with 8.
  rewrite toUint32_small by (unfold isBitflag in Hn; lia).
  rewrite !Z.shiftr_div_pow2 by lia. reflexivity.
Qed.

Lemma lor_shiftl_add (x y k : Z) :
  0 <= k -> 0 <= y < 2^k -> Z.lor (Z.shiftl x k) y = x * 2^k + y.
Proof.
  intros Hk Hy.
  assert (D : Z.land (Z.shiftl x k) y = 0).
  { apply Z.bits_inj'. intros i Hi. rewrite Z.land_spec, Z.bits_0.
    destruct (Z.ltb_spec i k) as [L|L].
    - rewrite Z.shiftl_spec_low by lia. reflexivity.
    - rewrite <- (Z.mod_small y (2^k)) by lia.
      rewrite Z.testbit_mod_pow2 by lia.
      replace (i <? k) with false by (symmetry; apply Z.ltb_ge; lia).
      apply andb_false_r. }
  rewrite <- Z.lxor_lor by exact D.
  rewrite <- Z.add_nocarry_lxor by exact D.
  rewrite Z.shiftl_mul_pow2 by lia. reflexivity.
Qed.

Lemma ipv4_lor (a b c d : Z) :
  0 <= b <= 255 -> 0 <= c <= 255 -> 0 <= d <= 255 ->
  ipv4 a b c d
  = Z.lor (Z.lor (Z.lor (Z.shiftl a 24) (Z.shiftl b 16)) (Z.shiftl c 8)) d.
Proof.
  intros Hb Hc Hd. rewrite <- !Z.lor_assoc.
  rewrite (lor_shiftl_add c d 8) by (change (2^8) with 256; lia).
  rewrite (lor_shiftl_add b _ 16)
    by (change (2^8) with 256; change (2^16) with 65536; lia).
  rewrite (lor_shiftl_add a _ 24)
    by (change (2^8) with 256; change (2^16) with 65536;
        change (2^24) with 16777216; lia).
  unfold ipv4. lia.
Qed.

Lemma octetsToBitflag_value (a b c d : Z) :
  0 <= a <= 255 -> 0 <= b <= 255 -> 0 <= c <= 255 -> 0 <= d <= 255 ->
  Octet.octetsToBitflag [a; b; c; d] = ipv4 a b c d.
Proof.
  intros Ha Hb Hc Hd. unfold Octet.octetsToBitflag, Octet.at_. cbn [nth].
  rewrite ushr_zero.
  rewrite <- (toUint32_small (ipv4 a b c d))
    by (unfold ipv4; change (2^8) with 256; change (2^16) with 65536;
        change (2^24) with 16777216; change (2^32) with 4294967296; lia).
  apply toUint32_ext. intros i Hi.
  rewrite ipv4_lor by assumption.
  unfold bor, shl.
  change (shiftCount 24) with 24. change (shiftCount 16) with 16.
  change (shiftCount 8) with 8.
  rewrite (toInt32_small a), (toInt32_small b), (toInt32_small c)
    by (change (2^31) with 2147483648; lia).
  repeat (rewrite Z.lor_spec || rewrite toInt32_testbit by lia).
  reflexivity.
Qed.

Lemma ipv4_of_octets (n : Z) :
  isBitflag n ->
  ipv4 (n / 2^24 mod 256) (n / 2^16 mod 256) (n / 2^8 mod 256) (n mod 256) = n.
Proof.
  intros Hn. unfold isBitflag in Hn. unfold ipv4.
  change (2^24) with 16777216. change (2^16) with 65536. change (2^8) with 256.
  Z.div_mod_to_equations. lia.
Qed.

Lemma octet_bound (x : Z) : 0 <= x mod 256 <= 255.
Proof. pose proof (Z.mod_pos_bound x 256 ltac:(lia)). lia. Qed.

Lemma formatIPv4_dotted (n : Z) :
  isBitflag n ->
  Parse.formatIPv4 n
  = dotted (numToString (n / 2^24 mod 256)) (numToString (n / 2^16 mod 256))
           (numToString (n / 2^8 mod 256)) (numToString (n mod 256)).
Proof.
  intros Hn. unfold Parse.formatIPv4. rewrite bitflagToOctets_value by exact Hn.
  reflexivity.
Qed.

Lemma parseIPv4_formatIPv4 (n : Z) :
  isBitflag n -> Parse.parseIPv4 (Parse.formatIPv4 n) = OK n.
Proof.
  intros Hn. rewrite formatIPv4_dotted by exact Hn.
  rewrite (parseIPv4_dotted _ _ _ _ (n / 2^24 mod 256) (n / 2^16 mod 256)
             (n / 2^8 mod 256) (n mod 256))
    by (apply numToString_goodOctet; apply octet_bound).
  rewrite octetsToBitflag_value by apply octet_bound.
  rewrite ipv4_of_octets by exact Hn. reflexivity.
Qed.

Lemma ipToBitflag_formatIPv4 (n : Z) :
  isBitflag n -> Operation.ipToBitflag (Parse.formatIPv4 n) = n.
Proof.
  intros Hn. rewrite formatIPv4_dotted by exact Hn.
  rewrite (ipToBitflag_dotted _ _ _ _ (n / 2^24 mod 256) (n / 2^16 mod 256)
             (n / 2^8 mod 256) (n mod 256))
    by (apply numToString_goodOctet; apply octet_bound).
  rewrite octetsToBitflag_value by apply octet_bound.
  apply ipv4_of_octets. exact Hn.
Qed.

Lemma formatIPv4_injective (n m : Z) :
  isBitflag n -> isBitflag m -> Parse.formatIPv4 n = Parse.formatIPv4 m -> n = m.
Proof.
  intros Hn Hm E.
  pose proof (parseIPv4_formatIPv4 n Hn) as Pn.
  rewrite E, (parseIPv4_formatIPv4 m Hm) in Pn. congruence.
Qed.

End Octets.

(** ** Canonical octets *)

Section Canonical.
Import JS Spec Checks.

Lemma isDigit_in (c : ascii) : isDigit c = true -> In c digitChars.
Proof.
  intros H.
  destruct c as [[] [] [] [] [] [] [] []];
    vm_compute in H; try discriminate H; vm_compute; tauto.
Qed.

Lemma digitValue_range (c : ascii) : isDigit c = true -> 0 <= digitValue c <= 9.
Proof.
  unfold isDigit, digitValue. intros H. apply andb_true_iff in H.
  destruct H as [L U]. apply Z.leb_le in L, U. lia.
Qed.

Lemma digitValue_nonzero (c : ascii) :
  isDigit c = true -> Ascii.eqb c "0"%char = false -> 1 <= digitValue c.
Proof.
  intros H. apply isDigit_in in H. unfold digitChars in H. cbn [map In] in H.
  intros E.
  repeat (destruct H as [H|H]; [subst c; vm_compute in E |- *; (discriminate E || discriminate)|]).
  destruct H.
Qed.

Lemma decimalValue_ge (s : string) :
  forall acc, onlyDigits s = true -> 0 <= acc -> acc <= decimalValue s acc.
Proof.
  induction s as [|c r IH]; intros acc H Hacc; cbn [decimalValue]; [lia|].
  cbn [onlyDigits] in H. apply andb_true_iff in H. destruct H as [Hc Hr].
  pose proof (digitValue_range c Hc).
  specialize (IH (acc * 10 + digitValue c) Hr ltac:(lia)). lia.
Qed.

Lemma canonicalOctet_short (c1 c2 c3 c4 : ascii) (r : string) :
  canonicalOctet (String c1 (String c2 (String c3 (String c4 r)))) = false.
Proof.
  destruct (canonicalOctet _) eqn:E; [exfalso|reflexivity].
  unfold canonicalOctet in E.
  apply andb_true_iff in E. destruct E as [E V].
  apply andb_true_iff in E. destruct E as [D Z0].
  cbn [onlyDigits] in D.
  repeat (apply andb_true_iff in D; let H := fresh "D" in destruct D as [H D]).
  cbn [String.length] in Z0. rewrite orb_false_r in Z0. apply negb_true_iff in Z0.
  pose proof (digitValue_nonzero c1 D0 Z0).
  pose proof (digitValue_range c2 D1). pose proof (digitValue_range c3 D2).
  pose proof (digitValue_range c4 D3).
  apply Z.leb_le in V. cbn [decimalValue] in V.
  pose proof (decimalValue_ge r
    ((((0 * 10 + digitValue c1) * 10 + digitValue c2) * 10 + digitValue c3) * 10
     + digitValue c4) D ltac:(lia)).
  lia.
Qed.

Lemma shortStrings_checked : shortStrings_ok = true.
Proof. vm_compute. reflexivity. Qed.

Lemma canonicalOctet_digits (c : ascii) (r : string) :
  canonicalOctet (String c r) = true -> onlyDigits (String c r) = true.
Proof.
  unfold canonicalOctet. intros E.
  apply andb_true_iff in E. destruct E as [E _].
  apply andb_true_iff in E. destruct E as [D _]. exact D.
Qed.

Lemma canonicalString_checked (s : string) : canonicalString_ok s = true.
Proof.
  destruct (canonicalOctet s) eqn:E;
    [|unfold canonicalString_ok; rewrite E; reflexivity].
  pose proof shortStrings_checked as K. unfold shortStrings_ok in K.
  rewrite forallb_forall in K.
  destruct s as [|c1 [|c2 [|c3 [|c4 r]]]].
  - discriminate E.
  - pose proof (canonicalOctet_digits _ _ E) as D. cbn [onlyDigits] in D.
    apply andb_true_iff in D. destruct D as [D1 _].
    specialize (K c1 (isDigit_in c1 D1)).
    apply andb_true_iff in K. destruct K as [K _]. exact K.
  - pose proof (canonicalOctet_digits _ _ E) as D. cbn [onlyDigits] in D.
    apply andb_true_iff in D. destruct D as [D1 D].
    apply andb_true_iff in D. destruct D as [D2 _].
    specialize (K c1 (isDigit_in c1 D1)).
    apply andb_true_iff in K. destruct K as [_ K].
    rewrite forallb_forall in K. specialize (K c2 (isDigit_in c2 D2)).
    apply andb_true_iff in K. destruct K as [K _]. exact K.
  - pose proof (canonicalOctet_digits _ _ E) as D. cbn [onlyDigits] in D.
    apply andb_true_iff in D. destruct D as [D1 D].
    apply andb_true_iff in D. destruct D as [D2 D].
    apply andb_true_iff in D. destruct D as [D3 _].
    specialize (K c1 (isDigit_in c1 D1)).
    apply andb_true_iff in K. destruct K as [_ K].
    rewrite forallb_forall in K. specialize (K c2 (isDigit_in c2 D2)).
    apply andb_true_iff in K. destruct K as [_ K].
    rewrite forallb_forall in K. exact (K c3 (isDigit_in c3 D3)).
  - rewrite canonicalOctet_short in E. discriminate E.
Qed.

Lemma canonicalOctet_elim (s : string) :
  canonicalOctet s = true ->
  goodOctet s (decimalValue s 0) = true
  /\ 0 <= decimalValue s 0 <= 255
  /\ numToString (decimalValue s 0) = s.
Proof.
  intros E. pose proof (canonicalString_checked s) as K.
  unfold canonicalString_ok in K. rewrite E in K. cbn [implb] in K.
  cbv zeta in K.
  apply andb_true_iff in K. destruct K as [K S].
  apply andb_true_iff in K. destruct K as [K U].
  apply andb_true_iff in K. destruct K as [G L].
  apply Z.leb_le in L, U. apply String.eqb_eq in S. auto.
Qed.

End Canonical.

(** ** Parsing and formatting are inverse to each other *)

Section RoundTrip.
Import JS Spec Checks.

Lemma octets_of_ipv4 (a b c d : Z) :
  0 <= a <= 255 -> 0 <= b <= 255 -> 0 <= c <= 255 -> 0 <= d <= 255 ->
  isBitflag (ipv4 a b c d)
  /\ ipv4 a b c d / 2^24 mod 256 = a
  /\ ipv4 a b c d / 2^16 mod 256 = b
  /\ ipv4 a b c d / 2^8 mod 256 = c
  /\ ipv4 a b c d mod 256 = d.
Proof.
  intros Ha Hb Hc Hd. unfold isBitflag, ipv4.
  change (2^24) with 16777216. change (2^16) with 65536. change (2^8) with 256.
  change (2^32) with 4294967296.
  repeat split; try lia; Z.div_mod_to_equations; lia.
Qed.

(** C1. Parser/formatter round trip.  For every canonical dotted-decimal
    string (four components, each a run of digits without a leading zero other
    than the single digit 0, of value at most 255), [parseIPv4] returns the
    bitflag of its four values and [formatIPv4] of that bitflag is the string
    again; and for every integer [n] in [0, 2^32 - 1],
    [parseIPv4 (formatIPv4 n)] returns [n].  Neither call raises. *)
Theorem parse_format_roundtrip :
  (forall a b c d : string,
     canonicalOctet a = true -> canonicalOctet b = true ->
     canonicalOctet c = true -> canonicalOctet d = true ->
     let n := ipv4 (decimalValue a 0) (decimalValue b 0)
                   (decimalValue c 0) (decimalValue d 0) in
     isBitflag n
     /\ Parse.parseIPv4 (dotted a b c d) = OK n
     /\ Parse.formatIPv4 n = dotted a b c d)
  /\ (forall n : Z, isBitflag n -> Parse.parseIPv4 (Parse.formatIPv4 n) = OK n).
Proof.
  split; [|exact parseIPv4_formatIPv4].
  intros a b c d Ca Cb Cc Cd n.
  apply canonicalOctet_elim in Ca, Cb, Cc, Cd.
  destruct Ca as (Ga & Ra & Sa). destruct Cb as (Gb & Rb & Sb).
  destruct Cc as (Gc & Rc & Sc). destruct Cd as (Gd & Rd & Sd).
  pose proof (octets_of_ipv4 _ _ _ _ Ra Rb Rc Rd) as (Hn & O1 & O2 & O3 & O4).
  fold n in Hn, O1, O2, O3, O4.
  split; [exact Hn|]. split.
  - rewrite (parseIPv4_dotted _ _ _ _ _ _ _ _ Ga Gb Gc Gd).
    rewrite octetsToBitflag_value by assumption. reflexivity.
  - rewrite formatIPv4_dotted by exact Hn.
    rewrite O1, O2, O3, O4, Sa, Sb, Sc, Sd. reflexivity.
Qed.

Lemma parse_format_roundtrip_witness :
  (Parse.parseIPv4 "192.168.1.1" = OK 0xC0A80101
   /\ Parse.formatIPv4 0xC0A80101 = "192.168.1.1"%string)
  /\ Parse.parseIPv4 (Parse.formatIPv4 0xFFFFFFFF) = OK 0xFFFFFFFF.
Proof.
  destruct parse_format_roundtrip as [H1 H2]. split.
  - destruct (H1 "192"%string "168"%string "1"%string "1"%string
                eq_refl eq_refl eq_refl eq_refl) as (_ & P & F).
    split; [exact P | exact F].
  - apply H2. unfold isBitflag. lia.
Defined.

End RoundTrip.

(** ** Blocks: network address, broadcast address, containment *)

Section Blocks.
Import JS Spec Checks.

Lemma blockEnd_range (x p : Z) :
  isBitflag x -> 0 <= p <= 32 -> isBitflag (blockEnd x p) /\ isBitflag (maskedTo x p).
Proof.
  intros Hx Hp. unfold isBitflag in *.
  pose proof (maskedTo_bounds x p Hp ltac:(lia)) as [B1 B2].
  split; [|lia]. split; [lia|].
  unfold blockEnd, maskedTo in *.
  assert (Hk : 0 < 2^(32 - p)) by (apply Z.pow_pos_nonneg; lia).
  assert (E : 2^32 = 2^p * 2^(32 - p)).
  { rewrite <- Z.pow_add_r by lia. f_equal. lia. }
  assert (Q : x / 2^(32 - p) < 2^p).
  { apply Z.div_lt_upper_bound; [exact Hk|]. lia. }
  nia.
Qed.

(** Blocks of one address at two prefix lengths are nested. *)
Lemma blocks_nested (x p q : Z) :
  0 <= x -> 0 <= q <= p -> p <= 32 ->
  maskedTo x q <= maskedTo x p /\ blockEnd x p <= blockEnd x q.
Proof.
  intros Hx Hq Hp. unfold blockEnd, maskedTo.
  set (u := 2^(32 - p)). set (t := 2^(p - q)).
  assert (Hu : 0 < u) by (apply Z.pow_pos_nonneg; lia).
  assert (Ht : 0 < t) by (apply Z.pow_pos_nonneg; lia).
  assert (E : 2^(32 - q) = u * t).
  { unfold u, t. rewrite <- Z.pow_add_r by lia. f_equal. lia. }
  rewrite E. rewrite <- Z.div_div by lia.
  set (k := x / u).
  pose proof (Z.div_mod k t ltac:(lia)) as D.
  pose proof (Z.mod_pos_bound k t Ht) as M.
  nia.
Qed.

Lemma networkBitflag_value (x p : Z) :
  isBitflag x -> 0 <= p <= 32 ->
  ushr (Bitmask.applyMask x (contiguousMask p)) 0 = maskedTo x p.
Proof.
  intros Hx Hp. rewrite applyMask_contiguous by assumption.
  rewrite ushr_zero. apply toUint32_small.
  pose proof (blockEnd_range x p Hx Hp) as [_ R]. unfold isBitflag in R. lia.
Qed.

Lemma blockEnd_lor (x p : Z) :
  0 <= p <= 32 ->
  blockEnd x p = Z.lor (Z.shiftl (Z.shiftr x (32 - p)) (32 - p)) (Z.ones (32 - p)).
Proof.
  intros Hp. rewrite lor_shiftl_add.
  - unfold blockEnd, maskedTo. rewrite Z.shiftr_div_pow2 by lia.
    rewrite Z.ones_equiv. lia.
  - lia.
  - rewrite Z.ones_equiv.
    assert (0 < 2^(32 - p)) by (apply Z.pow_pos_nonneg; lia). lia.
Qed.

Lemma broadcastBitflag_value (x p : Z) :
  isBitflag x -> 0 <= p <= 32 ->
  ushr (Basic.or x (ushr (Basic.not (contiguousMask p)) 0)) 0 = blockEnd x p.
Proof.
  intros Hx Hp. rewrite !ushr_zero.
  pose proof (blockEnd_range x p Hx Hp) as [R _].
  rewrite <- (toUint32_small (blockEnd x p)) by (unfold isBitflag in R; lia).
  apply toUint32_ext. intros i Hi.
  unfold Basic.or, Basic.not, bor, bnot. rewrite ushr_zero.
  rewrite Z.lor_spec, !toInt32_testbit by lia.
  rewrite !toUint32_testbit by lia.
  rewrite Z.lnot_spec by lia. rewrite toInt32_testbit by lia.
  rewrite contiguousMask_testbit by lia.
  rewrite blockEnd_lor by lia.
  rewrite Z.lor_spec, Z.testbit_ones by lia.
  replace (i <? 32) with true by (symmetry; apply Z.ltb_lt; lia).
  replace (0 <=? i) with true by (symmetry; apply Z.leb_le; lia).
  cbn [andb].
  destruct (Z.leb_spec (32 - p) i) as [L|L].
  - rewrite Z.shiftl_spec, Z.shiftr_spec by lia.
    replace (i - (32 - p) + (32 - p)) with i by lia.
    replace (i <? 32 - p) with false by (symmetry; apply Z.ltb_ge; lia).
    cbn [andb negb]. reflexivity.
  - replace (i <? 32 - p) with true by (symmetry; apply Z.ltb_lt; lia).
    cbn [andb negb]. rewrite !orb_true_r. reflexivity.
Qed.

Lemma calculateNetworkAddress_value (x p : Z) :
  isBitflag x -> 0 <= p <= 32 ->
  Cidr.calculateNetworkAddress (Parse.formatIPv4 x) p
  = OK (Parse.formatIPv4 (maskedTo x p)).
Proof.
  intros Hx Hp. unfold Cidr.calculateNetworkAddress, Cidr.createSubnetMask.
  rewrite parseIPv4_formatIPv4 by exact Hx. rewrite bind_OK.
  rewrite createMask_value by exact Hp. rewrite bind_OK.
  rewrite networkBitflag_value by assumption. reflexivity.
Qed.

Lemma calculateBroadcastAddress_value (x p : Z) :
  isBitflag x -> 0 <= p <= 32 ->
  Cidr.calculateBroadcastAddress (Parse.formatIPv4 x) p
  = OK (Parse.formatIPv4 (blockEnd x p)).
Proof.
  intros Hx Hp. unfold Cidr.calculateBroadcastAddress, Cidr.createSubnetMask.
  rewrite parseIPv4_formatIPv4 by exact Hx. rewrite bind_OK.
  rewrite createMask_value by exact Hp. rewrite bind_OK.
  rewrite broadcastBitflag_value by assumption. reflexivity.
Qed.

Lemma isSubnetOf_value (a b pA pB : Z) :
  isBitflag a -> isBitflag b -> 0 <= pB <= 32 ->
  Cidr.isSubnetOf (Parse.formatIPv4 a) pA (Parse.formatIPv4 b) pB
  = OK ((pB <? pA) && (maskedTo a pB =? maskedTo b pB)).
Proof.
  intros Ha Hb Hp. unfold Cidr.isSubnetOf, Cidr.createSubnetMask.
  destruct (Z.leb_spec pA pB) as [L|L].
  - replace (pB <? pA) with false by (symmetry; apply Z.ltb_ge; lia). reflexivity.
  - replace (pB <? pA) with true by (symmetry; apply Z.ltb_lt; lia).
    rewrite !parseIPv4_formatIPv4 by assumption. rewrite !bind_OK.
    rewrite createMask_value by exact Hp. rewrite bind_OK.
    rewrite !applyMask_contiguous by assumption. reflexivity.
Qed.

(** C8. For validated addresses [A], [B] and prefix lengths in [0,32],
    [isSubnetOf A pA B pB] is true exactly when [pA > pB] (strictly: a block
    is never a subnet of a block of the same prefix length, itself included)
    and [A] and [B] agree on their leading [pB] bits; and whenever it is true,
    every address from [A]'s network address through [A]'s broadcast address
    (as [calculateNetworkAddress] and [calculateBroadcastAddress] give them)
    lies between [B]'s network address and [B]'s broadcast address. *)
Theorem isSubnetOf_iff_and_contained :
  forall a b pA pB : Z,
    isBitflag a -> isBitflag b -> 0 <= pA <= 32 -> 0 <= pB <= 32 ->
    let A := Parse.formatIPv4 a in
    let B := Parse.formatIPv4 b in
    (Cidr.isSubnetOf A pA B pB = OK true
     \/ Cidr.isSubnetOf A pA B pB = OK false)
    /\ (Cidr.isSubnetOf A pA B pB = OK true
        <-> pA > pB /\ maskedTo a pB = maskedTo b pB)
    /\ Cidr.isSubnetOf A pA B pA = OK false
    /\ (Cidr.isSubnetOf A pA B pB = OK true ->
        Cidr.calculateNetworkAddress A pA = OK (Parse.formatIPv4 (maskedTo a pA))
        /\ Cidr.calculateBroadcastAddress A pA = OK (Parse.formatIPv4 (blockEnd a pA))
        /\ Cidr.calculateNetworkAddress B pB = OK (Parse.formatIPv4 (maskedTo b pB))
        /\ Cidr.calculateBroadcastAddress B pB = OK (Parse.formatIPv4 (blockEnd b pB))
        /\ forall x, maskedTo a pA <= x <= blockEnd a pA ->
                     maskedTo b pB <= x <= blockEnd b pB).
Proof.
  intros a b pA pB Ha Hb HpA HpB A B. subst A B.
  rewrite (isSubnetOf_value a b pA pB) by assumption.
  rewrite (isSubnetOf_value a b pA pA) by assumption.
  assert (Iff : OK ((pB <? pA) && (maskedTo a pB =? maskedTo b pB)) = OK true
                <-> pA > pB /\ maskedTo a pB = maskedTo b pB).
  { split.
    - intros H. injection H as H. apply andb_true_iff in H. destruct H as [H1 H2].
      apply Z.ltb_lt in H1. apply Z.eqb_eq in H2. split; [lia | exact H2].
    - intros [H1 H2]. f_equal. apply andb_true_iff. split.
      + apply Z.ltb_lt. lia.
      + apply Z.eqb_eq. exact H2. }
  split; [|split; [exact Iff|split]].
  - destruct ((pB <? pA) && (maskedTo a pB =? maskedTo b pB)); auto.
  - rewrite Z.ltb_irrefl. reflexivity.
  - intros H. apply Iff in H. destruct H as [Hlt Heq].
    rewrite !calculateNetworkAddress_value, !calculateBroadcastAddress_value
      by assumption.
    repeat (split; [reflexivity|]).
    intros x Hx.
    pose proof (blocks_nested a pA pB ltac:(unfold isBitflag in Ha; lia)
                  ltac:(lia) ltac:(lia)) as [N1 N2].
    assert (blockEnd a pB = blockEnd b pB) by (unfold blockEnd; rewrite Heq; reflexivity).
    lia.
Qed.

Lemma isSubnetOf_iff_and_contained_witness :
  Cidr.isSubnetOf "192.168.1.0" 24 "192.168.0.0" 16 = OK true
  /\ Cidr.isSubnetOf "192.168.1.0" 24 "192.168.0.0" 24 = OK false.
Proof.
  pose proof (isSubnetOf_iff_and_contained 0xC0A80100 0xC0A80000 24 16
                ltac:(unfold isBitflag; lia) ltac:(unfold isBitflag; lia)
                ltac:(lia) ltac:(lia)) as (_ & I & S & _).
  split.
  - apply I. split; [lia | reflexivity].
  - exact S.
Defined.

End Blocks.

(** ** Splitting a subnet *)

Section Split.
Import JS Spec Checks.









End Split.

(** ** The single-category classifier *)

Section SpecialType.
Import JS Spec Checks.

Lemma inBlock_range (n base p : Z) :
  0 <= p <= 32 -> 0 <= n -> maskedTo base p = base ->
  inBlock n base p = (base <=? n) && (n <=? base + 2^(32 - p) - 1).
Proof.
  intros Hp Hn Hb. unfold inBlock.
  pose proof (maskedTo_bounds n p Hp Hn) as [[B0 B1] B2].
  unfold blockEnd in B2.
  assert (Hu : 0 < 2^(32 - p)) by (apply Z.pow_pos_nonneg; lia).
  destruct (Z.eqb_spec (maskedTo n p) base) as [E|E].
  - symmetry. apply andb_true_iff. split; [apply Z.leb_le | apply Z.leb_le]; lia.
  - symmetry. apply andb_false_iff.
    destruct (Z.leb_spec base n) as [L|L]; [|left; reflexivity].
    right. apply Z.leb_gt.
    destruct (Z.lt_ge_cases (base + 2^(32 - p) - 1) n) as [G|G]; [exact G|].
    exfalso. apply E. unfold maskedTo in *.
    assert (Q : base / 2^(32 - p) = n / 2^(32 - p)).
    { apply (Z.div_unique n (2^(32 - p)) (base / 2^(32 - p)) (n - base)); lia. }
    rewrite <- Q. exact Hb.
Qed.

Lemma inRange_value (n : Z) (s e : string) :
  isBitflag n ->
  Special.inRange (Parse.formatIPv4 n) (s, e)
  = (Operation.ipToBitflag s <=? n) && (n <=? Operation.ipToBitflag e).
Proof.
  intros Hn. unfold Special.inRange, Operation.isIPInRange. cbn [fst snd].
  rewrite ipToBitflag_formatIPv4 by exact Hn. rewrite Z.geb_leb. reflexivity.
Qed.

Lemma isBroadcastIP_value (n : Z) :
  isBitflag n -> Special.isBroadcastIP (Parse.formatIPv4 n) = (n =? 4294967295).
Proof.
  intros Hn. unfold Special.isBroadcastIP.
  destruct (String.eqb_spec (Parse.formatIPv4 n) Special.BROADCAST_IP) as [E|E].
  - symmetry. apply Z.eqb_eq.
    apply formatIPv4_injective; [exact Hn | unfold isBitflag; lia | exact E].
  - symmetry. apply Z.eqb_neq. intros ->. apply E. reflexivity.
Qed.

Ltac evaluate_bounds :=
  repeat match goal with
  | |- context [Operation.ipToBitflag ?s] =>
      let v := eval vm_compute in (Operation.ipToBitflag s) in
      change (Operation.ipToBitflag s) with v
  end.

Ltac blocks_to_ranges n :=
  repeat match goal with
  | |- context [inBlock n ?b ?p] =>
      let lo := eval vm_compute in b in
      let hi := eval vm_compute in (b + 2^(32 - p) - 1) in
      replace (inBlock n b p) with ((lo <=? n) && (n <=? hi))
        by (symmetry; apply (inBlock_range n b p);
            [lia | unfold isBitflag in *; lia | vm_compute; reflexivity])
  end.

Ltac first_match :=
  repeat match goal with
  | |- (if ?c then _ else _) = _ => destruct c eqn:?
  | |- _ = (if ?c then _ else _) => destruct c eqn:?
  end.

Lemma getSpecialIPType_value (n : Z) :
  isBitflag n -> Special.getSpecialIPType (Parse.formatIPv4 n) = specialTypeOf n.
Proof.
  intros Hn.
  unfold Special.getSpecialIPType, Special.isPrivateIP, Special.isLoopbackIP,
    Special.isLinkLocalIP, Special.isMulticastIP, Special.isBenchmarkingIP,
    Special.isSharedAddressSpaceIP, Special.isDocumentationIP, Special.isReservedIP,
    Special.PRIVATE_RANGES, Special.LOOPBACK_RANGE, Special.LINK_LOCAL_RANGE,
    Special.MULTICAST_RANGE, Special.BENCHMARKING_RANGE,
    Special.SHARED_ADDRESS_SPACE_RANGE, Special.DOCUMENTATION_RANGES,
    Special.RESERVED_RANGES.
  cbn [existsb].
  rewrite !inRange_value by exact Hn.
  rewrite isBroadcastIP_value by exact Hn.
  evaluate_bounds.
  unfold specialTypeOf.
  blocks_to_ranges n.
  change (ipv4 255 255 255 255) with 4294967295.
  unfold isBitflag in Hn. change (2^32) with 4294967296 in Hn.
  first_match; try reflexivity; exfalso; lia.
Qed.

(** C3 (as amended). On every validated address [getSpecialIPType] returns
    the first matching tag in the order Private, Loopback, Link-local,
    Multicast, Broadcast, Documentation, Benchmarking, Shared Address Space,
    Reserved, and 'Public' only when none matches, where Reserved is 0.0.0.0/8
    and 240.0.0.0/4.  (The source tests Benchmarking and Shared Address Space
    before Documentation; the three ranges are disjoint, so the order among
    them cannot be observed.)  In particular every address of 0.0.0.0/8 and
    every address of 240.0.0.0/4 but the broadcast address is Reserved, the
    documentation addresses (192.0.2.0/24, 198.51.100.0/24, 203.0.113.0/24)
    are Documentation, and the addresses of 192.0.0.0/24 are Public. *)
Theorem getSpecialIPType_precedence :
  forall n : Z, isBitflag n ->
    let ip := Parse.formatIPv4 n in
    Special.getSpecialIPType ip = specialTypeOf n
    /\ (inBlock n (ipv4 0 0 0 0) 8 = true ->
        Special.getSpecialIPType ip = "Reserved"%string)
    /\ (inBlock n (ipv4 240 0 0 0) 4 = true -> n <> ipv4 255 255 255 255 ->
        Special.getSpecialIPType ip = "Reserved"%string)
    /\ (inBlock n (ipv4 192 0 2 0) 24 = true
        \/ inBlock n (ipv4 198 51 100 0) 24 = true
        \/ inBlock n (ipv4 203 0 113 0) 24 = true ->
        Special.getSpecialIPType ip = "Documentation"%string)
    /\ (inBlock n (ipv4 192 0 0 0) 24 = true ->
        Special.getSpecialIPType ip = "Public"%string).
Proof.
  intros n Hn ip. subst ip.
  rewrite (getSpecialIPType_value n Hn).
  split; [reflexivity|].
  unfold specialTypeOf.
  blocks_to_ranges n.
  change (ipv4 255 255 255 255) with 4294967295.
  unfold isBitflag in Hn. change (2^32) with 4294967296 in Hn.
  repeat split; intros; first_match; try reflexivity; exfalso; lia.
Qed.

Lemma getSpecialIPType_precedence_witness :
  Special.getSpecialIPType "240.0.0.1" = "Reserved"%string
  /\ Special.getSpecialIPType "192.0.2.1" = "Documentation"%string.
Proof.
  split.
  - apply (getSpecialIPType_precedence (ipv4 240 0 0 1)).
    + unfold isBitflag. vm_compute. split; discriminate.
    + reflexivity.
    + vm_compute. discriminate.
  - apply (getSpecialIPType_precedence (ipv4 192 0 2 1)).
    + unfold isBitflag. vm_compute. split; discriminate.
    + left. reflexivity.
Defined.

(** C3, the claim as first stated: it counts 192.0.0.0/24 among the Reserved
    ranges, but 192.0.0.1, which matches no earlier category, is Public. *)
Lemma getSpecialIPType_192_0_0_1_is_public :
  Special.getSpecialIPType "192.0.0.1" = "Public"%string
  /\ Parse.parseIPv4 "192.0.0.1" = OK (ipv4 192 0 0 1)
  /\ inBlock (ipv4 192 0 0 1) (ipv4 192 0 0 0) 24 = true
  /\ Special.getSpecialIPType "192.0.0.1" <> "Reserved"%string.
Proof. vm_compute. repeat split; try reflexivity. discriminate. Qed.

End SpecialType.

(** ** Where the sources depart from their documentation and tests *)

Section Departures.
Import JS Spec Checks.
Local Open Scope string_scope.
Local Open Scope Z_scope.

Lemma shiftCount_mod (k : Z) : shiftCount k = k mod 32.
Proof.
  unfold shiftCount, toUint32. change (2^32) with 4294967296.
  Z.div_mod_to_equations. lia.
Qed.

Lemma isValidChar_mod32 (k : Z) :
  Parse.isValidChar k Parse.VALID_IPV4_CHARS = passesCharCheck (k mod 32).
Proof.
  assert (E : Parse.isValidChar k Parse.VALID_IPV4_CHARS = validCharAt (k mod 32)).
  { unfold Parse.isValidChar, validCharAt, shl. rewrite shiftCount_mod. reflexivity. }
  rewrite E.
  pose proof (Z.mod_pos_bound k 32 ltac:(lia)) as B.
  apply Bool.eqb_prop.
  apply (check_below validCharAt_ok 32); [vm_compute; reflexivity | lia].
Qed.

(** Inside the address space both functions return the address at the
    offset. *)
Lemma incrementIP_in_range (n amount : Z) :
  isBitflag n -> isBitflag (n + amount) ->
  Operation.incrementIP (Parse.formatIPv4 n) amount
  = OK (Parse.formatIPv4 (n + amount)).
Proof.
  intros Hn Hs. unfold Operation.incrementIP. cbv zeta.
  rewrite ipToBitflag_formatIPv4 by exact Hn.
  rewrite ushr_zero, toUint32_small by (unfold isBitflag in Hs; lia).
  unfold isBitflag in Hs. change (2^32 - 1) with 4294967295 in Hs.
  replace (n + amount >? 4294967295) with false
    by (symmetry; rewrite Z.gtb_ltb; apply Z.ltb_ge; lia).
  reflexivity.
Qed.

Lemma decrementIP_in_range (n amount : Z) :
  isBitflag n -> isBitflag (n - amount) ->
  Operation.decrementIP (Parse.formatIPv4 n) amount
  = OK (Parse.formatIPv4 (n - amount)).
Proof.
  intros Hn Hs. unfold Operation.decrementIP. cbv zeta.
  rewrite ipToBitflag_formatIPv4 by exact Hn.
  rewrite ushr_zero, toUint32_small by (unfold isBitflag in Hs; lia).
  unfold isBitflag in Hs.
  replace (n <? amount) with false by (symmetry; apply Z.ltb_ge; lia).
  reflexivity.
Qed.

(** C2. [incrementIP] and [decrementIP] at the limits of the address space.
    The claim (with the doc comments and tests of the sources) says that an
    offset leading outside [0, 2^32 - 1] raises a range error.  [incrementIP]
    reduces the sum modulo 2^32 before its bounds test, so it never raises,
    for any address and any amount: incrementing 255.255.255.255 by 1 returns
    0.0.0.0 and incrementing 0.0.0.0 by -1 returns 255.255.255.255; and
    [decrementIP] only compares the address with the amount, so decrementing
    255.255.255.255 by -1 returns 0.0.0.0.  ([decrementIP] of 0.0.0.0 by 1
    does raise.) *)
Theorem incrementIP_wraps_around :
  (forall (ip : string) (amount : Z),
     exists s, Operation.incrementIP ip amount = OK s)
  /\ Operation.incrementIP "255.255.255.255" 1 = OK "0.0.0.0"
  /\ Operation.incrementIP "0.0.0.0" (-1) = OK "255.255.255.255"
  /\ Operation.decrementIP "255.255.255.255" (-1) = OK "0.0.0.0"
  /\ Operation.decrementIP "0.0.0.0" 1
     = Throw (IPv4ArithmeticError
                "Decrement operation results in an invalid IPv4 address").
Proof.
  split.
  - intros ip amount. unfold Operation.incrementIP. cbv zeta.
    pose proof (ushr_zero_range (Operation.ipToBitflag ip + amount)) as R.
    change (2^32 - 1) with 4294967295 in R.
    replace (ushr (Operation.ipToBitflag ip + amount) 0 >? 4294967295) with false
      by (symmetry; rewrite Z.gtb_ltb; apply Z.ltb_ge; lia).
    eexists. reflexivity.
  - vm_compute. repeat split; reflexivity.
Qed.

(** C5. The character check of [validateIPv4].  The claim (with the doc
    comment of [VALID_IPV4_CHARS], "valid IPv4 characters (0-9 and .)") says
    that any character other than a digit or '.' is reported as an invalid
    character before any other check.  [isValidChar] tests bit
    [1 << charCode], whose shift count is taken modulo 32, so it lets through
    every character whose code is 14 or 16..25 modulo 32, such as 'P' (80):
    "1.2.3.4P" is accepted as valid and "1.2.3.P" fails as an invalid octet.
    An 'A' is reported as an invalid character, and "1..2.3" fails as an
    invalid octet, not as a wrong octet count, as the claim says. *)
Theorem validateIPv4_character_check :
  (forall k : Z,
     Parse.isValidChar k Parse.VALID_IPV4_CHARS
     = ((k mod 32 =? 14) || ((16 <=? k mod 32) && (k mod 32 <=? 25))))
  /\ charCode "P" = 80
  /\ Parse.validateIPv4 "1.2.3.4P" = Parse.valid
  /\ Parse.parseIPv4 "1.2.3.4P" = OK (ipv4 1 2 3 4)
  /\ Parse.validateIPv4 "1.2.3.P" = Parse.invalid "Invalid octet: P"
  /\ Parse.validateIPv4 "1.2.3.A" = Parse.invalid "Invalid character in IP address: A"
  /\ Parse.validateIPv4 "1..2.3" = Parse.invalid "Invalid octet: ".
Proof.
  split; [exact isValidChar_mod32|].
  vm_compute. repeat split; reflexivity.
Qed.

(** C9. [octetsToBitflag] on ill-formed input.  The claim (with the tests of
    the sources, which expect a throw) says that it raises for an octet
    outside [0,255] and for an array that does not have exactly 4 components.
    The function has no check at all and returns a number on every input: an
    octet 256 in the last place gives 256, in the first place it is shifted
    out and gives 0, a negative octet gives a large bitflag, a missing fourth
    component is read as 0 and a fifth component is ignored. *)
Theorem octetsToBitflag_unchecked :
  Octet.octetsToBitflag [0; 0; 0; 256] = 256
  /\ Octet.octetsToBitflag [256; 0; 0; 0] = 0
  /\ Octet.octetsToBitflag [-1; 0; 0; 0] = ipv4 255 0 0 0
  /\ Octet.octetsToBitflag [192; 168; 1] = ipv4 192 168 1 0
  /\ Octet.octetsToBitflag [192; 168; 1; 1; 0] = ipv4 192 168 1 1.
Proof. vm_compute. repeat split; reflexivity. Qed.

End Departures.

(** * Further properties of the sources *)

(** ** Blocks and their address ranges *)

Section MoreBlocks.
Import JS Spec Checks.

Lemma maskedTo_idempotent (x p : Z) :
  0 <= p <= 32 -> maskedTo (maskedTo x p) p = maskedTo x p.
Proof.
  intros Hp. unfold maskedTo.
  assert (0 < 2^(32 - p)) by (apply Z.pow_pos_nonneg; lia).
  rewrite Z.div_mul by lia. reflexivity.
Qed.

Lemma maskedTo_aligned (x p : Z) :
  0 <= p <= 32 -> maskedTo x p mod 2^(32 - p) = 0.
Proof.
  intros Hp. unfold maskedTo. apply Z.mod_mul.
  assert (0 < 2^(32 - p)) by (apply Z.pow_pos_nonneg; lia). lia.
Qed.

(** X1. For a validated address and a prefix length [p] in [0,32],
    [getIPRange] returns the network address and the broadcast address of the
    block of the address: the address lies between them, the network address
    is a multiple of the block size [2^(32-p)], the range holds exactly
    [2^(32-p)] addresses, and taking the network (or broadcast) address of
    either end gives the same range again. *)
Theorem getIPRange_is_the_block :
  forall n p : Z, isBitflag n -> 0 <= p <= 32 ->
    let lo := maskedTo n p in
    let hi := blockEnd n p in
    Cidr.getIPRange (Parse.formatIPv4 n) p
    = OK (Parse.formatIPv4 lo, Parse.formatIPv4 hi)
    /\ isBitflag lo /\ isBitflag hi
    /\ lo <= n <= hi
    /\ lo mod 2^(32 - p) = 0
    /\ hi - lo + 1 = 2^(32 - p)
    /\ Cidr.getIPRange (Parse.formatIPv4 lo) p
       = OK (Parse.formatIPv4 lo, Parse.formatIPv4 hi)
    /\ Cidr.getIPRange (Parse.formatIPv4 hi) p
       = OK (Parse.formatIPv4 lo, Parse.formatIPv4 hi).
Proof.
  intros n p Hn Hp lo hi.
  pose proof (blockEnd_range n p Hn Hp) as [Rhi Rlo]. fold lo in Rlo. fold hi in Rhi.
  pose proof (maskedTo_bounds n p Hp ltac:(unfold isBitflag in Hn; lia)) as [B1 B2].
  fold lo in B1. fold hi in B2.
  assert (Range : forall x, isBitflag x ->
            Cidr.getIPRange (Parse.formatIPv4 x) p
            = OK (Parse.formatIPv4 (maskedTo x p), Parse.formatIPv4 (blockEnd x p))).
  { intros x Hx. unfold Cidr.getIPRange.
    rewrite calculateNetworkAddress_value, calculateBroadcastAddress_value by assumption.
    reflexivity. }
  assert (Elo : maskedTo lo p = lo) by (apply maskedTo_idempotent; exact Hp).
  assert (Ehi : maskedTo hi p = lo).
  { unfold hi, blockEnd, lo, maskedTo.
    assert (Hu : 0 < 2^(32 - p)) by (apply Z.pow_pos_nonneg; lia).
    f_equal.
    symmetry. apply (Z.div_unique _ _ _ (2^(32 - p) - 1)); lia. }
  split; [apply Range; exact Hn|].
  split; [exact Rlo|]. split; [exact Rhi|]. split; [lia|].
  split; [apply maskedTo_aligned; exact Hp|].
  split; [unfold hi, blockEnd; fold lo; lia|].
  split.
  - rewrite (Range lo Rlo). unfold blockEnd. rewrite Elo. reflexivity.
  - rewrite (Range hi Rhi). unfold blockEnd at 1. rewrite Ehi. reflexivity.
Qed.

Lemma getIPRange_is_the_block_witness :
  Cidr.getIPRange "192.168.1.100" 24 = OK ("192.168.1.0", "192.168.1.255")%string.
Proof.
  apply (getIPRange_is_the_block (ipv4 192 168 1 100) 24).
  - unfold isBitflag. vm_compute. split; discriminate.
  - lia.
Defined.

Lemma isInSubnet_value (a s p : Z) :
  isBitflag a -> isBitflag s -> 0 <= p <= 32 ->
  Cidr.isInSubnet (Parse.formatIPv4 a) (Parse.formatIPv4 s) p
  = OK (maskedTo a p =? maskedTo s p).
Proof.
  intros Ha Hs Hp. unfold Cidr.isInSubnet, Cidr.createSubnetMask.
  rewrite !parseIPv4_formatIPv4 by assumption. rewrite !bind_OK.
  rewrite createMask_value by exact Hp. rewrite bind_OK.
  rewrite !networkBitflag_value by assumption. reflexivity.
Qed.

(** X2. For validated addresses and a prefix length in [0,32],
    [isInSubnet ip subnet p] is true exactly when [ip] lies between the network
    address and the broadcast address of [subnet]'s block at [p], whether or
    not [subnet] is itself the network address; it is false otherwise. *)
Theorem isInSubnet_iff_in_range :
  forall a s p : Z, isBitflag a -> isBitflag s -> 0 <= p <= 32 ->
    Cidr.isInSubnet (Parse.formatIPv4 a) (Parse.formatIPv4 s) p
    = OK ((maskedTo s p <=? a) && (a <=? blockEnd s p)).
Proof.
  intros a s p Ha Hs Hp. rewrite isInSubnet_value by assumption. f_equal.
  pose proof (inBlock_range a (maskedTo s p) p Hp
                ltac:(unfold isBitflag in Ha; lia)
                (maskedTo_idempotent s p Hp)) as E.
  unfold inBlock in E. rewrite E. unfold blockEnd. reflexivity.
Qed.

Lemma isInSubnet_iff_in_range_witness :
  Cidr.isInSubnet "192.168.1.100" "192.168.1.7" 24 = OK true.
Proof.
  apply (isInSubnet_iff_in_range (ipv4 192 168 1 100) (ipv4 192 168 1 7) 24).
  - unfold isBitflag. vm_compute. split; discriminate.
  - unfold isBitflag. vm_compute. split; discriminate.
  - lia.
Defined.

End MoreBlocks.

(** ** Usable hosts, neighbouring subnets *)

Section Usable.
Import JS Spec Checks.

Lemma calculateAvailableIPs_value (p : Z) :
  0 <= p <= 32 ->
  Cidr.calculateAvailableIPs p
  = OK (if p =? 32 then 1 else if p =? 31 then 2 else 2^(32 - p) - 2).
Proof.
  intros Hp. unfold Cidr.calculateAvailableIPs, Cidr.IPV4_MIN_PREFIX_LENGTH,
    Cidr.IPV4_MAX_PREFIX_LENGTH, pow2.
  replace ((p <? 0) || (p >? 32)) with false by lia.
  change (32 - 1) with 31.
  destruct (p =? 32); [reflexivity|]. destruct (p =? 31); reflexivity.
Qed.

(** X3. For the network address of a block (a validated address aligned at
    the prefix length [p], [0 <= p <= 32]) the first and the last usable
    address lie inside the block, and the number of addresses from the first
    through the last is what [calculateAvailableIPs p] returns: 1 for /32, 2
    for /31 (both addresses of the block), and the block without its network
    and broadcast address otherwise. *)
Theorem usable_range_matches_count :
  forall n p : Z, isBitflag n -> 0 <= p <= 32 -> maskedTo n p = n ->
    exists first last count,
      Cidr.calculateFirstUsableIP (Parse.formatIPv4 n) p = OK (Parse.formatIPv4 first)
      /\ Cidr.calculateLastUsableIP (Parse.formatIPv4 n) p = OK (Parse.formatIPv4 last)
      /\ Cidr.calculateAvailableIPs p = OK count
      /\ n <= first <= last /\ last <= blockEnd n p
      /\ last - first + 1 = count
      /\ (p <= 30 -> first = n + 1 /\ last = blockEnd n p - 1)
      /\ (31 <= p -> first = n /\ last = blockEnd n p).
Proof.
  intros n p Hn Hp Ha.
  pose proof (blockEnd_range n p Hn Hp) as [Rhi _].
  assert (Hu : 0 < 2^(32 - p)) by (apply Z.pow_pos_nonneg; lia).
  assert (Hend : blockEnd n p = n + 2^(32 - p) - 1)
    by (unfold blockEnd; rewrite Ha; reflexivity).
  unfold Cidr.calculateFirstUsableIP, Cidr.calculateLastUsableIP,
    Cidr.IPV4_MAX_PREFIX_LENGTH.
  rewrite calculateBroadcastAddress_value by assumption.
  rewrite !parseIPv4_formatIPv4 by assumption. rewrite !bind_OK.
  rewrite parseIPv4_formatIPv4 by assumption. rewrite bind_OK.
  rewrite calculateAvailableIPs_value by exact Hp.
  change (32 - 1) with 31.
  destruct (Z.leb_spec 31 p) as [L|L].
  - replace (p >=? 31) with true by lia.
    exists n, (blockEnd n p), (if p =? 32 then 1 else if p =? 31 then 2 else 2^(32 - p) - 2).
    repeat (split; [reflexivity || lia|]).
    split.
    + assert (p = 31 \/ p = 32) as [-> | ->] by lia.
      * rewrite Hend. change (2^(32 - 31)) with 2.
        change (if 31 =? 32 then 1 else if 31 =? 31 then 2 else 2 - 2) with 2. lia.
      * rewrite Hend. change (2^(32 - 32)) with 1.
        change (if 32 =? 32 then 1 else if 32 =? 31 then 2 else 1 - 2) with 1. lia.
    + split; [lia | intros _; split; reflexivity].
  - replace (p >=? 31) with false by lia.
    assert (4 <= 2^(32 - p)).
    { change 4 with (2^2). apply Z.pow_le_mono_r; lia. }
    unfold isBitflag in *.
    rewrite !ushr_zero, !toUint32_small by lia.
    exists (n + 1), (blockEnd n p - 1),
      (if p =? 32 then 1 else if p =? 31 then 2 else 2^(32 - p) - 2).
    repeat (split; [reflexivity || lia|]).
    split.
    + replace (p =? 32) with false by lia. replace (p =? 31) with false by lia. lia.
    + split; [intros _; split; reflexivity | lia].
Qed.

Lemma usable_range_matches_count_witness :
  exists first last count,
    Cidr.calculateFirstUsableIP (Parse.formatIPv4 (ipv4 192 168 1 0)) 24
    = OK (Parse.formatIPv4 first)
    /\ Cidr.calculateLastUsableIP (Parse.formatIPv4 (ipv4 192 168 1 0)) 24
       = OK (Parse.formatIPv4 last)
    /\ Cidr.calculateAvailableIPs 24 = OK count
    /\ ipv4 192 168 1 0 <= first <= last /\ last <= blockEnd (ipv4 192 168 1 0) 24
    /\ last - first + 1 = count
    /\ (24 <= 30 -> first = ipv4 192 168 1 0 + 1
                    /\ last = blockEnd (ipv4 192 168 1 0) 24 - 1)
    /\ (31 <= 24 -> first = ipv4 192 168 1 0 /\ last = blockEnd (ipv4 192 168 1 0) 24).
Proof.
  apply (usable_range_matches_count (ipv4 192 168 1 0) 24).
  - unfold isBitflag. vm_compute. split; discriminate.
  - lia.
  - reflexivity.
Defined.

(** X4. [getNextSubnet] and [getPreviousSubnet] step by the block size
    [2^(32-p)] and refuse to leave the address space: for a validated address
    [n] and [p <= 32], the next subnet is [n + 2^(32-p)] when that is at most
    255.255.255.255 and an IPv4SubnetError otherwise; the previous subnet is
    [n - 2^(32-p)] when that is not negative and an IPv4SubnetError
    otherwise; and each undoes the other whenever the first step succeeds. *)
Theorem next_previous_subnet :
  forall n p : Z, isBitflag n -> p <= 32 ->
    let size := 2^(32 - p) in
    (n + size <= 2^32 - 1 ->
       Cidr.getNextSubnet (Parse.formatIPv4 n) p = OK (Parse.formatIPv4 (n + size))
       /\ Cidr.getPreviousSubnet (Parse.formatIPv4 (n + size)) p
          = OK (Parse.formatIPv4 n))
    /\ (2^32 - 1 < n + size ->
          Cidr.getNextSubnet (Parse.formatIPv4 n) p
          = Throw (IPv4SubnetError "No next subnet available (address space overflow)"))
    /\ (0 <= n - size ->
          Cidr.getPreviousSubnet (Parse.formatIPv4 n) p = OK (Parse.formatIPv4 (n - size))
          /\ Cidr.getNextSubnet (Parse.formatIPv4 (n - size)) p
             = OK (Parse.formatIPv4 n))
    /\ (n - size < 0 ->
          Cidr.getPreviousSubnet (Parse.formatIPv4 n) p
          = Throw (IPv4SubnetError "No previous subnet available (address space underflow)")).
Proof.
  intros n p Hn Hp size.
  assert (Hs : 0 < size) by (apply Z.pow_pos_nonneg; lia).
  assert (Next : forall x, isBitflag x ->
            Cidr.getNextSubnet (Parse.formatIPv4 x) p
            = if x + size >? 4294967295
              then Throw (IPv4SubnetError "No next subnet available (address space overflow)")
              else OK (Parse.formatIPv4 (x + size))).
  { intros x Hx. unfold Cidr.getNextSubnet.
    rewrite parseIPv4_formatIPv4 by exact Hx. reflexivity. }
  assert (Prev : forall x, isBitflag x ->
            Cidr.getPreviousSubnet (Parse.formatIPv4 x) p
            = if x - size <? 0
              then Throw (IPv4SubnetError "No previous subnet available (address space underflow)")
              else OK (Parse.formatIPv4 (x - size))).
  { intros x Hx. unfold Cidr.getPreviousSubnet.
    rewrite parseIPv4_formatIPv4 by exact Hx. reflexivity. }
  unfold isBitflag in *. change (2^32 - 1) with 4294967295 in *.
  split; [|split; [|split]].
  - intros H. rewrite (Next n Hn), (Prev (n + size)) by lia.
    replace (n + size >? 4294967295) with false by lia.
    replace (n + size - size <? 0) with false by lia.
    replace (n + size - size) with n by lia. split; reflexivity.
  - intros H. rewrite (Next n Hn).
    replace (n + size >? 4294967295) with true by lia. reflexivity.
  - intros H. rewrite (Prev n Hn), (Next (n - size)) by lia.
    replace (n - size <? 0) with false by lia.
    replace (n - size + size >? 4294967295) with false by lia.
    replace (n - size + size) with n by lia. split; reflexivity.
  - intros H. rewrite (Prev n Hn).
    replace (n - size <? 0) with true by lia. reflexivity.
Qed.

Lemma next_previous_subnet_witness :
  Cidr.getNextSubnet "192.168.1.0" 24 = OK "192.168.2.0"%string
  /\ Cidr.getNextSubnet "255.255.255.0" 24
     = Throw (IPv4SubnetError "No next subnet available (address space overflow)").
Proof.
  split.
  - apply (next_previous_subnet (ipv4 192 168 1 0) 24).
    + unfold isBitflag. vm_compute. split; discriminate.
    + lia.
    + vm_compute. discriminate.
  - apply (next_previous_subnet (ipv4 255 255 255 0) 24).
    + unfold isBitflag. vm_compute. split; discriminate.
    + lia.
    + vm_compute. reflexivity.
Defined.

End Usable.

(** ** Ordering and distance of addresses *)

Section Ordering.
Import JS Spec Checks.

(** X5. [compareIPs] orders validated addresses by their numeric value: it
    returns -1, 0 or 1 as the first address is below, equal to or above the
    second; 0 is returned only for identical addresses; and swapping the
    arguments negates the result. *)
Theorem compareIPs_is_numeric_order :
  forall a b : Z, isBitflag a -> isBitflag b ->
    let x := Parse.formatIPv4 a in
    let y := Parse.formatIPv4 b in
    (Operation.compareIPs x y = -1 <-> a < b)
    /\ (Operation.compareIPs x y = 0 <-> x = y)
    /\ (Operation.compareIPs x y = 1 <-> b < a)
    /\ Operation.compareIPs y x = - Operation.compareIPs x y.
Proof.
  intros a b Ha Hb x y. subst x y. unfold Operation.compareIPs. cbv zeta.
  rewrite !ipToBitflag_formatIPv4 by assumption.
  assert (Inj : Parse.formatIPv4 a = Parse.formatIPv4 b <-> a = b).
  { split; [apply formatIPv4_injective; assumption | intros ->; reflexivity]. }
  rewrite Inj. rewrite !Z.gtb_ltb.
  destruct (Z.ltb_spec a b), (Z.ltb_spec b a); repeat split; intros; try lia.
Qed.

Lemma compareIPs_is_numeric_order_witness :
  Operation.compareIPs "10.0.0.1" "9.255.255.255" = 1.
Proof.
  apply (compareIPs_is_numeric_order (ipv4 10 0 0 1) (ipv4 9 255 255 255)).
  - unfold isBitflag. vm_compute. split; discriminate.
  - unfold isBitflag. vm_compute. split; discriminate.
  - vm_compute. reflexivity.
Defined.

(** X6. [ipDifference] is the distance between two validated addresses: it
    is symmetric, zero only for identical addresses, and moving the lower
    address up by it with [incrementIP] (or the higher one down with
    [decrementIP]) reaches the other address. *)
Theorem ipDifference_is_the_distance :
  forall a b : Z, isBitflag a -> isBitflag b ->
    let x := Parse.formatIPv4 a in
    let y := Parse.formatIPv4 b in
    Operation.ipDifference x y = Z.abs (a - b)
    /\ Operation.ipDifference x y = Operation.ipDifference y x
    /\ (Operation.ipDifference x y = 0 <-> x = y)
    /\ (a <= b ->
        Operation.incrementIP x (Operation.ipDifference x y) = OK y
        /\ Operation.decrementIP y (Operation.ipDifference x y) = OK x).
Proof.
  intros a b Ha Hb x y. subst x y. unfold Operation.ipDifference. cbv zeta.
  rewrite !ipToBitflag_formatIPv4 by assumption.
  assert (Inj : Parse.formatIPv4 a = Parse.formatIPv4 b <-> a = b).
  { split; [apply formatIPv4_injective; assumption | intros ->; reflexivity]. }
  rewrite Inj.
  split; [reflexivity|]. split; [lia|]. split; [lia|].
  intros L. replace (Z.abs (a - b)) with (b - a) by lia.
  rewrite incrementIP_in_range, decrementIP_in_range;
    try assumption;
    try (replace (a + (b - a)) with b by lia; assumption);
    try (replace (b - (b - a)) with a by lia; assumption).
  split; do 2 f_equal; lia.
Qed.

Lemma ipDifference_is_the_distance_witness :
  Operation.ipDifference "10.0.0.1" "10.0.1.0" = Z.abs (ipv4 10 0 0 1 - ipv4 10 0 1 0).
Proof.
  apply (ipDifference_is_the_distance (ipv4 10 0 0 1) (ipv4 10 0 1 0)).
  - unfold isBitflag. vm_compute. split; discriminate.
  - unfold isBitflag. vm_compute. split; discriminate.
Defined.

(** X7. [numberToIP] accepts exactly the numbers in [0, 2^32 - 1] (it
    raises on every other integer), [ipToNumber] gives the number back, and
    on a canonical dotted-decimal string [numberToIP] after [ipToNumber] is
    the identity. *)
Theorem numberToIP_ipToNumber :
  (forall n : Z, n < 0 \/ 2^32 - 1 < n ->
     Parse.numberToIP n = Throw (PlainError "Invalid IPv4 numeric representation"))
  /\ (forall n : Z, isBitflag n ->
        Parse.numberToIP n = OK (Parse.formatIPv4 n)
        /\ Parse.ipToNumber (Parse.formatIPv4 n) = OK n)
  /\ (forall a b c d : string,
        canonicalOctet a = true -> canonicalOctet b = true ->
        canonicalOctet c = true -> canonicalOctet d = true ->
        exists n, Parse.ipToNumber (dotted a b c d) = OK n
                  /\ Parse.numberToIP n = OK (dotted a b c d)).
Proof.
  assert (Ok : forall n, isBitflag n -> Parse.numberToIP n = OK (Parse.formatIPv4 n)).
  { intros n Hn. unfold Parse.numberToIP, isBitflag in *.
    change (2^32 - 1) with 4294967295 in Hn.
    replace ((n <? 0) || (n >? 4294967295)) with false by lia. reflexivity. }
  split; [|split].
  - intros n Hn. unfold Parse.numberToIP. change (2^32 - 1) with 4294967295 in Hn.
    replace ((n <? 0) || (n >? 4294967295)) with true by lia. reflexivity.
  - intros n Hn. split; [apply Ok; exact Hn|].
    unfold Parse.ipToNumber. apply parseIPv4_formatIPv4. exact Hn.
  - intros a b c d Ca Cb Cc Cd.
    apply canonicalOctet_elim in Ca, Cb, Cc, Cd.
    destruct Ca as (Ga & Ra & Sa). destruct Cb as (Gb & Rb & Sb).
    destruct Cc as (Gc & Rc & Sc). destruct Cd as (Gd & Rd & Sd).
    pose proof (octets_of_ipv4 _ _ _ _ Ra Rb Rc Rd) as (Hn & O1 & O2 & O3 & O4).
    eexists. split.
    + unfold Parse.ipToNumber.
      rewrite (parseIPv4_dotted _ _ _ _ _ _ _ _ Ga Gb Gc Gd).
      rewrite octetsToBitflag_value by assumption. reflexivity.
    + rewrite Ok by exact Hn. rewrite formatIPv4_dotted by exact Hn.
      rewrite O1, O2, O3, O4, Sa, Sb, Sc, Sd. reflexivity.
Qed.

Lemma numberToIP_ipToNumber_witness :
  Parse.numberToIP (-1) = Throw (PlainError "Invalid IPv4 numeric representation")
  /\ Parse.numberToIP 3232235777 = OK (Parse.formatIPv4 3232235777).
Proof.
  destruct numberToIP_ipToNumber as (T & R & _). split.
  - apply T. left. lia.
  - apply R. unfold isBitflag. lia.
Defined.

End Ordering.

(** ** Bit ranges and octets *)

Section BitRanges.
Import JS Spec Checks.

Lemma shiftCount_small (k : Z) : 0 <= k < 32 -> shiftCount k = k.
Proof. intros H. rewrite shiftCount_mod. apply Z.mod_small. exact H. Qed.

Lemma toInt32_congr (x y : Z) : x mod 2^32 = y mod 2^32 -> toInt32 x = toInt32 y.
Proof. intros H. unfold toInt32. rewrite H. reflexivity. Qed.

Lemma toInt32_idempotent (x : Z) : toInt32 (toInt32 x) = toInt32 x.
Proof. apply toInt32_congr. apply toUint32_toInt32. Qed.

Lemma bitflag_high_bits (n i : Z) : isBitflag n -> 32 <= i -> Z.testbit n i = false.
Proof.
  intros Hn Hi. rewrite <- (Z.mod_small n (2^32)) by (unfold isBitflag in Hn; lia).
  rewrite Z.testbit_mod_pow2 by lia.
  replace (i <? 32) with false by lia. reflexivity.
Qed.

Lemma pow2_bounds (w : Z) : 0 <= w <= 31 -> 1 <= 2^w <= 2^31.
Proof.
  intros H. split.
  - assert (0 < 2^w) by (apply Z.pow_pos_nonneg; lia). lia.
  - apply Z.pow_le_mono_r; lia.
Qed.

(** [(1 << w) - 1], converted back to 32 bits, is the mask of the [w] lowest
    bits, also for [w = 31] where [1 << w] is negative. *)
Lemma low_mask (w : Z) :
  0 <= w <= 31 -> toInt32 (shl 1 w - 1) = Z.ones w.
Proof.
  intros Hw. rewrite Z.ones_equiv.
  pose proof (pow2_bounds w Hw) as B. change (2^31) with 2147483648 in B.
  transitivity (toInt32 (2^w - 1)).
  - apply toInt32_congr. unfold shl.
    rewrite shiftCount_small by lia. change (toInt32 1) with 1.
    rewrite Z.shiftl_mul_pow2, Z.mul_1_l by lia.
    rewrite <- Zminus_mod_idemp_l.
    pose proof (toUint32_toInt32 (2^w)) as E. unfold toUint32 in E. rewrite E.
    rewrite Zminus_mod_idemp_l. reflexivity.
  - replace (Z.pred (2^w)) with (2^w - 1) by lia.
    apply toInt32_small. change (2^31) with 2147483648. lia.
Qed.

Lemma extractBits_ok (n s e : Z) :
  isBitflag n -> 0 <= s <= e -> e - s + 1 < 32 -> e <= 31 ->
  Bitmask.extractBits n s e = OK ((n / 2^s) mod 2^(e - s + 1)).
Proof.
  intros Hn Hs Hw He. unfold Bitmask.extractBits.
  replace ((s <? 0) || (e >? 31) || (s >? e)) with false by lia.
  cbv zeta. f_equal.
  set (w := e - s + 1) in *.
  unfold ushr, band, shl at 1.
  rewrite !shiftCount_small by lia.
  rewrite toInt32_idempotent, low_mask by lia.
  apply Z.bits_inj'. intros j Hj.
  rewrite Z.shiftr_spec, toUint32_testbit by lia.
  rewrite Z.testbit_mod_pow2, Z.div_pow2_bits by lia.
  destruct (Z.ltb_spec (j + s) 32) as [L|L].
  - rewrite Z.land_spec, !toInt32_testbit by lia.
    rewrite Z.shiftl_spec by lia.
    replace (j + s - s) with j by lia.
    rewrite Z.testbit_ones by lia.
    replace (0 <=? j) with true by lia.
    cbn [andb]. apply andb_comm.
  - rewrite (bitflag_high_bits n (j + s)) by (assumption || lia).
    cbn [andb]. rewrite andb_false_r. reflexivity.
Qed.

(** X8. [extractBits n start end] on a bitflag: for a range
    [0 <= start <= end <= 31] of fewer than 32 bits it returns the bits
    [start..end] of [n], right-aligned, that is [(n / 2^start) mod
    2^(end-start+1)]; for the full range 0..31 it returns 0, because the mask
    [(1 << 32) - 1] is computed as [(1 << 0) - 1]; and it raises when
    [start < 0], [end > 31] or [start > end]. *)
Theorem extractBits_spec :
  forall n s e : Z, isBitflag n ->
    (0 <= s <= e -> e <= 31 -> e - s + 1 < 32 ->
       Bitmask.extractBits n s e = OK ((n / 2^s) mod 2^(e - s + 1)))
    /\ Bitmask.extractBits n 0 31 = OK 0
    /\ (s < 0 \/ 31 < e \/ e < s -> throws (Bitmask.extractBits n s e)).
Proof.
  intros n s e Hn. split; [|split].
  - intros Hs He Hw. apply extractBits_ok; assumption.
  - unfold Bitmask.extractBits.
    change ((0 <? 0) || (31 >? 31) || (0 >? 31)) with false. cbv iota zeta.
    change (shl (shl 1 (31 - 0 + 1) - 1) 0) with 0.
    unfold band. change (toInt32 0) with 0. rewrite Z.land_0_r. reflexivity.
  - intros H. unfold Bitmask.extractBits.
    replace ((s <? 0) || (e >? 31) || (s >? e)) with true by lia.
    eexists. reflexivity.
Qed.

Lemma extractBits_spec_witness :
  Bitmask.extractBits 0xC0A80105 16 23 = OK ((0xC0A80105 / 2^16) mod 2^(23 - 16 + 1))
  /\ throws (Bitmask.extractBits 0xC0A80105 5 4).
Proof.
  destruct (extractBits_spec 0xC0A80105 16 23 ltac:(unfold isBitflag; lia)) as (V & _).
  destruct (extractBits_spec 0xC0A80105 5 4 ltac:(unfold isBitflag; lia)) as (_ & _ & T).
  split; [apply V; lia | apply T; lia].
Defined.

End BitRanges.

Section OctetUpdates.
Import JS Spec Checks.

Lemma small_high_bits (v w j : Z) :
  0 <= w -> 0 <= v < 2^w -> w <= j -> Z.testbit v j = false.
Proof.
  intros Hw Hv Hj. rewrite <- (Z.mod_small v (2^w)) by lia.
  rewrite Z.testbit_mod_pow2 by lia.
  replace (j <? w) with false by lia. reflexivity.
Qed.

Lemma extractOctet_value (x q : Z) :
  isBitflag x -> 0 <= q <= 3 ->
  Octet.extractOctet x q = OK ((x / 2^((3 - q) * 8)) mod 2^8).
Proof.
  intros Hx Hq. unfold Octet.extractOctet.
  replace ((q <? 0) || (q >? 3)) with false by lia.
  rewrite extractBits_ok by (assumption || lia).
  do 3 f_equal. lia.
Qed.

Lemma extractOctet_throws (x q : Z) :
  q < 0 \/ 3 < q -> throws (Octet.extractOctet x q).
Proof.
  intros Hq. unfold Octet.extractOctet.
  replace ((q <? 0) || (q >? 3)) with true by lia. eexists. reflexivity.
Qed.

(** The bits of the result of [setOctet]. *)
Lemma setOctet_bits (ip sh v i : Z) :
  0 <= sh <= 24 -> 0 <= v <= 255 -> 0 <= i < 32 ->
  Z.testbit (ushr (bor (band ip (bnot (shl 255 sh))) (shl v sh)) 0) i
  = if (sh <=? i) && (i <? sh + 8) then Z.testbit v (i - sh) else Z.testbit ip i.
Proof.
  intros Hsh Hv Hi. rewrite ushr_zero, toUint32_testbit by lia.
  replace (i <? 32) with true by lia. cbn [andb].
  unfold bor, band, bnot, shl. rewrite !shiftCount_small by lia.
  rewrite !toInt32_idempotent.
  change (toInt32 255) with (Z.ones 8).
  rewrite (toInt32_small v) by (change (2^31) with 2147483648; lia).
  rewrite Z.lor_spec, !toInt32_testbit by lia.
  rewrite Z.land_spec, !toInt32_testbit by lia.
  rewrite Z.lnot_spec, toInt32_testbit by lia.
  rewrite !Z.shiftl_spec by lia.
  rewrite Z.testbit_ones by lia.
  destruct (Z.leb_spec sh i) as [L|L].
  - replace (0 <=? i - sh) with true by lia. cbn [andb].
    destruct (Z.ltb_spec (i - sh) 8) as [U|U].
    + replace (i <? sh + 8) with true by lia. cbn [negb].
      rewrite andb_false_r. reflexivity.
    + replace (i <? sh + 8) with false by lia. cbn [negb].
      rewrite andb_true_r.
      rewrite (small_high_bits v 8 (i - sh)) by (change (2^8) with 256; lia).
      apply orb_false_r.
  - replace (0 <=? i - sh) with false by lia. cbn [andb negb].
    rewrite andb_true_r. rewrite (Z.testbit_neg_r v) by lia. apply orb_false_r.
Qed.

Lemma octet_of_bits (r k : Z) (f : Z -> bool) :
  0 <= k ->
  (forall j, 0 <= j < 8 -> Z.testbit r (j + k) = f j) ->
  forall y, (forall j, 0 <= j < 8 -> Z.testbit y (j + k) = f j) ->
  (r / 2^k) mod 2^8 = (y / 2^k) mod 2^8.
Proof.
  intros Hk Hr y Hy. apply Z.bits_inj'. intros j Hj.
  rewrite !Z.testbit_mod_pow2, !Z.div_pow2_bits by lia.
  destruct (Z.ltb_spec j 8) as [L|L]; [|reflexivity].
  cbn [andb]. rewrite Hr, Hy by lia. reflexivity.
Qed.

Lemma setOctet_ok (ip pos v : Z) :
  isBitflag ip -> 0 <= pos <= 3 -> 0 <= v <= 255 ->
  exists r, Octet.setOctet ip pos v = OK r
            /\ isBitflag r
            /\ Octet.extractOctet r pos = OK v
            /\ forall q, 0 <= q <= 3 -> q <> pos ->
                 Octet.extractOctet r q = Octet.extractOctet ip q.
Proof.
  intros Hip Hpos Hv. unfold Octet.setOctet.
  replace ((pos <? 0) || (pos >? 3)) with false by lia.
  replace ((v <? 0) || (v >? 255)) with false by lia.
  cbv zeta. set (sh := (3 - pos) * 8).
  set (r := ushr (bor (band ip (bnot (shl 255 sh))) (shl v sh)) 0).
  assert (Hr : isBitflag r) by apply ushr_zero_isBitflag.
  assert (Bits : forall i, 0 <= i < 32 ->
            Z.testbit r i = if (sh <=? i) && (i <? sh + 8)
                            then Z.testbit v (i - sh) else Z.testbit ip i).
  { intros i Hi. apply setOctet_bits; unfold sh; lia. }
  exists r. split; [reflexivity|]. split; [exact Hr|]. split.
  - rewrite extractOctet_value by assumption. fold sh. f_equal.
    transitivity ((v * 2^sh / 2^sh) mod 2^8).
    + apply (octet_of_bits r sh (fun j => Z.testbit v j)); [unfold sh; lia| |].
      * intros j Hj. rewrite Bits by (unfold sh; lia).
        replace ((sh <=? j + sh) && (j + sh <? sh + 8)) with true by lia.
        f_equal. lia.
      * intros j Hj. rewrite <- Z.shiftl_mul_pow2 by (unfold sh; lia).
        rewrite Z.shiftl_spec by (unfold sh; lia). f_equal. lia.
    + rewrite Z.div_mul by (apply Z.pow_nonzero; unfold sh; lia).
      apply Z.mod_small. change (2^8) with 256. lia.
  - intros q Hq Hne. rewrite !extractOctet_value by assumption. f_equal.
    apply (octet_of_bits r ((3 - q) * 8) (fun j => Z.testbit ip (j + (3 - q) * 8)));
      [lia| |reflexivity].
    intros j Hj. rewrite Bits by lia.
    replace ((sh <=? j + (3 - q) * 8) && (j + (3 - q) * 8 <? sh + 8)) with false
      by (unfold sh; lia).
    reflexivity.
Qed.

Lemma setOctet_throws (ip pos v : Z) :
  pos < 0 \/ 3 < pos \/ v < 0 \/ 255 < v -> throws (Octet.setOctet ip pos v).
Proof.
  intros H. unfold Octet.setOctet.
  destruct ((pos <? 0) || (pos >? 3)) eqn:E1; [eexists; reflexivity|].
  replace ((v <? 0) || (v >? 255)) with true by lia. eexists. reflexivity.
Qed.

(** X9. [setOctet] replaces one octet and leaves the other three as they
    are: for a bitflag, a position in [0,3] and a value in [0,255] it returns
    a bitflag whose octet at that position (as [extractOctet] reads it) is the
    value and whose octets at the other positions are those of the input; it
    raises for a position outside [0,3] and for a value outside [0,255]. *)
Theorem setOctet_replaces_one_octet :
  forall ip pos v : Z, isBitflag ip ->
    (0 <= pos <= 3 -> 0 <= v <= 255 ->
       exists r, Octet.setOctet ip pos v = OK r
                 /\ isBitflag r
                 /\ Octet.extractOctet r pos = OK v
                 /\ forall q, 0 <= q <= 3 -> q <> pos ->
                      Octet.extractOctet r q = Octet.extractOctet ip q)
    /\ (pos < 0 \/ 3 < pos \/ v < 0 \/ 255 < v -> throws (Octet.setOctet ip pos v)).
Proof.
  intros ip pos v Hip. split.
  - intros Hpos Hv. apply setOctet_ok; assumption.
  - apply setOctet_throws.
Qed.

Lemma setOctet_replaces_one_octet_witness :
  (exists r, Octet.setOctet 0xC0A80101 3 10 = OK r
             /\ isBitflag r
             /\ Octet.extractOctet r 3 = OK 10
             /\ forall q, 0 <= q <= 3 -> q <> 3 ->
                  Octet.extractOctet r q = Octet.extractOctet 0xC0A80101 q)
  /\ throws (Octet.setOctet 0xC0A80101 4 10).
Proof.
  destruct (setOctet_replaces_one_octet 0xC0A80101 3 10
              ltac:(unfold isBitflag; lia)) as (S & _).
  destruct (setOctet_replaces_one_octet 0xC0A80101 4 10
              ltac:(unfold isBitflag; lia)) as (_ & T).
  split; [apply S; lia | apply T; lia].
Defined.

(** X10. [extractOctet] reads the octets that [bitflagToOctets] lists and
    that [octetsToBitflag] composes: for a bitflag and a position [q] in
    [0,3] it returns the [q]-th element of [bitflagToOctets], a value in
    [0,255], composing the four extracted octets gives the bitflag back, and
    it raises for every position outside [0,3]. *)
Theorem extractOctet_agrees_with_bitflagToOctets :
  forall x q : Z, isBitflag x ->
    (0 <= q <= 3 ->
       exists o, Octet.extractOctet x q = OK o
                 /\ 0 <= o <= 255
                 /\ nth (Z.to_nat q) (Octet.bitflagToOctets x) 0 = o)
    /\ Octet.octetsToBitflag (Octet.bitflagToOctets x) = x
    /\ (q < 0 \/ 3 < q -> throws (Octet.extractOctet x q)).
Proof.
  intros x q Hx. split; [|split].
  - intros Hq. rewrite extractOctet_value by assumption.
    eexists. split; [reflexivity|]. split.
    + pose proof (Z.mod_pos_bound (x / 2^((3 - q) * 8)) (2^8) ltac:(lia)).
      change (2^8) with 256 in *. lia.
    + rewrite bitflagToOctets_value by exact Hx. change (2^8) with 256.
      assert (q = 0 \/ q = 1 \/ q = 2 \/ q = 3) as [-> | [-> | [-> | ->]]] by lia;
        try reflexivity.
      cbn [Z.to_nat Pos.to_nat Pos.iter_op Nat.add nth].
      change ((3 - 3) * 8) with 0. rewrite Z.pow_0_r, Z.div_1_r. reflexivity.
  - rewrite bitflagToOctets_value by exact Hx.
    rewrite octetsToBitflag_value by apply octet_bound.
    apply ipv4_of_octets. exact Hx.
  - apply extractOctet_throws.
Qed.

Lemma extractOctet_agrees_with_bitflagToOctets_witness :
  exists o, Octet.extractOctet 0xC0A80101 1 = OK o
            /\ 0 <= o <= 255
            /\ nth (Z.to_nat 1) (Octet.bitflagToOctets 0xC0A80101) 0 = o.
Proof.
  destruct (extractOctet_agrees_with_bitflagToOctets 0xC0A80101 1
              ltac:(unfold isBitflag; lia)) as (V & _).
  apply V. lia.
Defined.

End OctetUpdates.

Section MaskAlgebra.
Import JS Spec Checks.

Lemma uint_eq_bits (x y : Z) :
  (forall i, 0 <= i < 32 -> Z.testbit x i = Z.testbit y i) ->
  (forall i, 32 <= i -> Z.testbit y i = false) ->
  toUint32 x = y.
Proof.
  intros Hlo Hhi. apply Z.bits_inj'. intros i Hi.
  rewrite toUint32_testbit by exact Hi.
  destruct (Z.ltb_spec i 32) as [L|L]; cbn [andb].
  - apply Hlo. lia.
  - symmetry. apply Hhi. exact L.
Qed.

Lemma uint_land (a b : Z) :
  isBitflag a -> isBitflag b -> ushr (band a b) 0 = Z.land a b.
Proof.
  intros Ha Hb. rewrite ushr_zero. apply uint_eq_bits.
  - intros i Hi. unfold band. rewrite !Z.land_spec, !toInt32_testbit by exact Hi.
    reflexivity.
  - intros i Hi. rewrite Z.land_spec, (bitflag_high_bits a) by assumption.
    reflexivity.
Qed.

Lemma uint_lor (a b : Z) :
  isBitflag a -> isBitflag b -> ushr (bor a b) 0 = Z.lor a b.
Proof.
  intros Ha Hb. rewrite ushr_zero. apply uint_eq_bits.
  - intros i Hi. unfold bor. rewrite !Z.lor_spec, !toInt32_testbit by exact Hi.
    reflexivity.
  - intros i Hi.
    rewrite Z.lor_spec, (bitflag_high_bits a), (bitflag_high_bits b) by assumption.
    reflexivity.
Qed.

Lemma uint_lxor (a b : Z) :
  isBitflag a -> isBitflag b -> ushr (bxor a b) 0 = Z.lxor a b.
Proof.
  intros Ha Hb. rewrite ushr_zero. apply uint_eq_bits.
  - intros i Hi. unfold bxor. rewrite !Z.lxor_spec, !toInt32_testbit by exact Hi.
    reflexivity.
  - intros i Hi.
    rewrite Z.lxor_spec, (bitflag_high_bits a), (bitflag_high_bits b) by assumption.
    reflexivity.
Qed.

Lemma uint_lnot (a : Z) : isBitflag a -> ushr (bnot a) 0 = 2^32 - 1 - a.
Proof.
  intros Ha. unfold isBitflag in Ha. rewrite ushr_zero. unfold bnot, Z.lnot.
  unfold toUint32.
  assert (E : (Z.pred (- toInt32 a)) mod 2^32 = (Z.pred (- a)) mod 2^32).
  { unfold toInt32. rewrite (Z.mod_small a) by lia. cbv zeta.
    destruct (2^31 <=? a); [|reflexivity].
    replace (Z.pred (- (a - 2^32))) with (Z.pred (- a) + 1 * 2^32) by lia.
    apply Z.mod_add. lia. }
  rewrite E.
  replace (Z.pred (- a)) with (2^32 - 1 - a + (-1) * 2^32) by lia.
  rewrite Z.mod_add by lia. apply Z.mod_small. lia.
Qed.

Lemma complement_range (a : Z) : isBitflag a -> isBitflag (2^32 - 1 - a).
Proof. unfold isBitflag. lia. Qed.

Lemma complement_bits (a i : Z) :
  isBitflag a -> 0 <= i < 32 ->
  Z.testbit (2^32 - 1 - a) i = negb (Z.testbit a i).
Proof.
  intros Ha Hi. rewrite <- (uint_lnot a Ha), ushr_zero, toUint32_testbit by lia.
  replace (i <? 32) with true by lia. cbn [andb].
  unfold bnot. rewrite Z.lnot_spec, toInt32_testbit by lia. reflexivity.
Qed.

(** X11. The four complement functions ([invertMask], [invertMaskBits],
    [not], [invertBits]) agree on bitflags: each returns [2^32 - 1 - m], a
    bitflag; inverting twice gives the mask back, a mask and its inverse
    have no bit in common and together cover all 32 bits. *)
Theorem invertMask_is_the_complement :
  forall m : Z, isBitflag m ->
    Bitmask.invertMask m = 2^32 - 1 - m
    /\ Mask.invertMaskBits m = 2^32 - 1 - m
    /\ Basic.not m = 2^32 - 1 - m
    /\ Basic.invertBits m = 2^32 - 1 - m
    /\ Bitmask.invertMask (Bitmask.invertMask m) = m
    /\ Bitmask.intersectBitmasks m (Bitmask.invertMask m) = 0
    /\ Bitmask.mergeBitmasks m (Bitmask.invertMask m) = 2^32 - 1.
Proof.
  intros m Hm. pose proof (complement_range m Hm) as Hc.
  assert (E : Bitmask.invertMask m = 2^32 - 1 - m) by (apply uint_lnot; exact Hm).
  assert (Z0 : Z.land m (2^32 - 1 - m) = 0).
  { apply Z.bits_inj'. intros i Hi. rewrite Z.land_spec, Z.bits_0.
    destruct (Z.ltb_spec i 32) as [L|L].
    - rewrite complement_bits by (assumption || lia). apply andb_negb_r.
    - rewrite (bitflag_high_bits m) by assumption. reflexivity. }
  split; [exact E|]. split.
  { unfold Mask.invertMaskBits. rewrite E, ushr_zero.
    apply toUint32_small. unfold isBitflag in Hc. lia. }
  split; [exact E|]. split; [exact E|]. split.
  { rewrite E. unfold Bitmask.invertMask. rewrite uint_lnot by exact Hc. lia. }
  split.
  - unfold Bitmask.intersectBitmasks. rewrite E, uint_land by assumption. exact Z0.
  - unfold Bitmask.mergeBitmasks. rewrite E, uint_lor by assumption.
    pose proof (Z.add_lor_land m (2^32 - 1 - m)) as S. rewrite Z0 in S. lia.
Qed.

Lemma invertMask_is_the_complement_witness :
  Bitmask.invertMask 0xFFFFFF00 = 2^32 - 1 - 0xFFFFFF00
  /\ Mask.invertMaskBits 0xFFFFFF00 = 2^32 - 1 - 0xFFFFFF00
  /\ Basic.not 0xFFFFFF00 = 2^32 - 1 - 0xFFFFFF00
  /\ Basic.invertBits 0xFFFFFF00 = 2^32 - 1 - 0xFFFFFF00
  /\ Bitmask.invertMask (Bitmask.invertMask 0xFFFFFF00) = 0xFFFFFF00
  /\ Bitmask.intersectBitmasks 0xFFFFFF00 (Bitmask.invertMask 0xFFFFFF00) = 0
  /\ Bitmask.mergeBitmasks 0xFFFFFF00 (Bitmask.invertMask 0xFFFFFF00) = 2^32 - 1.
Proof.
  apply (invertMask_is_the_complement 0xFFFFFF00). unfold isBitflag. lia.
Defined.

(** X12. On bitflags the mask combinators are the bitwise operations on the
    unsigned values: [combineMasks], [Mask.applyMask] and
    [intersectBitmasks] are the AND, [expandMask] and [mergeBitmasks] the
    OR, [getMaskDifference] the XOR.  Hence the union and the intersection
    of two masks add up to the sum of the masks, their difference is the
    union minus the intersection, and the inverse of a union is the
    intersection of the inverses (De Morgan). *)
Theorem mask_combinators_are_bitwise :
  forall a b : Z, isBitflag a -> isBitflag b ->
    Mask.combineMasks a b = Z.land a b
    /\ Mask.applyMask a b = Z.land a b
    /\ Bitmask.intersectBitmasks a b = Z.land a b
    /\ Mask.expandMask a b = Z.lor a b
    /\ Bitmask.mergeBitmasks a b = Z.lor a b
    /\ Mask.getMaskDifference a b = Z.lxor a b
    /\ Mask.expandMask a b + Mask.combineMasks a b = a + b
    /\ Mask.getMaskDifference a b = Mask.expandMask a b - Mask.combineMasks a b
    /\ Bitmask.invertMask (Bitmask.mergeBitmasks a b)
       = Bitmask.intersectBitmasks (Bitmask.invertMask a) (Bitmask.invertMask b).
Proof.
  intros a b Ha Hb.
  assert (C : Mask.combineMasks a b = Z.land a b).
  { unfold Mask.combineMasks, Basic.and. apply uint_land; assumption. }
  assert (E : Mask.expandMask a b = Z.lor a b).
  { unfold Mask.expandMask, Basic.or. apply uint_lor; assumption. }
  assert (D : Mask.getMaskDifference a b = Z.lxor a b).
  { unfold Mask.getMaskDifference, Basic.xor. apply uint_lxor; assumption. }
  split; [exact C|]. split; [exact C|].
  split; [apply uint_land; assumption|].
  split; [exact E|].
  split; [apply uint_lor; assumption|].
  split; [exact D|].
  split; [rewrite C, E; apply Z.add_lor_land|].
  split; [rewrite C, D, E; symmetry; apply Z.sub_lor_land|].
  unfold Bitmask.mergeBitmasks, Bitmask.invertMask at 1.
  rewrite uint_lor by assumption.
  assert (Hor : isBitflag (Z.lor a b)).
  { rewrite <- (uint_lor a b) by assumption. apply ushr_zero_isBitflag. }
  rewrite uint_lnot by exact Hor.
  unfold Bitmask.intersectBitmasks, Bitmask.invertMask.
  rewrite !uint_lnot by assumption.
  rewrite uint_land by (apply complement_range; assumption).
  apply Z.bits_inj'. intros i Hi.
  destruct (Z.ltb_spec i 32) as [L|L].
  - rewrite Z.land_spec, !complement_bits by (assumption || lia).
    rewrite Z.lor_spec. apply negb_orb.
  - rewrite Z.land_spec.
    rewrite !bitflag_high_bits by (try apply complement_range; assumption).
    reflexivity.
Qed.

Lemma mask_combinators_are_bitwise_witness :
  Mask.combineMasks 0xFFFF0000 0x00FFFF00 = Z.land 0xFFFF0000 0x00FFFF00
  /\ Mask.applyMask 0xFFFF0000 0x00FFFF00 = Z.land 0xFFFF0000 0x00FFFF00
  /\ Bitmask.intersectBitmasks 0xFFFF0000 0x00FFFF00 = Z.land 0xFFFF0000 0x00FFFF00
  /\ Mask.expandMask 0xFFFF0000 0x00FFFF00 = Z.lor 0xFFFF0000 0x00FFFF00
  /\ Bitmask.mergeBitmasks 0xFFFF0000 0x00FFFF00 = Z.lor 0xFFFF0000 0x00FFFF00
  /\ Mask.getMaskDifference 0xFFFF0000 0x00FFFF00 = Z.lxor 0xFFFF0000 0x00FFFF00
  /\ Mask.expandMask 0xFFFF0000 0x00FFFF00 + Mask.combineMasks 0xFFFF0000 0x00FFFF00
     = 0xFFFF0000 + 0x00FFFF00
  /\ Mask.getMaskDifference 0xFFFF0000 0x00FFFF00
     = Mask.expandMask 0xFFFF0000 0x00FFFF00 - Mask.combineMasks 0xFFFF0000 0x00FFFF00
  /\ Bitmask.invertMask (Bitmask.mergeBitmasks 0xFFFF0000 0x00FFFF00)
     = Bitmask.intersectBitmasks (Bitmask.invertMask 0xFFFF0000)
                                 (Bitmask.invertMask 0x00FFFF00).
Proof.
  apply (mask_combinators_are_bitwise 0xFFFF0000 0x00FFFF00); unfold isBitflag; lia.
Defined.

End MaskAlgebra.

Section PrefixMasks.
Import JS Spec Checks.

Lemma land_contiguous (p q : Z) :
  0 <= p <= 32 -> 0 <= q <= 32 ->
  Z.land (contiguousMask p) (contiguousMask q) = contiguousMask (Z.min p q).
Proof.
  intros Hp Hq. apply Z.bits_inj'. intros i Hi.
  rewrite Z.land_spec, !contiguousMask_testbit by lia.
  destruct (Z.leb_spec (32 - p) i), (Z.leb_spec (32 - q) i),
           (Z.leb_spec (32 - Z.min p q) i), (Z.ltb_spec i 32);
    cbn [andb]; try reflexivity; lia.
Qed.

Lemma lor_contiguous (p q : Z) :
  0 <= p <= 32 -> 0 <= q <= 32 ->
  Z.lor (contiguousMask p) (contiguousMask q) = contiguousMask (Z.max p q).
Proof.
  intros Hp Hq. apply Z.bits_inj'. intros i Hi.
  rewrite Z.lor_spec, !contiguousMask_testbit by lia.
  destruct (Z.leb_spec (32 - p) i), (Z.leb_spec (32 - q) i),
           (Z.leb_spec (32 - Z.max p q) i), (Z.ltb_spec i 32);
    cbn [andb orb]; try reflexivity; lia.
Qed.

(** X13. Subnet masks are closed under [combineMasks] and [expandMask]: for
    the masks that [createMask] returns for two prefix lengths [p] and [q],
    [combineMasks] is the mask of the shorter prefix and [expandMask] the mask
    of the longer one, so [getMaskPrefix] accepts both results and returns
    the minimum and the maximum of [p] and [q]. *)
Theorem combineMasks_of_prefix_masks :
  forall p q : Z, 0 <= p <= 32 -> 0 <= q <= 32 ->
    exists mp mq,
      Mask.createMask p = OK mp /\ Mask.createMask q = OK mq
      /\ Mask.createMask (Z.min p q) = OK (Mask.combineMasks mp mq)
      /\ Mask.createMask (Z.max p q) = OK (Mask.expandMask mp mq)
      /\ Mask.getMaskPrefix (Mask.combineMasks mp mq) = OK (Z.min p q)
      /\ Mask.getMaskPrefix (Mask.expandMask mp mq) = OK (Z.max p q).
Proof.
  intros p q Hp Hq.
  exists (contiguousMask p), (contiguousMask q).
  pose proof (contiguousMask_range p Hp) as Rp.
  pose proof (contiguousMask_range q Hq) as Rq.
  assert (C : Mask.combineMasks (contiguousMask p) (contiguousMask q)
              = contiguousMask (Z.min p q)).
  { unfold Mask.combineMasks, Basic.and.
    rewrite uint_land by assumption. apply land_contiguous; assumption. }
  assert (E : Mask.expandMask (contiguousMask p) (contiguousMask q)
              = contiguousMask (Z.max p q)).
  { unfold Mask.expandMask, Basic.or.
    rewrite uint_lor by assumption. apply lor_contiguous; assumption. }
  rewrite C, E.
  split; [apply createMask_value; exact Hp|].
  split; [apply createMask_value; exact Hq|].
  split; [apply createMask_value; lia|].
  split; [apply createMask_value; lia|].
  split; apply getMaskPrefix_contiguous; lia.
Qed.

Lemma combineMasks_of_prefix_masks_witness :
  exists mp mq,
    Mask.createMask 24 = OK mp /\ Mask.createMask 16 = OK mq
    /\ Mask.createMask (Z.min 24 16) = OK (Mask.combineMasks mp mq)
    /\ Mask.createMask (Z.max 24 16) = OK (Mask.expandMask mp mq)
    /\ Mask.getMaskPrefix (Mask.combineMasks mp mq) = OK (Z.min 24 16)
    /\ Mask.getMaskPrefix (Mask.expandMask mp mq) = OK (Z.max 24 16).
Proof. apply (combineMasks_of_prefix_masks 24 16); lia. Defined.

Lemma land_small_r (x y : Z) : 0 <= y < 2^31 -> 0 <= Z.land x y < 2^31.
Proof.
  intros Hy.
  assert (E : Z.land x y = Z.land x y mod 2^31).
  { rewrite <- (Z.land_ones (Z.land x y)) by lia.
    rewrite <- Z.land_assoc, (Z.land_ones y) by lia.
    rewrite (Z.mod_small y) by lia. reflexivity. }
  rewrite E. apply Z.mod_pos_bound. lia.
Qed.

Lemma band_small_l (s t : Z) :
  isBitflag s -> s < 2^31 -> band s t = Z.land s t.
Proof.
  intros Hs Hlt. unfold band. unfold isBitflag in Hs.
  rewrite (toInt32_small s) by lia.
  apply Z.bits_inj'. intros i Hi. rewrite !Z.land_spec.
  destruct (Z.ltb_spec i 32) as [L|L].
  - rewrite toInt32_testbit by lia. reflexivity.
  - rewrite (bitflag_high_bits s) by (assumption || lia). reflexivity.
Qed.

(** X14. [isSubsetMask] compares the signed result of [&] with the number
    it was given: on bitflags it answers whether every bit of [subset] is in
    [set] only when bit 31 of [subset] is clear, and answers false for every
    [subset] with bit 31 set, whatever [set] is (also for [set = subset]).  The
    call [isSubsetMask(0xFFFF0000, 0xFFFFFF00)] is an instance. *)
Theorem isSubsetMask_signed_comparison :
  forall s t : Z, isBitflag s -> isBitflag t ->
    Bitmask.isSubsetMask s t = (s <? 2^31) && (Z.land s t =? s)
    /\ (2^31 <= s -> Bitmask.isSubsetMask s s = false)
    /\ Bitmask.isSubsetMask 0xFFFF0000 0xFFFFFF00 = false.
Proof.
  intros s t Hs Ht.
  assert (High : forall u, 2^31 <= s -> Bitmask.isSubsetMask s u = false).
  { intros u Hge. unfold Bitmask.isSubsetMask, band. unfold isBitflag in Hs.
    rewrite (toInt32_high s) by lia.
    destruct (Z_lt_le_dec (toInt32 u) 0) as [N|N].
    - assert (Z.land (s - 2^32) (toInt32 u) < 0) by (apply Z.land_neg; lia).
      lia.
    - pose proof (toInt32_range u).
      pose proof (land_small_r (s - 2^32) (toInt32 u) ltac:(lia)). lia. }
  split; [|split].
  - destruct (Z.ltb_spec s (2^31)) as [L|L]; cbn [andb].
    + unfold Bitmask.isSubsetMask. rewrite band_small_l by assumption. reflexivity.
    + apply High. exact L.
  - intros Hge. apply High. exact Hge.
  - reflexivity.
Qed.

Lemma isSubsetMask_signed_comparison_witness :
  Bitmask.isSubsetMask 0x80000000 0xFFFFFFFF
    = (0x80000000 <? 2^31) && (Z.land 0x80000000 0xFFFFFFFF =? 0x80000000)
  /\ Bitmask.isSubsetMask 0x80000000 0x80000000 = false.
Proof.
  destruct (isSubsetMask_signed_comparison 0x80000000 0xFFFFFFFF
              ltac:(unfold isBitflag; lia) ltac:(unfold isBitflag; lia))
    as (A & B & _).
  split; [exact A | apply B; lia].
Defined.

End PrefixMasks.

Section Classification.
Import JS Spec Checks.
Local Open Scope string_scope.
Local Open Scope Z_scope.

Ltac evaluate_literals :=
  repeat match goal with
  | |- context [Operation.ipToBitflag ?s] =>
      let v := eval vm_compute in (Operation.ipToBitflag s) in
      change (Operation.ipToBitflag s) with v
  | |- context [Parse.parseIPv4 ?s] =>
      let v := eval vm_compute in (Parse.parseIPv4 s) in
      replace (Parse.parseIPv4 s) with v by (vm_compute; reflexivity)
  end.

Ltac ranges_of_blocks n :=
  repeat match goal with
  | |- context [inBlock n ?b ?p] =>
      let lo := eval vm_compute in b in
      let hi := eval vm_compute in (b + 2^(32 - p) - 1) in
      replace (inBlock n b p) with ((lo <=? n) && (n <=? hi))
        by (symmetry; apply (inBlock_range n b p);
            [lia | unfold isBitflag in *; lia | vm_compute; reflexivity])
  end.

Ltac outermost_if :=
  repeat match goal with
  | |- (if ?c then _ else _) = _ => destruct c eqn:?
  | |- _ = (if ?c then _ else _) => destruct c eqn:?
  end.

Lemma applyMask_literal (n m p : Z) :
  isBitflag n -> 0 <= p <= 32 -> m = contiguousMask p ->
  Bitmask.applyMask n m = maskedTo n p.
Proof. intros Hn Hp ->. apply applyMask_contiguous; assumption. Qed.

Lemma classify_isPrivateIP_value (n : Z) :
  isBitflag n ->
  Classify.isPrivateIP n
  = OK (((167772160 <=? n) && (n <=? 184549375))
        || ((2886729728 <=? n) && (n <=? 2887778303))
        || ((3232235520 <=? n) && (n <=? 3232301055))).
Proof.
  intros Hn. unfold Classify.isPrivateIP. evaluate_literals.
  rewrite !bind_OK.
  rewrite (applyMask_literal n 4278190080 8), (applyMask_literal n 4294901760 16)
    by (assumption || lia || reflexivity).
  change (maskedTo n 8 =? 167772160) with (inBlock n 167772160 8).
  change (maskedTo n 16 =? 3232235520) with (inBlock n 3232235520 16).
  ranges_of_blocks n.
  outermost_if; f_equal; lia.
Qed.

Lemma classify_isLoopbackIP_value (n : Z) :
  isBitflag n ->
  Classify.isLoopbackIP n = OK ((2130706432 <=? n) && (n <=? 2147483647)).
Proof.
  intros Hn. unfold Classify.isLoopbackIP.
  rewrite generateBitmask_value, bind_OK, applyMask_contiguous by (assumption || lia).
  change (shl 127 24) with 2130706432.
  change (maskedTo n 8 =? 2130706432) with (inBlock n 2130706432 8).
  ranges_of_blocks n. reflexivity.
Qed.

Lemma classify_isLinkLocalIP_value (n : Z) :
  isBitflag n ->
  Classify.isLinkLocalIP n = OK ((2851995648 <=? n) && (n <=? 2852061183)).
Proof.
  intros Hn. unfold Classify.isLinkLocalIP. cbv zeta.
  rewrite generateBitmask_value, bind_OK, applyMask_contiguous by (assumption || lia).
  change (maskedTo n 16 =? 2851995648) with (inBlock n 2851995648 16).
  ranges_of_blocks n. reflexivity.
Qed.

Lemma classify_isMulticastIP_value (n : Z) :
  isBitflag n ->
  Classify.isMulticastIP n = OK ((3758096384 <=? n) && (n <=? 4026531839)).
Proof.
  intros Hn. rewrite isMulticastIP_value by exact Hn.
  change (maskedTo n 4 =? 3758096384) with (inBlock n 3758096384 4).
  ranges_of_blocks n. reflexivity.
Qed.

(** X15. The predicates of classify.ts on bitflags and the predicates of
    special.ts on address strings decide the same sets: for every bitflag,
    [isPrivateIP], [isLoopbackIP], [isLinkLocalIP], [isMulticastIP] and
    [isBroadcastIP] of classify.ts return what the function of the same name
    in special.ts returns on the formatted address. *)
Theorem classify_agrees_with_special :
  forall n : Z, isBitflag n ->
    let ip := Parse.formatIPv4 n in
    Classify.isPrivateIP n = OK (Special.isPrivateIP ip)
    /\ Classify.isLoopbackIP n = OK (Special.isLoopbackIP ip)
    /\ Classify.isLinkLocalIP n = OK (Special.isLinkLocalIP ip)
    /\ Classify.isMulticastIP n = OK (Special.isMulticastIP ip)
    /\ Classify.isBroadcastIP n = Special.isBroadcastIP ip.
Proof.
  intros n Hn ip. subst ip.
  rewrite classify_isPrivateIP_value, classify_isLoopbackIP_value,
    classify_isLinkLocalIP_value, classify_isMulticastIP_value by exact Hn.
  unfold Special.isPrivateIP, Special.isLoopbackIP, Special.isLinkLocalIP,
    Special.isMulticastIP, Special.PRIVATE_RANGES, Special.LOOPBACK_RANGE,
    Special.LINK_LOCAL_RANGE, Special.MULTICAST_RANGE.
  cbn [existsb].
  rewrite !inRange_value by exact Hn.
  rewrite isBroadcastIP_value by exact Hn.
  evaluate_literals.
  rewrite orb_false_r, orb_assoc.
  split; [reflexivity|]. split; [reflexivity|]. split; [reflexivity|].
  split; reflexivity.
Qed.

Lemma classify_agrees_with_special_witness :
  let ip := Parse.formatIPv4 0xC0A80101 in
  Classify.isPrivateIP 0xC0A80101 = OK (Special.isPrivateIP ip)
  /\ Classify.isLoopbackIP 0xC0A80101 = OK (Special.isLoopbackIP ip)
  /\ Classify.isLinkLocalIP 0xC0A80101 = OK (Special.isLinkLocalIP ip)
  /\ Classify.isMulticastIP 0xC0A80101 = OK (Special.isMulticastIP ip)
  /\ Classify.isBroadcastIP 0xC0A80101 = Special.isBroadcastIP ip.
Proof.
  apply (classify_agrees_with_special 0xC0A80101). unfold isBitflag. lia.
Defined.

Lemma isGloballyRoutableIP_value (n : Z) :
  isBitflag n ->
  Classify.isGloballyRoutableIP n
  = OK (negb (((167772160 <=? n) && (n <=? 184549375))
              || ((2886729728 <=? n) && (n <=? 2887778303))
              || ((3232235520 <=? n) && (n <=? 3232301055))
              || ((2130706432 <=? n) && (n <=? 2147483647))
              || ((2851995648 <=? n) && (n <=? 2852061183))
              || ((3758096384 <=? n) && (n <=? 4294967295))
              || (n <=? 16777215)
              || ((1681915904 <=? n) && (n <=? 1686110207)))).
Proof.
  intros Hn. unfold Classify.isGloballyRoutableIP.
  rewrite classify_isPrivateIP_value, classify_isLoopbackIP_value,
    classify_isLinkLocalIP_value, classify_isMulticastIP_value by exact Hn.
  rewrite !bind_OK. unfold Classify.isBroadcastIP, Classify.IPV4_MAX_ADDRESS.
  unfold isBitflag in Hn. change (2^32) with 4294967296 in Hn.
  outermost_if; f_equal; lia.
Qed.

Lemma routable_types (n : Z) (t : string) :
  isBitflag n -> specialTypeOf n = t ->
  String.eqb t "Public" || String.eqb t "Documentation" || String.eqb t "Benchmarking"
  = negb (((167772160 <=? n) && (n <=? 184549375))
          || ((2886729728 <=? n) && (n <=? 2887778303))
          || ((3232235520 <=? n) && (n <=? 3232301055))
          || ((2130706432 <=? n) && (n <=? 2147483647))
          || ((2851995648 <=? n) && (n <=? 2852061183))
          || ((3758096384 <=? n) && (n <=? 4294967295))
          || (n <=? 16777215)
          || ((1681915904 <=? n) && (n <=? 1686110207))).
Proof.
  intros Hn. unfold specialTypeOf.
  ranges_of_blocks n.
  change (ipv4 255 255 255 255) with 4294967295.
  unfold isBitflag in Hn. change (2^32) with 4294967296 in Hn.
  repeat match goal with
  | |- (if ?c then _ else _) = _ -> _ => destruct c eqn:?
  end;
  intros <-; cbv [String.eqb Ascii.eqb Bool.eqb]; lia.
Qed.

(** X16. [isGloballyRoutableIP] of classify.ts and [getSpecialIPType] of
    special.ts: a bitflag is globally routable exactly when the category of
    its formatted address is Public, Documentation or Benchmarking.  So
    every address for which [isGlobalUnicastIP] holds is globally routable,
    and the documentation and benchmarking ranges are globally routable
    without being global unicast. *)
Theorem isGloballyRoutableIP_by_category :
  forall n : Z, isBitflag n ->
    let t := Special.getSpecialIPType (Parse.formatIPv4 n) in
    Classify.isGloballyRoutableIP n
    = OK (String.eqb t "Public" || String.eqb t "Documentation"
          || String.eqb t "Benchmarking")
    /\ (Special.isGlobalUnicastIP (Parse.formatIPv4 n) = true ->
        Classify.isGloballyRoutableIP n = OK true).
Proof.
  intros n Hn t.
  assert (E : Classify.isGloballyRoutableIP n
              = OK (String.eqb t "Public" || String.eqb t "Documentation"
                    || String.eqb t "Benchmarking")).
  { rewrite isGloballyRoutableIP_value by exact Hn. f_equal. symmetry.
    apply (routable_types n t Hn). subst t. symmetry.
    apply getSpecialIPType_value. exact Hn. }
  split; [exact E|].
  unfold Special.isGlobalUnicastIP. fold t. intros P. rewrite E, P. reflexivity.
Qed.

Lemma isGloballyRoutableIP_by_category_witness :
  Classify.isGloballyRoutableIP 0x08080808 = OK true.
Proof.
  apply (isGloballyRoutableIP_by_category 0x08080808).
  - unfold isBitflag. lia.
  - reflexivity.
Defined.

Lemma first_octet_range (n : Z) : isBitflag n -> 0 <= n / 2^24 <= 255.
Proof.
  intros Hn. unfold isBitflag in Hn. change (2^32) with 4294967296 in Hn.
  change (2^24) with 16777216. split.
  - apply Z.div_pos; lia.
  - apply Z.lt_succ_r. apply Z.div_lt_upper_bound; lia.
Qed.

Lemma getIPClass_value (n : Z) :
  isBitflag n ->
  Classify.getIPClass n
  = OK (let o := n / 2^24 in
        if o <? 128 then "A" else if o <? 192 then "B"
        else if o <? 224 then "C" else if o <? 240 then "D" else "E").
Proof.
  intros Hn. unfold Classify.getIPClass.
  rewrite extractBits_ok by (assumption || lia).
  change (31 - 24 + 1) with 8.
  pose proof (first_octet_range n Hn) as Ho.
  rewrite (Z.mod_small (n / 2^24)) by (change (2^8) with 256; lia).
  rewrite bind_OK. cbv zeta.
  outermost_if; reflexivity.
Qed.

Lemma isClassfulNetwork_value (n : Z) :
  isBitflag n ->
  Classful.isClassfulNetwork (Parse.formatIPv4 n)
  = OK (let o := n / 2^24 in
        if o <? 128 then "A" else if o <? 192 then "B"
        else if o <? 224 then "C" else if o <? 240 then "D" else "E").
Proof.
  intros Hn. unfold Classful.isClassfulNetwork, OctetIP.getOctetFromIP.
  change ((0 <? 0) || (0 >? 3)) with false. cbv iota zeta.
  rewrite ipToBitflag_formatIPv4, extractOctet_first by exact Hn.
  rewrite bind_OK.
  pose proof (first_octet_range n Hn) as Ho.
  generalize dependent (n / 2^24). intros o Ho.
  repeat match goal with
  | |- (if ?c then _ else _) = _ => destruct c eqn:?
  | |- _ = OK (if ?c then _ else _) => destruct c eqn:?
  end; try reflexivity; exfalso; lia.
Qed.

(** X17. The address class is decided by the first octet, and the two
    implementations agree: for every bitflag, [getIPClass] of classify.ts
    and [isClassfulNetwork] of operation.ts (on the formatted address)
    return the same class among A, B, C, D and E, so the 'Unknown' answer of
    [isClassfulNetwork] is never given.  [getDefaultSubnetMask] returns the
    /8, /16 and /24 masks for the classes A, B and C and raises for every
    address whose first octet is 224 or more. *)
Theorem address_class_by_first_octet :
  forall n : Z, isBitflag n ->
    let ip := Parse.formatIPv4 n in
    let o := n / 2^24 in
    Classful.isClassfulNetwork ip = Classify.getIPClass n
    /\ Classful.isClassfulNetwork ip <> OK "Unknown"
    /\ (o < 128 ->
        Classful.getDefaultSubnetMask ip = OK (Parse.formatIPv4 (contiguousMask 8)))
    /\ (128 <= o < 192 ->
        Classful.getDefaultSubnetMask ip = OK (Parse.formatIPv4 (contiguousMask 16)))
    /\ (192 <= o < 224 ->
        Classful.getDefaultSubnetMask ip = OK (Parse.formatIPv4 (contiguousMask 24)))
    /\ (224 <= o -> throws (Classful.getDefaultSubnetMask ip)).
Proof.
  intros n Hn ip o. subst ip.
  pose proof (isClassfulNetwork_value n Hn) as C. cbv zeta in C. fold o in C.
  pose proof (getIPClass_value n Hn) as G. cbv zeta in G. fold o in G.
  clearbody o.
  split; [|split; [|split; [|split; [|split]]]].
  - rewrite G. exact C.
  - rewrite C.
    destruct (o <? 128); [discriminate|]. destruct (o <? 192); [discriminate|].
    destruct (o <? 224); [discriminate|]. destruct (o <? 240); discriminate.
  - intros H. unfold Classful.getDefaultSubnetMask. rewrite C.
    replace (o <? 128) with true by lia. reflexivity.
  - intros H. unfold Classful.getDefaultSubnetMask. rewrite C.
    replace (o <? 128) with false by lia. replace (o <? 192) with true by lia.
    reflexivity.
  - intros H. unfold Classful.getDefaultSubnetMask. rewrite C.
    replace (o <? 128) with false by lia. replace (o <? 192) with false by lia.
    replace (o <? 224) with true by lia. reflexivity.
  - intros H. unfold Classful.getDefaultSubnetMask. rewrite C.
    replace (o <? 128) with false by lia. replace (o <? 192) with false by lia.
    replace (o <? 224) with false by lia.
    destruct (o <? 240); eexists; reflexivity.
Qed.

Lemma address_class_by_first_octet_witness :
  Classful.getDefaultSubnetMask (Parse.formatIPv4 0xAC100001)
  = OK (Parse.formatIPv4 (contiguousMask 16))
  /\ throws (Classful.getDefaultSubnetMask (Parse.formatIPv4 0xE0000001)).
Proof.
  destruct (address_class_by_first_octet 0xAC100001 ltac:(unfold isBitflag; lia))
    as (_ & _ & _ & B & _).
  destruct (address_class_by_first_octet 0xE0000001 ltac:(unfold isBitflag; lia))
    as (_ & _ & _ & _ & _ & T).
  split.
  - apply B. vm_compute. split; [discriminate | reflexivity].
  - apply T. vm_compute. discriminate.
Defined.

Lemma shifted_maskedIs_value (n bits prefix : Z) :
  isBitflag n -> 0 <= bits <= 32 ->
  ClassifyShifted.maskedIs n bits prefix = OK (maskedTo n bits =? prefix).
Proof.
  intros Hn Hb. unfold ClassifyShifted.maskedIs.
  rewrite generateBitmask_value, bind_OK, applyMask_contiguous by assumption.
  reflexivity.
Qed.

Lemma maskedTo_never_negative (n p v : Z) :
  isBitflag n -> 0 <= p <= 32 -> v < 0 -> (maskedTo n p =? v) = false.
Proof.
  intros Hn Hp Hv. unfold isBitflag in Hn.
  pose proof (maskedTo_bounds n p Hp ltac:(lia)) as [[B _] _]. lia.
Qed.

(** X18. The earlier classify.ts writes its range constants with [<<] and
    [|], which are signed: [172 << 24 | 16 << 16], [192 << 24 | 168 << 16] and
    [169 << 24 | 254 << 16] are negative, and the unsigned result of
    [applyMask] never equals them.  So on every bitflag that version's
    [isPrivateIP] recognises 10.0.0.0/8 only and its [isLinkLocalIP] is always
    false, while its [isLoopbackIP] and [isMulticastIP] agree with the later
    classify.ts. *)
Theorem shifted_constants_are_signed :
  forall n : Z, isBitflag n ->
    ClassifyShifted.isPrivateIP n = OK (inBlock n (ipv4 10 0 0 0) 8)
    /\ ClassifyShifted.isLinkLocalIP n = OK false
    /\ ClassifyShifted.isLoopbackIP n = Classify.isLoopbackIP n
    /\ ClassifyShifted.isMulticastIP n = Classify.isMulticastIP n
    /\ (inBlock n (ipv4 172 16 0 0) 12 || inBlock n (ipv4 192 168 0 0) 16 = true ->
        ClassifyShifted.isPrivateIP n = OK false
        /\ Classify.isPrivateIP n = OK true)
    /\ (inBlock n (ipv4 169 254 0 0) 16 = true ->
        Classify.isLinkLocalIP n = OK true).
Proof.
  intros n Hn.
  assert (P : ClassifyShifted.isPrivateIP n = OK (inBlock n (ipv4 10 0 0 0) 8)).
  { unfold ClassifyShifted.isPrivateIP.
    rewrite !shifted_maskedIs_value by (assumption || lia). rewrite !bind_OK.
    change (shl 10 24) with 167772160.
    change (bor (shl 172 24) (shl 16 16)) with (-1408237568).
    change (bor (shl 192 24) (shl 168 16)) with (-1062731776).
    rewrite (maskedTo_never_negative n 12 (-1408237568)),
      (maskedTo_never_negative n 16 (-1062731776)) by (assumption || lia).
    rewrite !orb_false_r. reflexivity. }
  split; [exact P|]. split; [|split; [|split; [|split]]].
  - unfold ClassifyShifted.isLinkLocalIP.
    rewrite shifted_maskedIs_value by (assumption || lia).
    change (bor (shl 169 24) (shl 254 16)) with (-1442971648).
    rewrite maskedTo_never_negative by (assumption || lia). reflexivity.
  - unfold ClassifyShifted.isLoopbackIP, Classify.isLoopbackIP.
    rewrite shifted_maskedIs_value by (assumption || lia).
    rewrite generateBitmask_value, bind_OK, applyMask_contiguous by (assumption || lia).
    reflexivity.
  - rewrite classify_isMulticastIP_value by exact Hn.
    unfold ClassifyShifted.isMulticastIP.
    rewrite extractBits_ok by (assumption || lia).
    change (31 - 24 + 1) with 8.
    pose proof (first_octet_range n Hn) as Ho.
    rewrite (Z.mod_small (n / 2^24)) by (change (2^8) with 256; lia).
    rewrite bind_OK. f_equal.
    unfold isBitflag in Hn. change (2^32) with 4294967296 in Hn.
    change (2^24) with 16777216 in *.
    assert (D : n = 16777216 * (n / 16777216) + n mod 16777216)
      by (apply Z.div_mod; lia).
    pose proof (Z.mod_pos_bound n 16777216 ltac:(lia)) as M.
    generalize dependent (n / 16777216). intros o Ho D.
    generalize dependent (n mod 16777216). intros r D M.
    lia.
  - rewrite P, classify_isPrivateIP_value by exact Hn.
    ranges_of_blocks n. intros H. split; f_equal; lia.
  - rewrite classify_isLinkLocalIP_value by exact Hn.
    ranges_of_blocks n. intros H. f_equal. lia.
Qed.

Lemma shifted_constants_are_signed_witness :
  ClassifyShifted.isPrivateIP 0xC0A80101 = OK false
  /\ Classify.isPrivateIP 0xC0A80101 = OK true.
Proof.
  apply (shifted_constants_are_signed 0xC0A80101).
  - unfold isBitflag. lia.
  - reflexivity.
Defined.

End Classification.

Section SignedWords.
Import JS Spec Checks.

Lemma toInt32_fixed (x : Z) : - 2^31 <= x < 2^31 -> toInt32 x = x.
Proof.
  intros Hx. destruct (Z_lt_le_dec x 0) as [N|N].
  - unfold toInt32. change (2^31) with 2147483648 in *.
    change (2^32) with 4294967296.
    replace (x mod 4294967296) with (x + 4294967296)
      by (apply (Z.mod_unique x 4294967296 (-1)); lia).
    cbv zeta. replace (2147483648 <=? x + 4294967296) with true by lia. lia.
  - apply toInt32_small. lia.
Qed.

Lemma int32_high_bits (x i : Z) :
  - 2^31 <= x < 2^31 -> 31 <= i -> Z.testbit x i = Z.testbit x 31.
Proof.
  intros Hx Hi. destruct (Z_lt_le_dec x 0) as [N|N].
  - assert (B : 0 <= Z.lnot x < 2^31) by (unfold Z.lnot; lia).
    rewrite <- (Z.lnot_involutive x), !(Z.lnot_spec (Z.lnot x)) by lia.
    rewrite !(small_high_bits (Z.lnot x) 31) by lia. reflexivity.
  - rewrite !(small_high_bits x 31) by lia. reflexivity.
Qed.

Lemma nonneg_from_bits (y : Z) :
  (forall i, 31 <= i -> Z.testbit y i = false) -> 0 <= y < 2^31.
Proof.
  intros H. assert (E : y = y mod 2^31).
  { apply Z.bits_inj'. intros i Hi. rewrite Z.testbit_mod_pow2 by lia.
    destruct (Z.ltb_spec i 31); cbn [andb]; [reflexivity | apply H; lia]. }
  rewrite E. apply Z.mod_pos_bound. lia.
Qed.

Lemma int32_from_bits (y : Z) :
  (forall i, 31 <= i -> Z.testbit y i = Z.testbit y 31) -> - 2^31 <= y < 2^31.
Proof.
  intros H. destruct (Z.testbit y 31) eqn:S.
  - assert (B : 0 <= Z.lnot y < 2^31).
    { apply nonneg_from_bits. intros i Hi. rewrite Z.lnot_spec, H by lia. reflexivity. }
    unfold Z.lnot in B. lia.
  - pose proof (nonneg_from_bits y H). lia.
Qed.

Lemma band_range (a b : Z) : - 2^31 <= band a b < 2^31.
Proof.
  apply int32_from_bits. intros i Hi. unfold band. rewrite !Z.land_spec.
  rewrite (int32_high_bits (toInt32 a) i), (int32_high_bits (toInt32 b) i)
    by (apply toInt32_range || lia).
  reflexivity.
Qed.

Lemma bor_range (a b : Z) : - 2^31 <= bor a b < 2^31.
Proof.
  apply int32_from_bits. intros i Hi. unfold bor. rewrite !Z.lor_spec.
  rewrite (int32_high_bits (toInt32 a) i), (int32_high_bits (toInt32 b) i)
    by (apply toInt32_range || lia).
  reflexivity.
Qed.

Lemma bxor_range (a b : Z) : - 2^31 <= bxor a b < 2^31.
Proof.
  apply int32_from_bits. intros i Hi. unfold bxor. rewrite !Z.lxor_spec.
  rewrite (int32_high_bits (toInt32 a) i), (int32_high_bits (toInt32 b) i)
    by (apply toInt32_range || lia).
  reflexivity.
Qed.

(** A signed 32-bit integer is the [ToInt32] of any integer with the same
    32 low bits. *)
Lemma signed_eq_bits (x y : Z) :
  - 2^31 <= x < 2^31 ->
  (forall i, 0 <= i < 32 -> Z.testbit x i = Z.testbit y i) ->
  x = toInt32 y.
Proof.
  intros Hx Hb. rewrite <- (toInt32_fixed x Hx). apply toInt32_congr.
  apply (toUint32_ext x y Hb).
Qed.

Lemma bitflag_of_bit31 (y : Z) :
  isBitflag y -> Z.testbit y 31 = true -> 2^31 <= y.
Proof.
  intros Hy Hb. unfold isBitflag in Hy.
  destruct (Z_lt_le_dec y (2^31)) as [L|L]; [|exact L].
  rewrite (small_high_bits y 31 31) in Hb by lia. discriminate.
Qed.

Lemma shl_1_testbit (p i : Z) :
  0 <= p <= 31 -> 0 <= i < 32 -> Z.testbit (shl 1 p) i = (p =? i).
Proof.
  intros Hp Hi. unfold shl. rewrite shiftCount_small by lia.
  change (toInt32 1) with 1.
  rewrite toInt32_testbit, Z.shiftl_1_l by lia. apply Z.pow2_bits_eqb. lia.
Qed.

Lemma land_1 (x : Z) : Z.land x 1 = Z.b2z (Z.testbit x 0).
Proof. rewrite Z.bit0_mod. exact (Z.land_ones x 1 ltac:(lia)). Qed.

Lemma pow2_bitflag (p : Z) : 0 <= p <= 31 -> isBitflag (2^p).
Proof.
  intros Hp. unfold isBitflag.
  assert (2^p < 2^32) by (apply Z.pow_lt_mono_r; lia).
  assert (0 < 2^p) by (apply Z.pow_pos_nonneg; lia). lia.
Qed.

Lemma getBit_value (n p : Z) :
  0 <= p <= 31 -> isBitflag n -> Basic.getBit n p = OK (Z.b2z (Z.testbit n p)).
Proof.
  intros Hp Hn. unfold Basic.getBit.
  replace ((p <? 0) || (p >? 31)) with false by lia.
  f_equal. unfold band. change (toInt32 1) with 1.
  rewrite land_1, toInt32_testbit by lia.
  unfold ushr. rewrite shiftCount_small by lia.
  unfold isBitflag in Hn. rewrite toUint32_small by lia.
  rewrite Z.shiftr_spec by lia. reflexivity.
Qed.

Lemma setBit_true_value (n p : Z) :
  0 <= p <= 31 -> isBitflag n -> Basic.setBit n p true = OK (Z.lor n (2^p)).
Proof.
  intros Hp Hn. unfold Basic.setBit.
  replace ((p <? 0) || (p >? 31)) with false by lia.
  f_equal. rewrite ushr_zero. apply uint_eq_bits.
  - intros i Hi. unfold bor.
    rewrite !Z.lor_spec, !toInt32_testbit, shl_1_testbit by lia.
    rewrite Z.pow2_bits_eqb by lia. reflexivity.
  - intros i Hi. rewrite Z.lor_spec.
    rewrite (bitflag_high_bits n), (bitflag_high_bits (2^p))
      by (assumption || apply pow2_bitflag; lia).
    reflexivity.
Qed.

Lemma cleared_bits (n p i : Z) :
  0 <= p <= 31 -> 0 <= i < 32 ->
  Z.testbit (band n (bnot (shl 1 p))) i = Z.testbit (Z.ldiff n (2^p)) i.
Proof.
  intros Hp Hi. unfold band, bnot.
  rewrite Z.land_spec, !toInt32_testbit, Z.lnot_spec, toInt32_testbit by lia.
  rewrite shl_1_testbit by lia.
  rewrite Z.ldiff_spec, Z.pow2_bits_eqb by lia. reflexivity.
Qed.

Lemma setBit_false_value (n p : Z) :
  0 <= p <= 31 -> isBitflag n -> Basic.setBit n p false = OK (Z.ldiff n (2^p)).
Proof.
  intros Hp Hn. unfold Basic.setBit.
  replace ((p <? 0) || (p >? 31)) with false by lia.
  f_equal. rewrite ushr_zero. apply uint_eq_bits.
  - intros i Hi. apply cleared_bits; lia.
  - intros i Hi. rewrite Z.ldiff_spec, (bitflag_high_bits n) by assumption.
    reflexivity.
Qed.

Lemma clearBit_value (n p : Z) :
  0 <= p <= 31 -> Basic.clearBit n p = OK (toInt32 (Z.ldiff n (2^p))).
Proof.
  intros Hp. unfold Basic.clearBit.
  replace ((p <? 0) || (p >? 31)) with false by lia.
  f_equal. apply signed_eq_bits; [apply band_range|].
  intros i Hi. apply cleared_bits; lia.
Qed.

Lemma toggleBit_value (n p : Z) :
  0 <= p <= 31 -> Basic.toggleBit n p = OK (toInt32 (Z.lxor n (2^p))).
Proof.
  intros Hp. unfold Basic.toggleBit.
  replace ((p <? 0) || (p >? 31)) with false by lia.
  f_equal. apply signed_eq_bits; [apply bxor_range|].
  intros i Hi. unfold bxor.
  rewrite !Z.lxor_spec, !toInt32_testbit, shl_1_testbit by lia.
  rewrite Z.pow2_bits_eqb by lia. reflexivity.
Qed.

(** X19. The single-bit functions of basic.ts on a bitflag [n] and a
    position [p] in [0,31]: [getBit] returns bit [p] of [n]; [setBit] returns
    the bitflag [n] with bit [p] set or cleared, so [getBit] reads back the
    value that [setBit] wrote; [clearBit] and [toggleBit] compute the cleared
    and the toggled word but return it as a signed 32-bit integer, which is
    negative whenever bit 31 of the result is set (so clearing a bit other
    than bit 31 of a bitflag that is at least [2^31] gives a negative number).
    All four raise for a position outside [0,31]. *)
Theorem single_bit_functions :
  forall n p : Z, isBitflag n ->
    (0 <= p <= 31 ->
       Basic.getBit n p = OK (Z.b2z (Z.testbit n p))
       /\ Basic.setBit n p true = OK (Z.lor n (2^p))
       /\ Basic.setBit n p false = OK (Z.ldiff n (2^p))
       /\ (forall v, exists r, Basic.setBit n p v = OK r /\ isBitflag r
                               /\ Basic.getBit r p = OK (Z.b2z v))
       /\ Basic.clearBit n p = OK (toInt32 (Z.ldiff n (2^p)))
       /\ Basic.toggleBit n p = OK (toInt32 (Z.lxor n (2^p)))
       /\ (2^31 <= n -> p < 31 ->
           exists r, Basic.clearBit n p = OK r /\ r < 0
                     /\ Basic.setBit n p false = OK (r + 2^32)))
    /\ (p < 0 \/ 31 < p ->
        throws (Basic.getBit n p) /\ (forall v, throws (Basic.setBit n p v))
        /\ throws (Basic.clearBit n p) /\ throws (Basic.toggleBit n p)).
Proof.
  intros n p Hn. split.
  - intros Hp.
    assert (R : forall v, exists r, Basic.setBit n p v = OK r /\ isBitflag r).
    { intros v. unfold Basic.setBit.
      replace ((p <? 0) || (p >? 31)) with false by lia.
      eexists. split; [reflexivity | apply ushr_zero_isBitflag]. }
    split; [apply getBit_value; assumption|].
    split; [apply setBit_true_value; assumption|].
    split; [apply setBit_false_value; assumption|].
    split.
    { intros v. destruct (R v) as (r & E & Hr). exists r.
      split; [exact E|]. split; [exact Hr|].
      rewrite getBit_value by assumption. do 2 f_equal.
      destruct v.
      - rewrite setBit_true_value in E by assumption. injection E as <-.
        rewrite Z.lor_spec, Z.pow2_bits_eqb, Z.eqb_refl by lia. apply orb_true_r.
      - rewrite setBit_false_value in E by assumption. injection E as <-.
        rewrite Z.ldiff_spec, Z.pow2_bits_eqb, Z.eqb_refl by lia. apply andb_false_r. }
    split; [apply clearBit_value; assumption|].
    split; [apply toggleBit_value; assumption|].
    intros Hhi Hlt.
    destruct (R false) as (r & E & Hr).
    rewrite setBit_false_value in E by assumption. injection E as E.
    rewrite clearBit_value, setBit_false_value by assumption.
    rewrite E in *.
    assert (B : Z.testbit r 31 = true).
    { rewrite <- E, Z.ldiff_spec, Z.pow2_bits_eqb by lia.
      replace (p =? 31) with false by lia.
      unfold isBitflag in Hn.
      destruct (Z.testbit n 31) eqn:T; [reflexivity|].
      exfalso.
      assert (n = n mod 2^31).
      { apply Z.bits_inj'. intros i Hi. rewrite Z.testbit_mod_pow2 by lia.
        destruct (Z.ltb_spec i 31) as [L|L]; cbn [andb]; [reflexivity|].
        destruct (Z.eq_dec i 31) as [->|Q]; [exact T|].
        apply bitflag_high_bits; [unfold isBitflag|]; lia. }
      pose proof (Z.mod_pos_bound n (2^31) ltac:(lia)). lia. }
    pose proof (bitflag_of_bit31 r Hr B) as G. unfold isBitflag in Hr.
    exists (toInt32 r). split; [reflexivity|].
    rewrite toInt32_high by lia.
    split; [lia | f_equal; lia].
  - intros Hp.
    unfold Basic.getBit, Basic.setBit, Basic.clearBit, Basic.toggleBit.
    replace ((p <? 0) || (p >? 31)) with true by lia.
    split; [eexists; reflexivity|]. split; [intros v; eexists; reflexivity|].
    split; eexists; reflexivity.
Qed.

Lemma single_bit_functions_witness :
  (exists r, Basic.clearBit 0x80000001 0 = OK r /\ r < 0
             /\ Basic.setBit 0x80000001 0 false = OK (r + 2^32))
  /\ throws (Basic.getBit 0x80000001 32).
Proof.
  destruct (single_bit_functions 0x80000001 0 ltac:(unfold isBitflag; lia))
    as (A & _).
  destruct (single_bit_functions 0x80000001 32 ltac:(unfold isBitflag; lia))
    as (_ & B).
  split.
  - apply A; lia.
  - apply B. lia.
Defined.

(** X20. The shifts of basic.ts on a bitflag [n] and a count [p] in
    [0,31]: [leftShift] returns [n * 2^p] reduced modulo [2^32]; the logical
    [rightShift] returns the quotient [n / 2^p]; the arithmetic [rightShift]
    first reads [n] as a signed 32-bit integer, so for [n >= 2^31] it returns
    the negative number [(n - 2^32) / 2^p] (rounded down).  Both raise for a
    count outside [0,31]. *)
Theorem shifts_on_bitflags :
  forall n p : Z, isBitflag n ->
    (0 <= p <= 31 ->
       Basic.leftShift n p = OK ((n * 2^p) mod 2^32)
       /\ Basic.rightShift n p false = OK (n / 2^p)
       /\ Basic.rightShift n p true = OK (toInt32 n / 2^p)
       /\ (2^31 <= n -> Basic.rightShift n p true = OK ((n - 2^32) / 2^p)))
    /\ (p < 0 \/ 31 < p ->
        throws (Basic.leftShift n p)
        /\ forall b, throws (Basic.rightShift n p b)).
Proof.
  intros n p Hn. split.
  - intros Hp.
    assert (Z0 : bor n 0 = toInt32 n).
    { unfold bor. change (toInt32 0) with 0. apply Z.lor_0_r. }
    assert (A : Basic.rightShift n p true = OK (toInt32 n / 2^p)).
    { unfold Basic.rightShift.
      replace ((p <? 0) || (p >? 31)) with false by lia.
      cbv zeta. rewrite Z0. unfold sar.
      rewrite toInt32_idempotent, shiftCount_small by lia.
      rewrite Z.shiftr_div_pow2 by lia. reflexivity. }
    split; [|split; [|split]].
    + unfold Basic.leftShift.
      replace ((p <? 0) || (p >? 31)) with false by lia.
      cbv zeta. rewrite Z0, ushr_zero. f_equal.
      unfold shl. rewrite toInt32_idempotent, toUint32_toInt32.
      rewrite shiftCount_small by lia.
      rewrite Z.shiftl_mul_pow2 by lia. unfold toUint32.
      rewrite <- Z.mul_mod_idemp_l by lia.
      change (toInt32 n mod 2^32) with (toUint32 (toInt32 n)).
      rewrite toUint32_toInt32. unfold toUint32.
      rewrite Z.mul_mod_idemp_l by lia. reflexivity.
    + unfold Basic.rightShift.
      replace ((p <? 0) || (p >? 31)) with false by lia.
      cbv zeta. rewrite Z0. unfold ushr.
      rewrite toUint32_toInt32, shiftCount_small by lia.
      unfold isBitflag in Hn. rewrite toUint32_small by lia.
      rewrite Z.shiftr_div_pow2 by lia. reflexivity.
    + exact A.
    + intros Hhi. rewrite A. unfold isBitflag in Hn.
      rewrite toInt32_high by lia. reflexivity.
  - intros Hp. unfold Basic.leftShift, Basic.rightShift.
    replace ((p <? 0) || (p >? 31)) with true by lia.
    split; [eexists; reflexivity | intros b; eexists; reflexivity].
Qed.

Lemma shifts_on_bitflags_witness :
  (Basic.leftShift 0xC0A80101 8 = OK ((0xC0A80101 * 2^8) mod 2^32)
   /\ Basic.rightShift 0xC0A80101 8 false = OK (0xC0A80101 / 2^8)
   /\ Basic.rightShift 0xC0A80101 8 true = OK (toInt32 0xC0A80101 / 2^8)
   /\ (2^31 <= 0xC0A80101 ->
       Basic.rightShift 0xC0A80101 8 true = OK ((0xC0A80101 - 2^32) / 2^8)))
  /\ throws (Basic.leftShift 0xC0A80101 32).
Proof.
  destruct (shifts_on_bitflags 0xC0A80101 8 ltac:(unfold isBitflag; lia))
    as (A & _).
  destruct (shifts_on_bitflags 0xC0A80101 32 ltac:(unfold isBitflag; lia))
    as (_ & B).
  split.
  - apply A; lia.
  - apply B. lia.
Defined.

Lemma min_value (a b : Z) : Basic.min a b = toInt32 (Z.min a b).
Proof.
  unfold Basic.min. destruct (Z.ltb_spec a b) as [L|L].
  - rewrite Z.min_l by lia. change (- (1)) with (-1).
    assert (E : band (bxor a b) (-1) = bxor a b).
    { unfold band. change (toInt32 (-1)) with (-1).
      rewrite Z.land_m1_r. apply toInt32_fixed, bxor_range. }
    rewrite E. unfold bxor at 1.
    rewrite (toInt32_fixed (bxor a b)) by apply bxor_range. unfold bxor.
    rewrite (Z.lxor_comm (toInt32 a)), <- Z.lxor_assoc, Z.lxor_nilpotent.
    apply Z.lxor_0_l.
  - rewrite Z.min_r by lia. change (- (0)) with 0.
    assert (E : band (bxor a b) 0 = 0).
    { unfold band. change (toInt32 0) with 0. apply Z.land_0_r. }
    rewrite E. unfold bxor. change (toInt32 0) with 0. apply Z.lxor_0_r.
Qed.

Lemma max_value (a b : Z) : Basic.max a b = toInt32 (Z.max a b).
Proof.
  unfold Basic.max. destruct (Z.ltb_spec a b) as [L|L].
  - rewrite Z.max_r by lia. change (- (1)) with (-1).
    assert (E : band (bxor a b) (-1) = bxor a b).
    { unfold band. change (toInt32 (-1)) with (-1).
      rewrite Z.land_m1_r. apply toInt32_fixed, bxor_range. }
    rewrite E. unfold bxor at 1.
    rewrite (toInt32_fixed (bxor a b)) by apply bxor_range. unfold bxor.
    rewrite <- Z.lxor_assoc, Z.lxor_nilpotent. apply Z.lxor_0_l.
  - rewrite Z.max_l by lia. change (- (0)) with 0.
    assert (E : band (bxor a b) 0 = 0).
    { unfold band. change (toInt32 0) with 0. apply Z.land_0_r. }
    rewrite E. unfold bxor. change (toInt32 0) with 0. apply Z.lxor_0_r.
Qed.

(** X21. The branch-free [min] and [max] of basic.ts return the smaller
    and the larger argument converted to a signed 32-bit integer: they are
    the minimum and the maximum on arguments in [-2^31, 2^31 - 1], and on
    two bitflags that are both at least [2^31] they return the expected
    bitflag minus [2^32], a negative number. *)
Theorem min_max_are_signed :
  forall a b : Z,
    Basic.min a b = toInt32 (Z.min a b)
    /\ Basic.max a b = toInt32 (Z.max a b)
    /\ (- 2^31 <= a < 2^31 -> - 2^31 <= b < 2^31 ->
        Basic.min a b = Z.min a b /\ Basic.max a b = Z.max a b)
    /\ (2^31 <= a < 2^32 -> 2^31 <= b < 2^32 ->
        Basic.min a b = Z.min a b - 2^32 /\ Basic.max a b = Z.max a b - 2^32).
Proof.
  intros a b. rewrite min_value, max_value.
  split; [reflexivity|]. split; [reflexivity|]. split.
  - intros Ha Hb. split; apply toInt32_fixed; lia.
  - intros Ha Hb. split; apply toInt32_high; lia.
Qed.

(** X22. [getLowestNBits] returns the mask of the [n] lowest bits for [n]
    in [0,30] only: [1 << 31] is negative, so for 31 the result is
    [-2^31 - 1], and the shift count 32 wraps to 0, so for 32 the result is
    0.  It raises for every [n] outside [0,32]. *)
Theorem getLowestNBits_values :
  (forall n, 0 <= n <= 30 -> Bitmask.getLowestNBits n = OK (Z.ones n))
  /\ Bitmask.getLowestNBits 31 = OK (- 2^31 - 1)
  /\ Bitmask.getLowestNBits 32 = OK 0
  /\ (forall n, n < 0 \/ 32 < n -> throws (Bitmask.getLowestNBits n)).
Proof.
  split; [|split; [|split]].
  - intros n Hn. unfold Bitmask.getLowestNBits.
    replace ((n <? 0) || (n >? 32)) with false by lia. f_equal.
    unfold shl. rewrite shiftCount_small by lia. change (toInt32 1) with 1.
    rewrite Z.shiftl_1_l.
    assert (0 < 2^n) by (apply Z.pow_pos_nonneg; lia).
    assert (2^n < 2^31) by (apply Z.pow_lt_mono_r; lia).
    rewrite toInt32_small by lia.
    rewrite Z.ones_equiv. lia.
  - reflexivity.
  - reflexivity.
  - intros n Hn. unfold Bitmask.getLowestNBits.
    replace ((n <? 0) || (n >? 32)) with true by lia. eexists. reflexivity.
Qed.

End SignedWords.

Section LowestSetBit.
Import JS Spec Checks.

(** Every positive integer is a power of two times an odd number. *)
Lemma odd_part (n : Z) :
  0 < n -> exists k m, 0 <= k /\ 0 <= m /\ n = 2^k * (2 * m + 1).
Proof.
  intros Hn. assert (H0 : 0 <= n) by lia. revert Hn.
  pattern n. apply Z_lt_induction; [|exact H0]. clear n H0.
  intros n IH Hn.
  destruct (Z.eq_dec (n mod 2) 0) as [E|E].
  - assert (D : n = 2 * (n / 2)).
    { pose proof (Z.div_mod n 2 ltac:(lia)). lia. }
    destruct (IH (n / 2) ltac:(lia) ltac:(lia)) as (k & m & Hk & Hm & Q).
    exists (k + 1), m. split; [lia|]. split; [exact Hm|].
    rewrite Z.pow_add_r, Z.pow_1_r by lia. lia.
  - exists 0, (n / 2). split; [lia|]. split; [apply Z.div_pos; lia|].
    pose proof (Z.div_mod n 2 ltac:(lia)).
    pose proof (Z.mod_pos_bound n 2 ltac:(lia)).
    rewrite Z.pow_0_r. lia.
Qed.

Section Decomposed.
Variables n k m : Z.
Hypothesis Hk : 0 <= k.
Hypothesis Hm : 0 <= m.
Hypothesis Hn : n = 2^k * (2 * m + 1).

Lemma pow2_pos : 0 < 2^k.
Proof. apply Z.pow_pos_nonneg; lia. Qed.

Lemma low_bits_clear (i : Z) : 0 <= i < k -> Z.testbit n i = false.
Proof.
  intros Hi. rewrite Hn, Z.mul_comm. apply Z.mul_pow2_bits_low. lia.
Qed.

Lemma bit_k_set : Z.testbit n k = true.
Proof.
  rewrite Hn, Z.mul_comm, Z.mul_pow2_bits by lia.
  rewrite Z.sub_diag. apply Z.testbit_odd_0.
Qed.

Lemma bits_above (i : Z) : k < i -> Z.testbit n i = Z.testbit m (i - k - 1).
Proof.
  intros Hi. rewrite Hn, Z.mul_comm, Z.mul_pow2_bits by lia.
  set (j := i - k - 1). replace (i - k) with (Z.succ j) by lia.
  apply Z.testbit_odd_succ. lia.
Qed.

Lemma pred_decomposed : n - 1 = 2^k * (2 * m) + (2^k - 1).
Proof. rewrite Hn. lia. Qed.

Lemma pred_low_bits (i : Z) : 0 <= i < k -> Z.testbit (n - 1) i = true.
Proof.
  intros Hi. pose proof pow2_pos as P.
  rewrite <- (Z.mod_pow2_bits_low (n - 1) k i) by lia.
  replace ((n - 1) mod 2^k) with (Z.ones k).
  - apply Z.ones_spec_low. lia.
  - rewrite Z.ones_equiv.
    apply (Z.mod_unique (n - 1) (2^k) (2 * m)); [lia|].
    rewrite pred_decomposed. lia.
Qed.

Lemma pred_div : (n - 1) / 2^k = 2 * m.
Proof.
  pose proof pow2_pos as P. symmetry.
  apply (Z.div_unique (n - 1) (2^k) (2 * m) (2^k - 1)); [lia|].
  apply pred_decomposed.
Qed.

Lemma pred_bit_k : Z.testbit (n - 1) k = false.
Proof.
  replace (Z.testbit (n - 1) k) with (Z.testbit ((n - 1) / 2^k) 0)
    by (rewrite Z.div_pow2_bits by lia; f_equal; lia).
  rewrite pred_div. apply Z.testbit_even_0.
Qed.

Lemma pred_bits_above (i : Z) :
  k < i -> Z.testbit (n - 1) i = Z.testbit m (i - k - 1).
Proof.
  intros Hi.
  replace (Z.testbit (n - 1) i)
    with (Z.testbit ((n - 1) / 2^k) (Z.succ (i - k - 1)))
    by (rewrite Z.div_pow2_bits by lia; f_equal; lia).
  rewrite pred_div. apply Z.testbit_even_succ. lia.
Qed.

(** [n & -n] keeps the lowest set bit only, [n & (n - 1)] clears it. *)
Lemma isolated_bits (i : Z) :
  0 <= i -> Z.testbit n i && Z.testbit (- n) i = (k =? i).
Proof.
  intros Hi.
  replace (- n) with (Z.lnot (n - 1)) by (unfold Z.lnot; lia).
  rewrite Z.lnot_spec by lia.
  destruct (Z.lt_trichotomy i k) as [L|[->|G]].
  - rewrite low_bits_clear by lia. replace (k =? i) with false by lia. reflexivity.
  - rewrite bit_k_set, pred_bit_k, Z.eqb_refl. reflexivity.
  - rewrite bits_above, pred_bits_above by lia.
    replace (k =? i) with false by lia. apply andb_negb_r.
Qed.

Lemma removed_bits (i : Z) :
  0 <= i -> Z.testbit n i && Z.testbit (n - 1) i = Z.testbit (n - 2^k) i.
Proof.
  intros Hi.
  assert (Q : n - 2^k = 2^k * (2 * m)) by (rewrite Hn; lia).
  rewrite Q, (Z.mul_comm (2^k)).
  destruct (Z.lt_trichotomy i k) as [L|[->|G]].
  - rewrite low_bits_clear, Z.mul_pow2_bits_low by lia. reflexivity.
  - rewrite pred_bit_k, Z.mul_pow2_bits, Z.sub_diag, Z.testbit_even_0 by lia.
    apply andb_false_r.
  - rewrite bits_above, pred_bits_above, Z.mul_pow2_bits by lia.
    set (j := i - k - 1). replace (i - k) with (Z.succ j) by lia.
    rewrite Z.testbit_even_succ by lia. apply andb_diag.
Qed.

End Decomposed.

Lemma lowest_bit_position (n k m : Z) :
  isBitflag n -> 0 <= k -> 0 <= m -> n = 2^k * (2 * m + 1) -> k <= 31.
Proof.
  intros Hb Hk Hm Hn. unfold isBitflag in Hb.
  destruct (Z_le_gt_dec k 31) as [L|G]; [exact L|exfalso].
  assert (2^32 <= 2^k) by (apply Z.pow_le_mono_r; lia).
  assert (2^k <= n) by (rewrite Hn; nia).
  lia.
Qed.

Lemma isolated_unsigned (n k m : Z) :
  isBitflag n -> 0 <= k -> 0 <= m -> n = 2^k * (2 * m + 1) ->
  toUint32 (band n (- n)) = 2^k.
Proof.
  intros Hb Hk Hm Hn.
  pose proof (lowest_bit_position n k m Hb Hk Hm Hn) as K.
  apply uint_eq_bits.
  - intros i Hi. unfold band.
    rewrite Z.land_spec, !toInt32_testbit by lia.
    rewrite (isolated_bits n k m) by (assumption || lia).
    rewrite Z.pow2_bits_eqb by lia. reflexivity.
  - intros i Hi. rewrite Z.pow2_bits_eqb by lia. lia.
Qed.

Lemma DeBruijn_lookup (k : Z) :
  0 <= k < 32 ->
  nth (Z.to_nat (ushr (2^k * Basic.DeBruijnSequence) 27)) Basic.DeBruijnTable 0 = k.
Proof.
  intros Hk. apply Z.eqb_eq.
  apply (check_below
           (fun k => nth (Z.to_nat (ushr (2^k * Basic.DeBruijnSequence) 27))
                         Basic.DeBruijnTable 0 =? k) 32);
    [vm_compute; reflexivity | exact Hk].
Qed.

Lemma trailingZeros_value (n k m : Z) :
  isBitflag n -> 0 <= k -> 0 <= m -> n = 2^k * (2 * m + 1) ->
  Basic.trailingZeros n = k.
Proof.
  intros Hb Hk Hm Hn.
  pose proof (lowest_bit_position n k m Hb Hk Hm Hn) as K.
  pose proof (pow2_pos k Hk) as P.
  unfold Basic.trailingZeros. cbv zeta.
  assert (U : ushr n 0 = n).
  { rewrite ushr_zero. unfold isBitflag in Hb. apply toUint32_small. lia. }
  rewrite U.
  replace (n =? 0) with false by nia.
  transitivity (nth (Z.to_nat (ushr (2^k * Basic.DeBruijnSequence) 27))
                    Basic.DeBruijnTable 0); [|apply DeBruijn_lookup; lia].
  do 2 f_equal. unfold ushr. f_equal. unfold toUint32.
  rewrite <- Z.mul_mod_idemp_l by lia.
  change (band n (- n) mod 2^32) with (toUint32 (band n (- n))).
  rewrite (isolated_unsigned n k m) by assumption.
  reflexivity.
Qed.

(** X23. [trailingZeros] (the de Bruijn multiplication and table lookup)
    returns the position of the lowest set bit: for a bitflag
    [n = 2^k * (2m + 1)] it returns [k], so for every non-zero bitflag the
    result [t] is in [0,31], bit [t] of [n] is set and all bits below it are
    clear; [findFirstSetBit] returns the same position.  For 0 they return 32
    and -1. *)
Theorem trailingZeros_is_lowest_set_bit :
  forall n : Z, isBitflag n ->
    (forall k m, 0 <= k -> 0 <= m -> n = 2^k * (2 * m + 1) ->
       Basic.trailingZeros n = k)
    /\ (0 < n ->
        let t := Basic.trailingZeros n in
        0 <= t <= 31 /\ Z.testbit n t = true
        /\ (forall i, 0 <= i < t -> Z.testbit n i = false)
        /\ Basic.findFirstSetBit n = t)
    /\ Basic.trailingZeros 0 = 32
    /\ Basic.findFirstSetBit 0 = -1.
Proof.
  intros n Hb. split; [|split; [|split; reflexivity]].
  - intros k m. apply trailingZeros_value. exact Hb.
  - intros Hpos t.
    destruct (odd_part n Hpos) as (k & m & Hk & Hm & Hn).
    assert (T : t = k) by (apply (trailingZeros_value n k m); assumption).
    rewrite T.
    split; [pose proof (lowest_bit_position n k m Hb Hk Hm Hn); lia|].
    split; [apply (bit_k_set n k m); assumption|].
    split; [intros i Hi; apply (low_bits_clear n k m); assumption|].
    unfold Basic.findFirstSetBit. cbv zeta.
    assert (U : ushr n 0 = n).
    { rewrite ushr_zero. unfold isBitflag in Hb. apply toUint32_small. lia. }
    rewrite U. replace (n =? 0) with false by lia. exact T.
Qed.

Lemma trailingZeros_is_lowest_set_bit_witness :
  let t := Basic.trailingZeros 0xFF000000 in
  0 <= t <= 31 /\ Z.testbit 0xFF000000 t = true
  /\ (forall i, 0 <= i < t -> Z.testbit 0xFF000000 i = false)
  /\ Basic.findFirstSetBit 0xFF000000 = t.
Proof.
  apply (trailingZeros_is_lowest_set_bit 0xFF000000).
  - unfold isBitflag. lia.
  - lia.
Defined.

(** X24. The lowest set bit of a bitflag [n = 2^k * (2m + 1)]:
    [isolateRightmostSetBit] returns [2^k] as a signed 32-bit integer (so
    [-2^31] when [k = 31]), [removeRightmostSetBit] returns the bitflag
    [n - 2^k], and [isPowerOfTwo] holds exactly when [m] is 0, that is when
    [n = 2^k]. *)
Theorem rightmost_set_bit :
  forall n k m : Z, isBitflag n -> 0 <= k -> 0 <= m -> n = 2^k * (2 * m + 1) ->
    Bitmask.isolateRightmostSetBit n = toInt32 (2^k)
    /\ (k < 31 -> Bitmask.isolateRightmostSetBit n = 2^k)
    /\ (k = 31 -> Bitmask.isolateRightmostSetBit n = - 2^31)
    /\ Bitmask.removeRightmostSetBit n = n - 2^k
    /\ Basic.isPowerOfTwo n = (m =? 0)
    /\ Basic.isPowerOfTwo n = (n =? 2^k).
Proof.
  intros n k m Hb Hk Hm Hn.
  pose proof (lowest_bit_position n k m Hb Hk Hm Hn) as K.
  pose proof (pow2_pos k Hk) as P.
  assert (I : Bitmask.isolateRightmostSetBit n = toInt32 (2^k)).
  { unfold Bitmask.isolateRightmostSetBit.
    apply signed_eq_bits; [apply band_range|].
    intros i Hi. unfold band.
    rewrite Z.land_spec, !toInt32_testbit by lia.
    rewrite (isolated_bits n k m) by (assumption || lia).
    rewrite Z.pow2_bits_eqb by lia. reflexivity. }
  assert (R : Bitmask.removeRightmostSetBit n = n - 2^k).
  { unfold Bitmask.removeRightmostSetBit. rewrite ushr_zero.
    apply uint_eq_bits.
    - intros i Hi. unfold band.
      rewrite Z.land_spec, !toInt32_testbit by lia.
      apply (removed_bits n k m); assumption || lia.
    - intros i Hi. apply bitflag_high_bits; [|exact Hi].
      unfold isBitflag in *. nia. }
  assert (Q : (m =? 0) = (n =? 2^k)).
  { destruct (Z.eqb_spec m 0) as [->|Hne].
    - symmetry. apply Z.eqb_eq. rewrite Hn. lia.
    - symmetry. apply Z.eqb_neq. rewrite Hn. nia. }
  assert (W : Basic.isPowerOfTwo n = (n =? 2^k)).
  { unfold Basic.isPowerOfTwo.
    replace (n >? 0) with true by nia. cbn [andb].
    pose proof (band_range n (n - 1)) as B.
    assert (U : toUint32 (band n (n - 1)) = n - 2^k).
    { rewrite <- R. unfold Bitmask.removeRightmostSetBit. apply ushr_zero. }
    destruct (Z.eqb_spec (band n (n - 1)) 0) as [E|E].
    - rewrite E in U. change (toUint32 0) with 0 in U.
      symmetry. apply Z.eqb_eq. lia.
    - symmetry. apply Z.eqb_neq. intros V. apply E.
      rewrite <- (toInt32_fixed _ B).
      rewrite <- (toInt32_fixed 0) by lia.
      apply toInt32_congr. change (toUint32 (band n (n - 1)) = toUint32 0).
      rewrite U, V, Z.sub_diag. reflexivity. }
  split; [exact I|]. split; [|split; [|split; [exact R|split]]].
  - intros L. rewrite I. apply toInt32_small.
    split; [lia | apply Z.pow_lt_mono_r; lia].
  - intros ->. rewrite I. reflexivity.
  - rewrite Q. exact W.
  - exact W.
Qed.

Lemma rightmost_set_bit_witness :
  Bitmask.isolateRightmostSetBit 20 = toInt32 (2^2)
  /\ (2 < 31 -> Bitmask.isolateRightmostSetBit 20 = 2^2)
  /\ (2 = 31 -> Bitmask.isolateRightmostSetBit 20 = - 2^31)
  /\ Bitmask.removeRightmostSetBit 20 = 20 - 2^2
  /\ Basic.isPowerOfTwo 20 = (2 =? 0)
  /\ Basic.isPowerOfTwo 20 = (20 =? 2^2).
Proof.
  apply (rightmost_set_bit 20 2 2); [unfold isBitflag; lia | lia | lia | reflexivity].
Defined.

End LowestSetBit.

Section BinaryStrings.
Import JS Spec Checks.

Lemma leftShift_one (acc : Z) :
  Basic.leftShift acc 1 = OK (2 * (acc mod 2^31)).
Proof.
  unfold Basic.leftShift. change ((1 <? 0) || (1 >? 31)) with false.
  cbv iota zeta. f_equal. rewrite ushr_zero.
  assert (Z0 : bor acc 0 = toInt32 acc).
  { unfold bor. change (toInt32 0) with 0. apply Z.lor_0_r. }
  rewrite Z0. unfold shl.
  rewrite toInt32_idempotent, toUint32_toInt32.
  change (shiftCount 1) with 1.
  rewrite Z.shiftl_mul_pow2 by lia. change (2^1) with 2.
  unfold toUint32.
  rewrite <- Z.mul_mod_idemp_l by lia.
  change (toInt32 acc mod 2^32) with (toUint32 (toInt32 acc)).
  rewrite toUint32_toInt32. unfold toUint32.
  rewrite Z.mul_mod_idemp_l by lia.
  rewrite (Z.mul_comm acc 2).
  change (2^32) with (2 * 2^31).
  apply Z.mul_mod_distr_l; lia.
Qed.

Lemma or_low_bit (t b : Z) :
  0 <= t < 2^31 -> b = 0 \/ b = 1 ->
  toUint32 (Basic.or (2 * t) b) = 2 * t + b.
Proof.
  intros Ht Hb. unfold Basic.or. rewrite <- ushr_zero.
  change (2^31) with 2147483648 in Ht.
  rewrite uint_lor by (unfold isBitflag; change (2^32) with 4294967296; lia).
  destruct Hb as [-> | ->].
  - rewrite Z.lor_0_r. lia.
  - assert (L : Z.land (2 * t) 1 = 0).
    { rewrite land_1, Z.testbit_even_0. reflexivity. }
    rewrite <- (Z.lxor_lor _ _ L). symmetry. apply Z.add_nocarry_lxor. exact L.
Qed.

Lemma binaryValue_congr (s : string) (a b : Z) :
  a mod 2^32 = b mod 2^32 ->
  binaryValue s a mod 2^32 = binaryValue s b mod 2^32.
Proof.
  revert a b. induction s as [|c r IH]; intros a b H; cbn [binaryValue].
  - exact H.
  - apply IH.
    rewrite <- (Z.add_mod_idemp_l (2 * a)), <- (Z.add_mod_idemp_l (2 * b)) by lia.
    rewrite <- (Z.mul_mod_idemp_r 2 a), <- (Z.mul_mod_idemp_r 2 b) by lia.
    rewrite H. reflexivity.
Qed.

Lemma binaryLoop_value (s : string) :
  forall acc, onlyBinary s = true ->
    exists r, Parse.binaryLoop s acc = OK r
              /\ toUint32 r = binaryValue s acc mod 2^32.
Proof.
  induction s as [|c r IH]; intros acc Hs.
  - exists acc. split; reflexivity.
  - cbn [onlyBinary] in Hs. apply andb_true_iff in Hs. destruct Hs as [Hc Hr].
    cbn [Parse.binaryLoop binaryValue].
    replace (negb (Ascii.eqb c "0") && negb (Ascii.eqb c "1")) with false
      by (destruct (Ascii.eqb c "0"), (Ascii.eqb c "1"); simpl in *; congruence).
    rewrite leftShift_one, bind_OK.
    set (b := if Ascii.eqb c "1" then 1 else 0).
    assert (Hb : b = 0 \/ b = 1) by (unfold b; destruct (Ascii.eqb c "1"); auto).
    destruct (IH (Basic.or (2 * (acc mod 2^31)) b) Hr) as (v & E & V).
    exists v. split; [exact E|]. rewrite V.
    apply binaryValue_congr.
    change (Basic.or (2 * (acc mod 2^31)) b mod 2^32)
      with (toUint32 (Basic.or (2 * (acc mod 2^31)) b)).
    rewrite or_low_bit by (try apply Z.mod_pos_bound; lia || exact Hb).
    assert (E2 : 2 * (acc mod 2^31) = (2 * acc) mod 2^32).
    { change (2^32) with (2 * 2^31). symmetry. apply Z.mul_mod_distr_l; lia. }
    rewrite <- (Z.add_mod_idemp_l (2 * acc)), <- E2 by lia.
    symmetry. apply Z.mod_small.
    pose proof (Z.mod_pos_bound acc (2^31) ltac:(lia)).
    change (2^32) with 4294967296. change (2^31) with 2147483648 in *. lia.
Qed.

Lemma binaryLoop_throws (s : string) :
  forall acc, onlyBinary s = false -> throws (Parse.binaryLoop s acc).
Proof.
  induction s as [|c r IH]; intros acc Hs; [discriminate|].
  cbn [onlyBinary] in Hs. cbn [Parse.binaryLoop].
  destruct (negb (Ascii.eqb c "0") && negb (Ascii.eqb c "1")) eqn:C.
  - eexists. reflexivity.
  - rewrite leftShift_one, bind_OK. apply IH.
    destruct (Ascii.eqb c "0"), (Ascii.eqb c "1"); simpl in *;
      congruence.
Qed.

Lemma binaryValue_bounds (s : string) :
  forall acc, 0 <= acc ->
    acc * 2^(strlen s) <= binaryValue s acc < (acc + 1) * 2^(strlen s).
Proof.
  induction s as [|c r IH]; intros acc Ha.
  - cbn [binaryValue]. change (2^(strlen "")) with 1. lia.
  - cbn [binaryValue].
    set (b := if Ascii.eqb c "1" then 1 else 0).
    assert (Hb : 0 <= b <= 1) by (unfold b; destruct (Ascii.eqb c "1"); lia).
    specialize (IH (2 * acc + b) ltac:(lia)).
    replace (strlen (String c r)) with (strlen r + 1)
      by (unfold strlen; cbn [String.length]; lia).
    assert (0 <= strlen r) by (unfold strlen; lia).
    rewrite Z.pow_add_r, Z.pow_1_r by lia.
    assert (0 < 2^(strlen r)) by (apply Z.pow_pos_nonneg; lia).
    nia.
Qed.

Lemma formatIPv4_toUint32 (r : Z) :
  Parse.formatIPv4 r = Parse.formatIPv4 (toUint32 r).
Proof.
  unfold Parse.formatIPv4, Octet.bitflagToOctets, ushr, band.
  assert (U : toUint32 (toUint32 r) = toUint32 r)
    by (unfold toUint32; apply Z.mod_mod; lia).
  assert (I : toInt32 (toUint32 r) = toInt32 r)
    by (apply toInt32_congr; exact U).
  rewrite U, I. reflexivity.
Qed.

Lemma binaryToIP_ok (s : string) :
  strlen s = 32 -> onlyBinary s = true ->
  Parse.binaryToIP s = OK (Parse.formatIPv4 (binaryValue s 0))
  /\ isBitflag (binaryValue s 0).
Proof.
  intros Hl Hs.
  pose proof (binaryValue_bounds s 0 ltac:(lia)) as B. rewrite Hl in B.
  assert (Hv : isBitflag (binaryValue s 0)) by (unfold isBitflag; lia).
  split; [|exact Hv].
  unfold Parse.binaryToIP. rewrite Hl. change (negb (32 =? 32)) with false.
  cbv iota.
  destruct (binaryLoop_value s 0 Hs) as (r & E & V).
  rewrite E, bind_OK. f_equal.
  rewrite formatIPv4_toUint32, V.
  rewrite Z.mod_small by (unfold isBitflag in Hv; lia). reflexivity.
Qed.

(** X25. [binaryToIP] decodes binary strings: on a string of exactly 32
    characters, all '0' or '1', it returns the formatted address of the number
    the string writes in base 2 (most significant digit first), a bitflag;
    it raises for every string of another length and for every string that
    holds another character. *)
Theorem binaryToIP_decodes :
  forall s : string,
    (strlen s = 32 -> onlyBinary s = true ->
       Parse.binaryToIP s = OK (Parse.formatIPv4 (binaryValue s 0))
       /\ isBitflag (binaryValue s 0))
    /\ (strlen s <> 32 \/ onlyBinary s = false -> throws (Parse.binaryToIP s)).
Proof.
  intros s. split; [apply binaryToIP_ok|].
  intros H. unfold Parse.binaryToIP.
  destruct (Z.eqb_spec (strlen s) 32) as [E|E]; cbn [negb].
  - destruct H as [H|H]; [contradiction|].
    destruct (binaryLoop_throws s 0 H) as (e & T). rewrite T.
    eexists. reflexivity.
  - eexists. reflexivity.
Qed.

Lemma digitChar_bit (d : Z) :
  d = 0 \/ d = 1 ->
  (Ascii.eqb (digitChar d) "0" || Ascii.eqb (digitChar d) "1") = true
  /\ (if Ascii.eqb (digitChar d) "1" then 1 else 0) = d.
Proof. intros [-> | ->]; split; reflexivity. Qed.

Lemma mod2_cases (n : Z) : n mod 2 = 0 \/ n mod 2 = 1.
Proof. pose proof (Z.mod_pos_bound n 2 ltac:(lia)). lia. Qed.

Lemma bitsOf_onlyBinary (fuel : nat) :
  forall n rest, onlyBinary (bitsOf fuel n rest) = onlyBinary rest.
Proof.
  induction fuel as [|f IH]; intros n rest; [reflexivity|].
  cbn [bitsOf]. cbv zeta.
  destruct (digitChar_bit (n mod 2) (mod2_cases n)) as [D _].
  destruct (n <? 2).
  - cbn [onlyBinary]. rewrite D. reflexivity.
  - rewrite IH. cbn [onlyBinary]. rewrite D. reflexivity.
Qed.

Lemma bitsOf_value (fuel : nat) :
  forall n rest, 0 <= n < 2^(Z.of_nat fuel) ->
    binaryValue (bitsOf fuel n rest) 0 = binaryValue rest n.
Proof.
  induction fuel as [|f IH]; intros n rest Hn.
  - change (2^(Z.of_nat 0)) with 1 in Hn. assert (n = 0) as -> by lia. reflexivity.
  - cbn [bitsOf]. cbv zeta.
    destruct (digitChar_bit (n mod 2) (mod2_cases n)) as [_ D].
    rewrite Nat2Z.inj_succ, Z.pow_succ_r in Hn by lia.
    pose proof (Z.div_mod n 2 ltac:(lia)) as Q.
    pose proof (mod2_cases n) as M.
    destruct (Z.ltb_spec n 2) as [L|L].
    + cbn [binaryValue]. rewrite D. f_equal.
      rewrite Z.mod_small by lia. lia.
    + rewrite IH by lia. cbn [binaryValue]. rewrite D. f_equal. lia.
Qed.

Lemma bitsOf_length (fuel : nat) :
  forall n rest, strlen (bitsOf fuel n rest) <= Z.of_nat fuel + strlen rest.
Proof.
  induction fuel as [|f IH]; intros n rest; [cbn [bitsOf]; lia|].
  cbn [bitsOf]. cbv zeta.
  assert (S1 : forall c, strlen (String c rest) = strlen rest + 1)
    by (intros c; unfold strlen; cbn [String.length]; lia).
  destruct (n <? 2).
  - rewrite S1. lia.
  - specialize (IH (n / 2) (String (digitChar (n mod 2)) rest)).
    rewrite S1 in IH. lia.
Qed.

Lemma padded_zeros (k : nat) (s : string) :
  strlen (repeatChar k "0" ++ s) = Z.of_nat k + strlen s
  /\ onlyBinary (repeatChar k "0" ++ s) = onlyBinary s
  /\ binaryValue (repeatChar k "0" ++ s) 0 = binaryValue s 0.
Proof.
  induction k as [|k IH].
  - cbn [repeatChar append]. split; [lia|]. split; reflexivity.
  - destruct IH as (L & O & V). cbn [repeatChar append].
    split; [|split].
    + unfold strlen in *. cbn [String.length]. lia.
    + cbn [onlyBinary]. rewrite O. reflexivity.
    + cbn [binaryValue]. change (2 * 0 + (if Ascii.eqb "0" "1" then 1 else 0)) with 0.
      exact V.
Qed.

Lemma toBinaryString_facts (n : Z) :
  isBitflag n ->
  strlen (toBinaryString n) <= 32
  /\ onlyBinary (toBinaryString n) = true
  /\ binaryValue (toBinaryString n) 0 = n.
Proof.
  intros Hn. unfold isBitflag in Hn. unfold toBinaryString.
  assert (L : 0 <= Z.log2 n < 32).
  { split; [apply Z.log2_nonneg|].
    destruct (Z.eq_dec n 0) as [->|N]; [reflexivity|].
    apply Z.log2_lt_pow2; lia. }
  split; [|split].
  - pose proof (bitsOf_length (S (Z.to_nat (Z.log2 n))) n EmptyString) as B.
    change (strlen "") with 0 in B. lia.
  - rewrite bitsOf_onlyBinary. reflexivity.
  - rewrite bitsOf_value; [reflexivity|].
    rewrite Nat2Z.inj_succ, Z2Nat.id by lia.
    destruct (Z.eq_dec n 0) as [->|N]; [split; [lia | reflexivity]|].
    pose proof (Z.log2_spec n ltac:(lia)). lia.
Qed.

(** X26. [ipToBinary] and [binaryToIP] are inverse to each other on
    validated addresses: for the formatted address of a bitflag [n],
    [ipToBinary] returns a string of exactly 32 binary digits that writes [n]
    in base 2, and [binaryToIP] maps that string back to the address. *)
Theorem binaryToIP_ipToBinary :
  forall n : Z, isBitflag n ->
    exists b, Parse.ipToBinary (Parse.formatIPv4 n) = OK b
              /\ strlen b = 32
              /\ onlyBinary b = true
              /\ binaryValue b 0 = n
              /\ Parse.binaryToIP b = OK (Parse.formatIPv4 n).
Proof.
  intros n Hn.
  destruct (toBinaryString_facts n Hn) as (L & O & V).
  set (t := toBinaryString n) in *.
  assert (F : strlen (padStart t 32 "0") = 32
              /\ onlyBinary (padStart t 32 "0") = true
              /\ binaryValue (padStart t 32 "0") 0 = n).
  { unfold padStart. destruct (Z.leb_spec 32 (strlen t)) as [G|G].
    - split; [lia|]. split; assumption.
    - destruct (padded_zeros (Z.to_nat (32 - strlen t)) t) as (L' & O' & V').
      rewrite L', O', V'. split; [lia|]. split; assumption. }
  destruct F as (FL & FO & FV).
  exists (padStart t 32 "0").
  split.
  { unfold Parse.ipToBinary. rewrite parseIPv4_formatIPv4, bind_OK by exact Hn.
    reflexivity. }
  split; [exact FL|]. split; [exact FO|]. split; [exact FV|].
  destruct (binaryToIP_ok _ FL FO) as (E & _). rewrite E, FV. reflexivity.
Qed.

Lemma binaryToIP_ipToBinary_witness :
  exists b, Parse.ipToBinary (Parse.formatIPv4 0xC0A80101) = OK b
            /\ strlen b = 32
            /\ onlyBinary b = true
            /\ binaryValue b 0 = 0xC0A80101
            /\ Parse.binaryToIP b = OK (Parse.formatIPv4 0xC0A80101).
Proof.
  apply (binaryToIP_ipToBinary 0xC0A80101). unfold isBitflag. lia.
Defined.

End BinaryStrings.

Section OctetsOfAddresses.
Import JS Spec Checks.

Lemma bitflagToIP_formatIPv4 (n : Z) : Operation.bitflagToIP n = Parse.formatIPv4 n.
Proof. reflexivity. Qed.

Lemma extractOctet_range (n q : Z) :
  isBitflag n -> 0 <= q <= 3 ->
  exists o, Octet.extractOctet n q = OK o /\ 0 <= o <= 255.
Proof.
  intros Hn Hq. rewrite extractOctet_value by assumption.
  eexists. split; [reflexivity|].
  pose proof (Z.mod_pos_bound (n / 2^((3 - q) * 8)) (2^8) ltac:(lia)).
  change (2^8) with 256 in *. lia.
Qed.

(** A bitflag is determined by its four octets. *)
Lemma bitflag_of_octets_eq (a b : Z) :
  isBitflag a -> isBitflag b ->
  (forall t, 0 <= t <= 3 -> Octet.extractOctet a t = Octet.extractOctet b t) ->
  a = b.
Proof.
  intros Ha Hb H.
  rewrite <- (ipv4_of_octets a Ha), <- (ipv4_of_octets b Hb).
  assert (O : forall t, 0 <= t <= 3 ->
            (a / 2^((3 - t) * 8)) mod 2^8 = (b / 2^((3 - t) * 8)) mod 2^8).
  { intros t Ht. specialize (H t Ht).
    rewrite !extractOctet_value in H by assumption. congruence. }
  pose proof (O 0 ltac:(lia)) as O0. pose proof (O 1 ltac:(lia)) as O1.
  pose proof (O 2 ltac:(lia)) as O2. pose proof (O 3 ltac:(lia)) as O3.
  change ((3 - 0) * 8) with 24 in O0. change ((3 - 1) * 8) with 16 in O1.
  change ((3 - 2) * 8) with 8 in O2. change ((3 - 3) * 8) with 0 in O3.
  rewrite Z.pow_0_r, !Z.div_1_r in O3.
  change (2^8) with 256 in O0, O1, O2, O3.
  rewrite O0, O1. f_equal; assumption.
Qed.

Lemma getOctetFromIP_value (n q : Z) :
  isBitflag n ->
  OctetIP.getOctetFromIP (Parse.formatIPv4 n) q = Octet.extractOctet n q.
Proof.
  intros Hn. unfold OctetIP.getOctetFromIP.
  destruct ((q <? 0) || (q >? 3)) eqn:C.
  - unfold Octet.extractOctet. rewrite C. reflexivity.
  - cbv zeta. rewrite ipToBitflag_formatIPv4 by exact Hn. reflexivity.
Qed.

Lemma swapOctets_ok (n p q : Z) :
  isBitflag n -> 0 <= p <= 3 -> 0 <= q <= 3 ->
  exists r, OctetIP.swapOctets (Parse.formatIPv4 n) p q = OK (Parse.formatIPv4 r)
            /\ isBitflag r
            /\ Octet.extractOctet r p = Octet.extractOctet n q
            /\ Octet.extractOctet r q = Octet.extractOctet n p
            /\ forall t, 0 <= t <= 3 -> t <> p -> t <> q ->
                 Octet.extractOctet r t = Octet.extractOctet n t.
Proof.
  intros Hn Hp Hq. unfold OctetIP.swapOctets.
  replace ((p <? 0) || (p >? 3) || (q <? 0) || (q >? 3)) with false by lia.
  cbv zeta. rewrite ipToBitflag_formatIPv4 by exact Hn.
  destruct (extractOctet_range n p Hn Hp) as (o1 & E1 & R1).
  destruct (extractOctet_range n q Hn Hq) as (o2 & E2 & R2).
  rewrite E1, bind_OK, E2, bind_OK.
  destruct (setOctet_ok n p o2 Hn Hp R2) as (r1 & S1 & B1 & G1 & K1).
  rewrite S1, bind_OK.
  destruct (setOctet_ok r1 q o1 B1 Hq R1) as (r2 & S2 & B2 & G2 & K2).
  rewrite S2, bind_OK.
  exists r2. split; [reflexivity|]. split; [exact B2|].
  split; [|split].
  - destruct (Z.eq_dec p q) as [->|Npq].
    + rewrite G2. congruence.
    + rewrite K2 by lia. rewrite G1. reflexivity.
  - rewrite G2. reflexivity.
  - intros t Ht Tp Tq. rewrite K2, K1 by lia. reflexivity.
Qed.

(** X27. The octet functions on address strings, on the formatted
    address of a bitflag [n]: [getOctetFromIP] reads the octet that
    [extractOctet] reads; [setOctetInIP] returns the formatted address whose
    bitflag [setOctet] computes; [swapOctets] exchanges the octets at its two
    positions and leaves the others as they are, and swapping the same two
    positions again gives the address back. *)
Theorem octet_functions_on_addresses :
  forall n p q : Z, isBitflag n -> 0 <= p <= 3 -> 0 <= q <= 3 ->
    OctetIP.getOctetFromIP (Parse.formatIPv4 n) p = Octet.extractOctet n p
    /\ (forall v, 0 <= v <= 255 ->
          exists r, Octet.setOctet n p v = OK r
                    /\ OctetIP.setOctetInIP (Parse.formatIPv4 n) p v
                       = OK (Parse.formatIPv4 r)
                    /\ OctetIP.getOctetFromIP (Parse.formatIPv4 r) p = OK v)
    /\ exists r, OctetIP.swapOctets (Parse.formatIPv4 n) p q = OK (Parse.formatIPv4 r)
                 /\ isBitflag r
                 /\ Octet.extractOctet r p = Octet.extractOctet n q
                 /\ Octet.extractOctet r q = Octet.extractOctet n p
                 /\ (forall t, 0 <= t <= 3 -> t <> p -> t <> q ->
                       Octet.extractOctet r t = Octet.extractOctet n t)
                 /\ OctetIP.swapOctets (Parse.formatIPv4 r) p q
                    = OK (Parse.formatIPv4 n).
Proof.
  intros n p q Hn Hp Hq.
  split; [apply getOctetFromIP_value; exact Hn|]. split.
  - intros v Hv.
    destruct (setOctet_ok n p v Hn Hp Hv) as (r & S & B & G & _).
    exists r. split; [exact S|]. split.
    + unfold OctetIP.setOctetInIP.
      replace ((p <? 0) || (p >? 3)) with false by lia.
      replace ((v <? 0) || (v >? 255)) with false by lia.
      cbv zeta. rewrite ipToBitflag_formatIPv4 by exact Hn.
      rewrite S, bind_OK. reflexivity.
    + rewrite getOctetFromIP_value by exact B. exact G.
  - destruct (swapOctets_ok n p q Hn Hp Hq) as (r & S & B & Gp & Gq & K).
    exists r. split; [exact S|]. split; [exact B|]. split; [exact Gp|].
    split; [exact Gq|]. split; [exact K|].
    destruct (swapOctets_ok r p q B Hp Hq) as (r' & S' & B' & Gp' & Gq' & K').
    rewrite S'. do 2 f_equal.
    apply bitflag_of_octets_eq; [exact B' | exact Hn |].
    intros t Ht.
    destruct (Z.eq_dec t p) as [->|Tp]; [congruence|].
    destruct (Z.eq_dec t q) as [->|Tq]; [congruence|].
    rewrite K', K by assumption. reflexivity.
Qed.

Lemma octet_functions_on_addresses_witness :
  exists r, OctetIP.swapOctets (Parse.formatIPv4 0xC0A80101) 0 3
            = OK (Parse.formatIPv4 r)
            /\ isBitflag r
            /\ Octet.extractOctet r 0 = Octet.extractOctet 0xC0A80101 3
            /\ Octet.extractOctet r 3 = Octet.extractOctet 0xC0A80101 0
            /\ (forall t, 0 <= t <= 3 -> t <> 0 -> t <> 3 ->
                  Octet.extractOctet r t = Octet.extractOctet 0xC0A80101 t)
            /\ OctetIP.swapOctets (Parse.formatIPv4 r) 0 3
               = OK (Parse.formatIPv4 0xC0A80101).
Proof.
  apply (octet_functions_on_addresses 0xC0A80101 0 3);
    [unfold isBitflag; lia | lia | lia].
Defined.

(** X28. [isIPInRange] on formatted addresses is the comparison of the
    bitflags with both ends included, and it agrees with the CIDR functions:
    an address is in the range that [getIPRange] returns for a subnet exactly
    when [isInSubnet] holds for it. *)
Theorem isIPInRange_agrees_with_isInSubnet :
  forall a x p : Z, isBitflag a -> isBitflag x -> 0 <= p <= 32 ->
    (forall lo hi, isBitflag lo -> isBitflag hi ->
       Operation.isIPInRange (Parse.formatIPv4 a) (Parse.formatIPv4 lo)
                             (Parse.formatIPv4 hi)
       = (lo <=? a) && (a <=? hi))
    /\ exists first last,
         Cidr.getIPRange (Parse.formatIPv4 x) p = OK (first, last)
         /\ Cidr.isInSubnet (Parse.formatIPv4 a) (Parse.formatIPv4 x) p
            = OK (Operation.isIPInRange (Parse.formatIPv4 a) first last).
Proof.
  intros a x p Ha Hx Hp.
  assert (R : forall lo hi, isBitflag lo -> isBitflag hi ->
            Operation.isIPInRange (Parse.formatIPv4 a) (Parse.formatIPv4 lo)
                                  (Parse.formatIPv4 hi)
            = (lo <=? a) && (a <=? hi)).
  { intros lo hi Hlo Hhi. unfold Operation.isIPInRange. cbv zeta.
    rewrite !ipToBitflag_formatIPv4 by assumption.
    rewrite Z.geb_leb. reflexivity. }
  split; [exact R|].
  exists (Parse.formatIPv4 (maskedTo x p)), (Parse.formatIPv4 (blockEnd x p)).
  assert (Hx0 : 0 <= x) by (unfold isBitflag in Hx; lia).
  pose proof (maskedTo_bounds x p Hp Hx0) as [[B0 B1] B2].
  pose proof (blockEnd_range x p Hx Hp) as BE.
  split.
  - unfold Cidr.getIPRange.
    rewrite calculateNetworkAddress_value, bind_OK by assumption.
    rewrite calculateBroadcastAddress_value, bind_OK by assumption.
    reflexivity.
  - rewrite R.
    + rewrite isInSubnet_value by assumption. f_equal.
      pose proof (inBlock_range a (maskedTo x p) p Hp
                    ltac:(unfold isBitflag in Ha; lia)
                    (maskedTo_idempotent x p Hp)) as E.
      unfold inBlock in E. rewrite E. unfold blockEnd. reflexivity.
    + apply BE.
    + apply BE.
Qed.

Lemma isIPInRange_agrees_with_isInSubnet_witness :
  exists first last,
    Cidr.getIPRange (Parse.formatIPv4 0xC0A80107) 24 = OK (first, last)
    /\ Cidr.isInSubnet (Parse.formatIPv4 0xC0A80164) (Parse.formatIPv4 0xC0A80107) 24
       = OK (Operation.isIPInRange (Parse.formatIPv4 0xC0A80164) first last).
Proof.
  apply (isIPInRange_agrees_with_isInSubnet 0xC0A80164 0xC0A80107 24);
    [unfold isBitflag; lia | unfold isBitflag; lia | lia].
Defined.

End OctetsOfAddresses.

Section ValidateConversions.
Import JS Spec Checks.

Lemma leftShift_value (n p : Z) :
  0 <= p <= 31 -> Basic.leftShift n p = OK ((n * 2^p) mod 2^32).
Proof.
  intros Hp. unfold Basic.leftShift.
  replace ((p <? 0) || (p >? 31)) with false by lia.
  cbv zeta. f_equal. rewrite ushr_zero.
  assert (Z0 : bor n 0 = toInt32 n).
  { unfold bor. change (toInt32 0) with 0. apply Z.lor_0_r. }
  rewrite Z0. unfold shl.
  rewrite toInt32_idempotent, toUint32_toInt32, shiftCount_small by lia.
  rewrite Z.shiftl_mul_pow2 by lia. unfold toUint32.
  rewrite <- Z.mul_mod_idemp_l by lia.
  change (toInt32 n mod 2^32) with (toUint32 (toInt32 n)).
  rewrite toUint32_toInt32. unfold toUint32.
  apply Z.mul_mod_idemp_l. lia.
Qed.

(** One step of the [reduce]: the unsigned value of the accumulator is
    shifted by one octet and the new octet is added. *)
Lemma reduce_step (acc u o : Z) :
  toUint32 acc = u -> 0 <= u < 2^24 -> 0 <= o <= 255 ->
  toUint32 (bor ((acc * 2^8) mod 2^32) o) = u * 256 + o.
Proof.
  intros Hu Hr Ho.
  assert (S : (acc * 2^8) mod 2^32 = Z.shiftl u 8).
  { rewrite Z.shiftl_mul_pow2 by lia.
    rewrite <- Z.mul_mod_idemp_l by lia.
    change (acc mod 2^32) with (toUint32 acc). rewrite Hu.
    apply Z.mod_small.
    change (2^24) with 16777216 in Hr. change (2^8) with 256.
    change (2^32) with 4294967296. lia. }
  rewrite S, <- ushr_zero.
  change (2^24) with 16777216 in Hr.
  rewrite uint_lor.
  - rewrite lor_shiftl_add by (change (2^8) with 256; lia).
    change (2^8) with 256. reflexivity.
  - rewrite Z.shiftl_mul_pow2 by lia. unfold isBitflag.
    change (2^8) with 256. change (2^32) with 4294967296. lia.
  - unfold isBitflag. change (2^32) with 4294967296. lia.
Qed.

Lemma extractBits_congr (x y s e : Z) :
  toUint32 x = toUint32 y -> Bitmask.extractBits x s e = Bitmask.extractBits y s e.
Proof.
  intros H. unfold Bitmask.extractBits, band.
  rewrite (toInt32_congr x y H). reflexivity.
Qed.

Lemma bitflagToIPv4_value (x n : Z) :
  isBitflag n -> toUint32 x = n ->
  Validate.bitflagToIPv4 x = OK (Parse.formatIPv4 n).
Proof.
  intros Hn Hx. unfold Validate.bitflagToIPv4.
  assert (E : toUint32 x = toUint32 n).
  { rewrite Hx. symmetry. unfold isBitflag in Hn. apply toUint32_small. lia. }
  rewrite !(extractBits_congr x n _ _ E).
  rewrite !extractBits_ok by (assumption || lia).
  rewrite !bind_OK.
  change (31 - 24 + 1) with 8. change (23 - 16 + 1) with 8.
  change (15 - 8 + 1) with 8. change (7 - 0 + 1) with 8.
  rewrite Z.pow_0_r, Z.div_1_r. change (2^8) with 256.
  rewrite formatIPv4_dotted by exact Hn. reflexivity.
Qed.

Lemma toInt32_of_toUint32 (x y : Z) : toUint32 x = toUint32 y -> toInt32 x = toInt32 y.
Proof. exact (toInt32_congr x y). Qed.

Lemma reduceOctets_cons (o : string) (rest : list string) (acc v : Z) :
  parseInt o = Some v ->
  Validate.reduceOctets (o :: rest) acc
  = Validate.reduceOctets rest (bor ((acc * 2^8) mod 2^32) v).
Proof.
  intros P. cbn [Validate.reduceOctets].
  rewrite leftShift_value by lia. rewrite bind_OK, P. reflexivity.
Qed.

Lemma reduceOctets_four (sa sb sc sd : string) (a b c d : Z) :
  parseInt sa = Some a -> parseInt sb = Some b ->
  parseInt sc = Some c -> parseInt sd = Some d ->
  0 <= a <= 255 -> 0 <= b <= 255 -> 0 <= c <= 255 -> 0 <= d <= 255 ->
  Validate.reduceOctets [sa; sb; sc; sd] 0 = OK (toInt32 (ipv4 a b c d)).
Proof.
  intros Pa Pb Pc Pd Ba Bb Bc Bd.
  rewrite (reduceOctets_cons sa _ _ a Pa), (reduceOctets_cons sb _ _ b Pb),
    (reduceOctets_cons sc _ _ c Pc), (reduceOctets_cons sd _ _ d Pd).
  change (Validate.reduceOctets [] ?x) with (OK x).
  pose proof (reduce_step 0 0 a eq_refl
                ltac:(change (2^24) with 16777216; lia) Ba) as U1.
  remember (bor ((0 * 2^8) mod 2^32) a) as r1 eqn:E1. clear E1.
  pose proof (reduce_step r1 _ b U1
                ltac:(change (2^24) with 16777216; lia) Bb) as U2.
  remember (bor ((r1 * 2^8) mod 2^32) b) as r2 eqn:E2. clear E2 U1 r1.
  pose proof (reduce_step r2 _ c U2
                ltac:(change (2^24) with 16777216; lia) Bc) as U3.
  remember (bor ((r2 * 2^8) mod 2^32) c) as r3 eqn:E3. clear E3 U2 r2.
  pose proof (reduce_step r3 _ d U3
                ltac:(change (2^24) with 16777216; lia) Bd) as U4.
  pose proof (bor_range ((r3 * 2^8) mod 2^32) d) as B4.
  remember (bor ((r3 * 2^8) mod 2^32) d) as r4 eqn:E4. clear E4 U3 r3.
  f_equal. rewrite <- (toInt32_fixed r4 B4).
  apply toInt32_of_toUint32.
  rewrite U4. symmetry.
  unfold ipv4. change (2^24) with 16777216. change (2^16) with 65536.
  change (2^8) with 256.
  rewrite toUint32_small by (change (2^32) with 4294967296; lia).
  lia.
Qed.

Lemma ipv4ToBitflag_value (n : Z) :
  isBitflag n -> Validate.ipv4ToBitflag (Parse.formatIPv4 n) = OK (toInt32 n).
Proof.
  intros Hn. rewrite formatIPv4_dotted by exact Hn.
  pose proof (numToString_goodOctet _ (octet_bound (n / 2^24))) as Ga.
  pose proof (numToString_goodOctet _ (octet_bound (n / 2^16))) as Gb.
  pose proof (numToString_goodOctet _ (octet_bound (n / 2^8))) as Gc.
  pose proof (numToString_goodOctet _ (octet_bound n)) as Gd.
  unfold Validate.ipv4ToBitflag.
  rewrite (split_dotted _ _ _ _ _ _ _ _ Ga Gb Gc Gd).
  apply goodOctet_elim in Ga, Gb, Gc, Gd.
  destruct Ga as (_ & _ & _ & Pa & _). destruct Gb as (_ & _ & _ & Pb & _).
  destruct Gc as (_ & _ & _ & Pc & _). destruct Gd as (_ & _ & _ & Pd & _).
  rewrite (reduceOctets_four _ _ _ _ _ _ _ _ Pa Pb Pc Pd)
    by apply octet_bound.
  rewrite ipv4_of_octets by exact Hn. reflexivity.
Qed.

(** X29. The conversions of validate.ts.  On the formatted address of a
    bitflag [n], [ipv4ToBitflag] returns [n] read as a signed 32-bit integer
    (its last step is [|]), so for [n >= 2^31] it returns the negative number
    [n - 2^32] where [parseIPv4] returns [n].  [bitflagToIPv4] formats a
    bitflag as [formatIPv4] does, and it gives the same address on the signed
    reading, so [bitflagToIPv4 (ipv4ToBitflag ip)] is [ip] again. *)
Theorem validate_conversions :
  forall n : Z, isBitflag n ->
    let ip := Parse.formatIPv4 n in
    Validate.ipv4ToBitflag ip = OK (toInt32 n)
    /\ (2^31 <= n -> Validate.ipv4ToBitflag ip = OK (n - 2^32))
    /\ (n < 2^31 -> Validate.ipv4ToBitflag ip = Parse.parseIPv4 ip)
    /\ Validate.bitflagToIPv4 n = OK ip
    /\ (forall v, Validate.ipv4ToBitflag ip = OK v ->
          Validate.bitflagToIPv4 v = OK ip).
Proof.
  intros n Hn ip. subst ip.
  pose proof (ipv4ToBitflag_value n Hn) as E.
  assert (U : toUint32 n = n) by (unfold isBitflag in Hn; apply toUint32_small; lia).
  split; [exact E|]. split; [|split; [|split]].
  - intros H. rewrite E. unfold isBitflag in Hn. rewrite toInt32_high by lia.
    reflexivity.
  - intros H. rewrite E, parseIPv4_formatIPv4 by exact Hn.
    unfold isBitflag in Hn. rewrite toInt32_small by lia. reflexivity.
  - apply bitflagToIPv4_value; assumption.
  - intros v Hv. rewrite E in Hv. injection Hv as <-.
    apply bitflagToIPv4_value; [exact Hn|].
    rewrite toUint32_toInt32. exact U.
Qed.

Lemma validate_conversions_witness :
  Validate.ipv4ToBitflag (Parse.formatIPv4 0xC0A80101) = OK (0xC0A80101 - 2^32).
Proof.
  apply (validate_conversions 0xC0A80101).
  - unfold isBitflag. lia.
  - vm_compute. discriminate.
Defined.

End ValidateConversions.

Section LeadingOnes.
Import JS Spec Checks.

Lemma sign_bit_mask (i : Z) : 0 <= i -> Z.testbit (- 2147483648) i = (31 <=? i).
Proof.
  intros Hi. change (- 2147483648) with (Z.lnot (Z.ones 31)).
  rewrite Z.lnot_spec, Z.testbit_ones by lia.
  replace (0 <=? i) with true by lia. cbn [andb].
  destruct (Z.ltb_spec i 31), (Z.leb_spec 31 i); try reflexivity; lia.
Qed.

(** The loop test [(n & 0x80000000) === 0] reads bit 31. *)
Lemma sign_test (x : Z) : (band x 0x80000000 =? 0) = negb (Z.testbit x 31).
Proof.
  unfold band. change (toInt32 0x80000000) with (- 2147483648).
  rewrite <- (toInt32_testbit x 31) by lia.
  pose proof (toInt32_range x) as R. set (y := toInt32 x) in *. clearbody y.
  destruct (Z.testbit y 31) eqn:S; cbn [negb].
  - apply Z.eqb_neq. intros E.
    assert (B : Z.testbit (Z.land y (- 2147483648)) 31 = true)
      by (rewrite Z.land_spec, S, sign_bit_mask by lia; reflexivity).
    rewrite E, Z.bits_0 in B. discriminate.
  - apply Z.eqb_eq. apply Z.bits_inj'. intros i Hi.
    rewrite Z.land_spec, Z.bits_0, sign_bit_mask by lia.
    destruct (Z.leb_spec 31 i) as [L|L]; [|apply andb_false_r].
    rewrite (int32_high_bits y i R L), S. reflexivity.
Qed.

Lemma shl_one_bits (m i : Z) :
  1 <= i < 32 -> Z.testbit (shl m 1) i = Z.testbit m (i - 1).
Proof.
  intros Hi. unfold shl. change (shiftCount 1) with 1.
  rewrite toInt32_testbit, Z.shiftl_spec, toInt32_testbit by lia. reflexivity.
Qed.

Lemma countLeadingOnes_loop_spec (n : Z) (fuel : nat) :
  forall m count,
    Z.of_nat fuel = 32 - count -> 0 <= count ->
    (forall i, count <= i < 32 -> Z.testbit m i = negb (Z.testbit n (i - count))) ->
    (forall i, 32 - count <= i < 32 -> Z.testbit n i = true) ->
    let k := Bitmask.countLeadingOnes_loop fuel m count in
    0 <= k <= 32
    /\ (forall i, 32 - k <= i < 32 -> Z.testbit n i = true)
    /\ (k < 32 -> Z.testbit n (31 - k) = false).
Proof.
  induction fuel as [|f IH]; intros m count Hf Hc Hm Hn; cbn [Bitmask.countLeadingOnes_loop].
  - cbv zeta. split; [lia|]. split; [exact Hn | lia].
  - rewrite Nat2Z.inj_succ in Hf.
    rewrite sign_test, (Hm 31) by lia. rewrite negb_involutive.
    replace (count <? 32) with true by lia. rewrite andb_true_r.
    destruct (Z.testbit n (31 - count)) eqn:T.
    + apply IH; [lia | lia | |].
      * intros i Hi. rewrite shl_one_bits, Hm by lia. do 2 f_equal. lia.
      * intros i Hi. destruct (Z.eq_dec i (31 - count)) as [->|N]; [exact T|].
        apply Hn. lia.
    + cbv zeta. split; [lia|]. split; [exact Hn|]. intros _. exact T.
Qed.

Lemma countLeadingOnes_bits (n : Z) :
  let k := Bitmask.countLeadingOnes n in
  0 <= k <= 32
  /\ (forall i, 32 - k <= i < 32 -> Z.testbit n i = true)
  /\ (k < 32 -> Z.testbit n (31 - k) = false).
Proof.
  unfold Bitmask.countLeadingOnes.
  apply countLeadingOnes_loop_spec; [reflexivity | lia | | intros i Hi; lia].
  intros i Hi. unfold bnot.
  rewrite Z.lnot_spec, toInt32_testbit, Z.sub_0_r by lia. reflexivity.
Qed.

Lemma top_bits_set (n k : Z) :
  isBitflag n -> 0 <= k <= 32 ->
  (forall i, 32 - k <= i < 32 -> Z.testbit n i = true) ->
  n / 2^(32 - k) = 2^k - 1.
Proof.
  intros Hn Hk Hb. unfold isBitflag in Hn.
  assert (P : 0 < 2^(32 - k)) by (apply Z.pow_pos_nonneg; lia).
  assert (S : 2^(32 - k) * 2^k = 2^32) by (rewrite <- Z.pow_add_r by lia; f_equal; lia).
  assert (Q : 0 <= n / 2^(32 - k) < 2^k).
  { split; [apply Z.div_pos; lia|]. apply Z.div_lt_upper_bound; lia. }
  replace (2^k - 1) with (Z.ones k) by (rewrite Z.ones_equiv; lia).
  apply Z.bits_inj'. intros j Hj.
  destruct (Z.lt_ge_cases j k) as [L|L].
  - rewrite Z.div_pow2_bits, Z.ones_spec_low by lia. apply Hb. lia.
  - rewrite (small_high_bits _ k j), Z.ones_spec_high by lia. reflexivity.
Qed.

Lemma below_clear_bit (x w : Z) :
  1 <= w -> 0 <= x < 2^w -> Z.testbit x (w - 1) = false -> x < 2^(w - 1).
Proof.
  intros Hw Hx Hb.
  assert (E : x = x mod 2^(w - 1)).
  { apply Z.bits_inj'. intros i Hi. rewrite Z.testbit_mod_pow2 by lia.
    destruct (Z.ltb_spec i (w - 1)) as [L|L]; cbn [andb]; [reflexivity|].
    destruct (Z.eq_dec i (w - 1)) as [->|N]; [exact Hb|].
    apply (small_high_bits x w i); lia. }
  rewrite E. apply Z.mod_pos_bound. apply Z.pow_pos_nonneg; lia.
Qed.

(** X30. [countLeadingOnes] counts the one bits at the top of the
    32-bit word: its result [k] is in [0,32], the bits 31 down to [32 - k] of
    [n] are set, and when [k < 32] the next bit, [31 - k], is clear.  For a
    bitflag this places [n] between the masks of [k] and of [k + 1] leading
    ones, so the result is 32 only for [2^32 - 1]. *)
Theorem countLeadingOnes_counts_top_bits :
  forall n : Z,
    let k := Bitmask.countLeadingOnes n in
    0 <= k <= 32
    /\ (forall i, 32 - k <= i < 32 -> Z.testbit n i = true)
    /\ (k < 32 -> Z.testbit n (31 - k) = false)
    /\ (isBitflag n ->
        contiguousMask k <= n
        /\ (k < 32 -> n < contiguousMask (k + 1))
        /\ (k = 32 -> n = 2^32 - 1)).
Proof.
  intros n k. destruct (countLeadingOnes_bits n) as (R & Ones & Zero).
  fold k in R, Ones, Zero.
  split; [exact R|]. split; [exact Ones|]. split; [exact Zero|].
  intros Hn. clearbody k.
  pose proof (top_bits_set n k Hn R Ones) as Q.
  assert (P : 0 < 2^(32 - k)) by (apply Z.pow_pos_nonneg; lia).
  assert (S : 2^k * 2^(32 - k) = 2^32) by (rewrite <- Z.pow_add_r by lia; f_equal; lia).
  pose proof (Z.div_mod n (2^(32 - k)) ltac:(lia)) as D.
  pose proof (Z.mod_pos_bound n (2^(32 - k)) P) as M.
  rewrite Q in D.
  assert (Lo : contiguousMask k <= n) by (unfold contiguousMask; nia).
  split; [exact Lo|]. split.
  - intros Hk. specialize (Zero Hk).
    assert (B : Z.testbit (n mod 2^(32 - k)) (32 - k - 1) = false).
    { rewrite Z.testbit_mod_pow2 by lia.
      replace (32 - k - 1) with (31 - k) by lia. rewrite Zero. apply andb_false_r. }
    pose proof (below_clear_bit _ (32 - k) ltac:(lia) M B) as U.
    unfold contiguousMask. replace (32 - (k + 1)) with (32 - k - 1) by lia.
    assert (H2 : 2^(32 - k) = 2 * 2^(32 - k - 1)).
    { rewrite <- Z.pow_succ_r by lia. f_equal. lia. }
    nia.
  - intros ->. unfold isBitflag in Hn. unfold contiguousMask in Lo.
    change (2^(32 - 32)) with 1 in Lo. lia.
Qed.

Lemma countLeadingOnes_counts_top_bits_witness :
  contiguousMask (Bitmask.countLeadingOnes 0xFFFF00FF) <= 0xFFFF00FF
  /\ (Bitmask.countLeadingOnes 0xFFFF00FF < 32 ->
      0xFFFF00FF < contiguousMask (Bitmask.countLeadingOnes 0xFFFF00FF + 1))
  /\ (Bitmask.countLeadingOnes 0xFFFF00FF = 32 -> 0xFFFF00FF = 2^32 - 1).
Proof.
  apply (countLeadingOnes_counts_top_bits 0xFFFF00FF). unfold isBitflag. lia.
Defined.

End LeadingOnes.
